(** * easycert: the path layout and command dispatch of the OpenSSL wrapper

    A shallow embedding of [easycert.go].  Paths are Go strings (bytes);
    the operating system is an explicit world (a file system with fault
    injection, standard output and the log); [log.Fatal], [os.Exit] and
    run-time panics are results of a small monad that threads the state
    and collects a trace of the steps taken. *)

From Stdlib Require Import ZArith Ascii String List Bool Lia.
From stdpp Require Import base option list strings gmap sorting.

Local Open Scope string_scope.
Local Open Scope list_scope.
Local Open Scope Z_scope.

(** ** Go strings as byte lists *)

Abbreviation bytes := (list ascii).

Definition str (l : bytes) : string := string_of_list_ascii l.
Definition unstr (s : string) : bytes := list_ascii_of_string s.

(** ** path/filepath on Unix

    The standard library functions the program calls, transcribed from
    Go's [path/filepath] for a Unix target ([Separator] is a slash and
    there are no volume names). *)
Module filepath.

Definition Separator : ascii := "/"%char.
Definition dot : ascii := "."%char.

Definition IsPathSeparator (c : ascii) : bool := Ascii.eqb c Separator.

(** [for ; r < n && !os.IsPathSeparator(path[r]); r++]: the bytes of
    one path element and what follows them. *)
Fixpoint span_elem (l : bytes) : bytes * bytes :=
  match l with
  | [] => ([], [])
  | c :: l' =>
      if IsPathSeparator c then ([], l)
      else let '(e, r) := span_elem l' in (c :: e, r)
  end.

(** The inner loop of the [..] case: [out.w] runs down while it is above
    [dotdot] and the byte at [out.w] is not a separator. *)
Fixpoint backtrack (out : bytes) (dotdot : nat) (w : nat) : nat :=
  match w with
  | O => O
  | S w' =>
      if (dotdot <? w)%nat && negb (IsPathSeparator (nth w out Separator))
      then backtrack out dotdot w'
      else w
  end.

Definition starts_sep_or_end (l : bytes) : bool :=
  match l with
  | [] => true
  | c :: _ => IsPathSeparator c
  end.

(** The main loop of [Clean]: [rest] is [path[r:]], [out] the bytes
    written so far ([out.w] is its length).  Every turn consumes at least
    one byte, so the length of the path is enough fuel. *)
Fixpoint clean_loop (fuel : nat) (rooted : bool) (rest out : bytes)
    (dotdot : nat) : bytes :=
  match fuel with
  | O => out
  | S fuel' =>
      match rest with
      | [] => out
      | c :: rest1 =>
          if IsPathSeparator c then
            (* empty path element *)
            clean_loop fuel' rooted rest1 out dotdot
          else if Ascii.eqb c dot && starts_sep_or_end rest1 then
            (* . element *)
            clean_loop fuel' rooted rest1 out dotdot
          else if Ascii.eqb c dot
                  && match rest1 with
                     | c1 :: rest2 => Ascii.eqb c1 dot && starts_sep_or_end rest2
                     | [] => false
                     end then
            (* .. element: remove to last separator *)
            let rest2 := tl rest1 in
            if (dotdot <? length out)%nat then
              (* can backtrack *)
              let w := backtrack out dotdot (length out - 1) in
              clean_loop fuel' rooted rest2 (take w out) dotdot
            else if negb rooted then
              (* cannot backtrack, but not rooted, so append .. element *)
              let out1 := if (0 <? length out)%nat then out ++ [Separator] else out in
              let out2 := out1 ++ [dot; dot] in
              clean_loop fuel' rooted rest2 out2 (length out2)
            else
              clean_loop fuel' rooted rest2 out dotdot
          else
            (* real path element: add slash if needed, copy element *)
            let out1 :=
              if (rooted && negb (length out =? 1)%nat)
                 || (negb rooted && negb (length out =? 0)%nat)
              then out ++ [Separator] else out in
            let '(e, rest') := span_elem rest in
            clean_loop fuel' rooted rest' (out1 ++ e) dotdot
      end
  end.

Definition clean (path : bytes) : bytes :=
  match path with
  | [] => [dot]
  | c :: path1 =>
      let rooted := IsPathSeparator c in
      let out :=
        if rooted
        then clean_loop (length path) true path1 [Separator] 1
        else clean_loop (length path) false path [] 0 in
      (* Turn empty string into "." *)
      match out with
      | [] => [dot]
      | _ => out
      end
  end.

Definition Clean (path : string) : string := str (clean (unstr path)).

(** [strings.Join(elem, "/")]. *)
Fixpoint join_sep (elem : list bytes) : bytes :=
  match elem with
  | [] => []
  | [e] => e
  | e :: rest => e ++ Separator :: join_sep rest
  end.

(** [join]: the first non-empty element starts the path; the result is
    cleaned; all elements empty gives the empty string. *)
Fixpoint join (elem : list bytes) : bytes :=
  match elem with
  | [] => []
  | e :: rest =>
      match e with
      | [] => join rest
      | _ => clean (join_sep elem)
      end
  end.

Definition Join (elem : list string) : string := str (join (map unstr elem)).

Fixpoint drop_seps (l : bytes) : bytes :=
  match l with
  | c :: l' => if IsPathSeparator c then drop_seps l' else l
  | [] => []
  end.

(** [Base]: strip trailing slashes, keep what follows the last slash; the
    empty path gives ["."], a path of slashes only gives ["/"]. *)
Definition base (path : bytes) : bytes :=
  match path with
  | [] => [dot]
  | _ =>
      let stripped := rev (drop_seps (rev path)) in
      let last := rev (fst (span_elem (rev stripped))) in
      match last with
      | [] => [Separator]
      | _ => last
      end
  end.

Definition Base (path : string) : string := str (base (unstr path)).

(** Notions the facts about these functions are stated with. *)

Definition no_sep (l : bytes) : Prop :=
  forallb (fun c => negb (IsPathSeparator c)) l = true.

(** Empty, or ending in a separator: where a path element may start. *)
Definition boundary (t : bytes) : Prop :=
  t = [] \/ exists t0, t = t0 ++ [Separator].

(** What [Clean] has written of a rooted path starts with the slash. *)
Definition rooted_inv (rooted : bool) (out : bytes) (dotdot : nat) : Prop :=
  rooted = true -> dotdot = 1%nat /\ exists o, out = Separator :: o.

(** A name a directory can hold: not empty, no slash, not [.] or [..]. *)
Definition valid_name (n : bytes) : bool :=
  match n with
  | [] => false
  | _ =>
      forallb (fun c => negb (IsPathSeparator c)) n
      && negb (forallb (Ascii.eqb dot) n && (length n <=? 2)%nat)
  end.

(** A file extension: no separator in it, and not made of dots only. *)
Definition is_ext (ext : bytes) : bool :=
  forallb (fun c => negb (IsPathSeparator c)) ext
  && negb (forallb (Ascii.eqb dot) ext).

End filepath.

(** ** strconv.Atoi

    Go's [strconv.Atoi] for a 64-bit [int]: an optional sign, then one or
    more decimal digits, and the value has to fit the type. *)
Module strconv.

Definition intSize : Z := 64.
Definition maxInt : Z := 2 ^ (intSize - 1) - 1.
Definition minInt : Z := - 2 ^ (intSize - 1).

Inductive NumError := ErrSyntax | ErrRange.

Definition digit (c : ascii) : option Z :=
  let n := Z.of_N (N_of_ascii c) in
  if (48 <=? n) && (n <=? 57) then Some (n - 48) else None.

(** [n = n*10 + int(ch)] over the bytes, failing on a byte that is no
    digit. *)
Fixpoint digits (l : bytes) (n : Z) : option Z :=
  match l with
  | [] => Some n
  | ch :: l' =>
      match digit ch with
      | Some d => digits l' (n * 10 + d)
      | None => None
      end
  end.

Definition unsigned (l : bytes) : option Z :=
  match l with
  | [] => None
  | _ => digits l 0
  end.

Definition atoi (l : bytes) : Z + NumError :=
  let '(neg, body) :=
    match l with
    | c :: l' =>
        if Ascii.eqb c "-"%char then (true, l')
        else if Ascii.eqb c "+"%char then (false, l')
        else (false, l)
    | [] => (false, l)
    end in
  match unsigned body with
  | None => inr ErrSyntax
  | Some un =>
      let n := if neg then - un else un in
      if (minInt <=? n) && (n <=? maxInt) then inl n else inr ErrRange
  end.

Definition Atoi (s : string) : Z + NumError := atoi (unstr s).

End strconv.

(** ** Constants of the program *)

Definition _DIR_CONFIG : string := "github.com/kless/easycert/data".
Definition _DIR_ROOT : string := ".cert".
Definition _NAME_CA : string := "ca".
Definition _FILE_CONFIG : string := "openssl.cfg".
Definition _FILE_SERVER_GO : string := "z-cert_srv.go".
Definition _FILE_CLIENT_GO : string := "z-cert_cl.go".

Definition EXT_CERT : string := ".crt".
Definition EXT_KEY : string := ".key".
Definition EXT_REVOK : string := ".crl".
Definition EXT_REQUEST : string := ".csr".
Definition EXT_CERT_AND_KEY : string := ".pem".

(** DirPath represents the directory structure. *)
Module DirPath.
Record t := {
  Root : string;    (* Root directory with certificates. *)
  Cert : string;    (* Where the server certificates are placed. *)
  Key : string;     (* Where the private keys are placed. *)
  Revok : string;   (* Where the certificate revokation list is placed. *)
  NewCert : string  (* Where OpenSSL puts the created certificates. *)
}.
End DirPath.

(** FilePath represents the files structure. *)
Module FilePath.
Record t := {
  Cmd : string;     (* OpenSSL' path *)
  Config : string;  (* OpenSSL configuration file. *)
  Index : string;   (* Serves as a database for OpenSSL. *)
  Serial : string;  (* Contains the next certificate's serial number. *)
  Cert : string;    (* Certificate. *)
  Key : string;     (* Private key. *)
  Request : string  (* Certificate request. *)
}.

Definition set_Cert (v : string) (f : t) : t :=
  {| Cmd := Cmd f; Config := Config f; Index := Index f; Serial := Serial f;
     Cert := v; Key := Key f; Request := Request f |}.
Definition set_Key (v : string) (f : t) : t :=
  {| Cmd := Cmd f; Config := Config f; Index := Index f; Serial := Serial f;
     Cert := Cert f; Key := v; Request := Request f |}.
Definition set_Request (v : string) (f : t) : t :=
  {| Cmd := Cmd f; Config := Config f; Index := Index f; Serial := Serial f;
     Cert := Cert f; Key := Key f; Request := v |}.
End FilePath.

(** ** Flags *)

(** A Go [error] value, by its message. *)
Inductive error := Err (msg : string).

Definition errMinSize : error := Err "key size must be at least of 2048".
Definition errSize : error := Err "key size must be multiple of 1024".

Definition NumError_error (value : string) (e : strconv.NumError) : error :=
  Err ("strconv.Atoi: parsing " +:+ value +:+
       match e with
       | strconv.ErrSyntax => ": invalid syntax"
       | strconv.ErrRange => ": value out of range"
       end).

(** rsaSizeT represents the size in bits of RSA key to generate. *)
Definition rsaSizeT := Z.

(** [func (s *rsaSizeT) Set(value string) error]: the error returned and
    the value [*s] holds afterwards.  [i%1024] is Go's truncated
    remainder. *)
Definition rsaSizeT_Set (s : rsaSizeT) (value : string) : option error * rsaSizeT :=
  match strconv.Atoi value with
  | inr e => (Some (NumError_error value e), s)
  | inl i =>
      if i <? 2048 then (Some errMinSize, s)
      else if negb (Z.rem i 1024 =? 0) then (Some errSize, s)
      else (None, i)
  end.

Record Flags := {
  IsNew : bool;
  IsCA : bool;
  RSASize : rsaSizeT;
  Years : Z;
  IsRequest : bool;
  IsSignReq : bool;
  Host : string;
  IsGoLang : bool;
  CACert : string;
  ServerCert : string;
  IsCheck : bool;
  IsCert : bool;
  IsKey : bool;
  IsCat : bool;
  IsInfo : bool;
  IsEndDate : bool;
  IsHash : bool;
  IsFullInfo : bool;
  IsIssuer : bool;
  IsName : bool;
  IsCertList : bool;
  IsReqList : bool
}.

(** The values the flags are declared with. *)
Definition default_flags : Flags := {|
  IsNew := false; IsCA := false;
  RSASize := 2048; Years := 1;
  IsRequest := false; IsSignReq := false; Host := "";
  IsGoLang := false; CACert := _NAME_CA; ServerCert := "";
  IsCheck := false; IsCert := false; IsKey := false;
  IsCat := false; IsInfo := false; IsEndDate := false; IsHash := false;
  IsFullInfo := false; IsIssuer := false; IsName := false;
  IsCertList := false; IsReqList := false
|}.

Definition set_RSASize (v : rsaSizeT) (f : Flags) : Flags :=
  {| IsNew := IsNew f; IsCA := IsCA f; RSASize := v; Years := Years f;
     IsRequest := IsRequest f; IsSignReq := IsSignReq f; Host := Host f;
     IsGoLang := IsGoLang f; CACert := CACert f; ServerCert := ServerCert f;
     IsCheck := IsCheck f; IsCert := IsCert f; IsKey := IsKey f;
     IsCat := IsCat f; IsInfo := IsInfo f; IsEndDate := IsEndDate f;
     IsHash := IsHash f; IsFullInfo := IsFullInfo f; IsIssuer := IsIssuer f;
     IsName := IsName f; IsCertList := IsCertList f; IsReqList := IsReqList f |}.

Definition set_Years (v : Z) (f : Flags) : Flags :=
  {| IsNew := IsNew f; IsCA := IsCA f; RSASize := RSASize f; Years := v;
     IsRequest := IsRequest f; IsSignReq := IsSignReq f; Host := Host f;
     IsGoLang := IsGoLang f; CACert := CACert f; ServerCert := ServerCert f;
     IsCheck := IsCheck f; IsCert := IsCert f; IsKey := IsKey f;
     IsCat := IsCat f; IsInfo := IsInfo f; IsEndDate := IsEndDate f;
     IsHash := IsHash f; IsFullInfo := IsFullInfo f; IsIssuer := IsIssuer f;
     IsName := IsName f; IsCertList := IsCertList f; IsReqList := IsReqList f |}.

Definition set_Host (v : string) (f : Flags) : Flags :=
  {| IsNew := IsNew f; IsCA := IsCA f; RSASize := RSASize f; Years := Years f;
     IsRequest := IsRequest f; IsSignReq := IsSignReq f; Host := v;
     IsGoLang := IsGoLang f; CACert := CACert f; ServerCert := ServerCert f;
     IsCheck := IsCheck f; IsCert := IsCert f; IsKey := IsKey f;
     IsCat := IsCat f; IsInfo := IsInfo f; IsEndDate := IsEndDate f;
     IsHash := IsHash f; IsFullInfo := IsFullInfo f; IsIssuer := IsIssuer f;
     IsName := IsName f; IsCertList := IsCertList f; IsReqList := IsReqList f |}.

Definition set_CACert (v : string) (f : Flags) : Flags :=
  {| IsNew := IsNew f; IsCA := IsCA f; RSASize := RSASize f; Years := Years f;
     IsRequest := IsRequest f; IsSignReq := IsSignReq f; Host := Host f;
     IsGoLang := IsGoLang f; CACert := v; ServerCert := ServerCert f;
     IsCheck := IsCheck f; IsCert := IsCert f; IsKey := IsKey f;
     IsCat := IsCat f; IsInfo := IsInfo f; IsEndDate := IsEndDate f;
     IsHash := IsHash f; IsFullInfo := IsFullInfo f; IsIssuer := IsIssuer f;
     IsName := IsName f; IsCertList := IsCertList f; IsReqList := IsReqList f |}.

Definition set_ServerCert (v : string) (f : Flags) : Flags :=
  {| IsNew := IsNew f; IsCA := IsCA f; RSASize := RSASize f; Years := Years f;
     IsRequest := IsRequest f; IsSignReq := IsSignReq f; Host := Host f;
     IsGoLang := IsGoLang f; CACert := CACert f; ServerCert := v;
     IsCheck := IsCheck f; IsCert := IsCert f; IsKey := IsKey f;
     IsCat := IsCat f; IsInfo := IsInfo f; IsEndDate := IsEndDate f;
     IsHash := IsHash f; IsFullInfo := IsFullInfo f; IsIssuer := IsIssuer f;
     IsName := IsName f; IsCertList := IsCertList f; IsReqList := IsReqList f |}.

(** The boolean flags, by their command-line names. *)
Inductive BoolFlag :=
| f_new | f_ca | f_req | f_sign | f_lang_go | f_chk | f_cert | f_key
| f_cat | f_i | f_end_date | f_hash | f_full | f_issuer | f_name
| f_lc | f_lr.

Definition set_bool (b : BoolFlag) (v : bool) (f : Flags) : Flags :=
  {| IsNew := if b is f_new then v else IsNew f;
     IsCA := if b is f_ca then v else IsCA f;
     RSASize := RSASize f; Years := Years f;
     IsRequest := if b is f_req then v else IsRequest f;
     IsSignReq := if b is f_sign then v else IsSignReq f;
     Host := Host f;
     IsGoLang := if b is f_lang_go then v else IsGoLang f;
     CACert := CACert f; ServerCert := ServerCert f;
     IsCheck := if b is f_chk then v else IsCheck f;
     IsCert := if b is f_cert then v else IsCert f;
     IsKey := if b is f_key then v else IsKey f;
     IsCat := if b is f_cat then v else IsCat f;
     IsInfo := if b is f_i then v else IsInfo f;
     IsEndDate := if b is f_end_date then v else IsEndDate f;
     IsHash := if b is f_hash then v else IsHash f;
     IsFullInfo := if b is f_full then v else IsFullInfo f;
     IsIssuer := if b is f_issuer then v else IsIssuer f;
     IsName := if b is f_name then v else IsName f;
     IsCertList := if b is f_lc then v else IsCertList f;
     IsReqList := if b is f_lr then v else IsReqList f |}.

Definition bool_flag_name (b : BoolFlag) : string :=
  match b with
  | f_new => "new" | f_ca => "ca" | f_req => "req" | f_sign => "sign"
  | f_lang_go => "lang-go" | f_chk => "chk" | f_cert => "cert"
  | f_key => "key" | f_cat => "cat" | f_i => "i"
  | f_end_date => "end-date" | f_hash => "hash" | f_full => "full"
  | f_issuer => "issuer" | f_name => "name" | f_lc => "lc" | f_lr => "lr"
  end.

(** One flag of the command line after the [flag] package has split it
    into a name and a value of the flag's type.  The value of [-rsa-size]
    stays a string: it goes through the program's own [Set]. *)
Inductive FlagArg :=
| SetBool (b : BoolFlag) (v : bool)
| SetYears (v : Z)
| SetRSASize (value : string)
| SetHost (v : string)
| SetCACert (v : string)
| SetServerCert (v : string).

Definition flag_name (a : FlagArg) : string :=
  match a with
  | SetBool b _ => bool_flag_name b
  | SetYears _ => "years"
  | SetRSASize _ => "rsa-size"
  | SetHost _ => "host"
  | SetCACert _ => "ca-cert"
  | SetServerCert _ => "server-cert"
  end.

(** [flag.Parse] over the flags given, left to right; a [Set] that returns
    an error stops the parse. *)
Fixpoint flag_Parse (cmd : list FlagArg) (f : Flags) : Flags + error :=
  match cmd with
  | [] => inl f
  | a :: cmd' =>
      match a with
      | SetBool b v => flag_Parse cmd' (set_bool b v f)
      | SetYears v => flag_Parse cmd' (set_Years v f)
      | SetRSASize value =>
          match rsaSizeT_Set (RSASize f) value with
          | (Some e, _) => inr e
          | (None, s) => flag_Parse cmd' (set_RSASize s f)
          end
      | SetHost v => flag_Parse cmd' (set_Host v f)
      | SetCACert v => flag_Parse cmd' (set_CACert v f)
      | SetServerCert v => flag_Parse cmd' (set_ServerCert v f)
      end
  end.

(** [flag.NFlag]: the number of flags that have been set. *)
Definition flag_NFlag (cmd : list FlagArg) : nat :=
  length (remove_dups (map flag_name cmd)).

(** ** The world the program runs in *)

(** A file-system entry: a directory, or a regular file with its bytes;
    [perm] holds the nine permission bits. *)
Inductive Node :=
| NDir (perm : Z)
| NFile (perm : Z) (content : string).

(** Why a system call failed.  [EIO] stands for every cause the file
    system below does not track (permissions, devices, quotas). *)
Inductive Errno := EEXIST | ENOENT | EISDIR | ENOTDIR | EINVAL | EIO.

Definition os_IsNotExist (e : option Errno) : bool :=
  match e with
  | Some ENOENT => true
  | _ => false
  end.

(** Permission bits, written in octal as in the source. *)
Definition octal (a b c : Z) : Z := a * 64 + b * 8 + c.

(** The global variables [Dir], [File] and the flags. *)
Record Globals := {
  Dir : DirPath.t;
  File : FilePath.t;
  Fl : Flags
}.

(** Functions of this package that [easycert.go] calls and another file
    of the package defines (they run OpenSSL). *)
Inductive ExtFunc :=
| CheckCert (file : string)
| CheckKey (file : string)
| InfoCert (file : string)
| InfoKey (file : string)
| InfoFull (file : string)
| InfoEndDate (file : string)
| HashInfo (file : string)
| InfoIssuer (file : string)
| InfoName (file : string)
| NewRequest
| SignReq
| BuildCA.

(** The functions [main] calls. *)
Inductive Func :=
| Ext (f : ExtFunc)
| printCert_f (cert : list string)
| Cert2Lang_f
| SetupDir_f.

(** The steps a run takes against its environment. *)
Inductive SysOp :=
| LookPath (file : string)
| CurrentUser
| Stat (path : string)
| Glob (pattern : string)
| Mkdir (path : string) (perm : Z)
| Chmod (path : string) (perm : Z)
| Create (path : string)
| Write (path : string) (data : string)
| Close (path : string)
| ReadFile (path : string)
| Hostname
| Import (pkg : string)
| ParseTemplate (path : string)
| ExecTemplate (path : string)
| Command (cmd : string) (arg : string).

Inductive Caller := in_main | in_Cert2Lang.

(** The trace of a run: each step with the error it returned, if any, and
    each call of a function of the package with the caller and the global
    variables at the call. *)
Inductive Event :=
| ESys (op : SysOp) (err : option Errno)
| ECall (from : Caller) (f : Func) (g : Globals).

(** The data a generated Go file is rendered from. *)
Record GoData := {
  gd_System : string;
  gd_Arch : string;
  gd_Version : string;
  gd_Date : string;
  gd_ValidUntil : string;
  gd_CACert : string;
  gd_Cert : string;
  gd_Key : string
}.

(** What the program takes from outside and never changes.  The functions
    of the package that are defined in another file, the templates and the
    library's pattern matcher are parameters of the model. *)
Record Env := {
  env_openssl : option string;       (* exec.LookPath("openssl") *)
  env_home : option string;          (* user.Current().HomeDir *)
  env_umask : Z;
  env_hostname : option string;      (* os.Hostname() *)
  env_import : option string;        (* build.Import(_DIR_CONFIG, ...).Dir *)
  env_match : string -> string -> option bool;  (* filepath.Match; None is ErrBadPattern *)
  (* text/template: parsing the configuration template, then executing it
     on RootDir, HostName and AltNames: the text written and whether the
     execution came to its end *)
  env_template : string -> option (string -> string -> string -> string * bool);
  env_version : option string;       (* output of "openssl version" *)
  env_GOOS : string;
  env_GOARCH : string;
  env_now : string;                  (* time.Now().Format(time.RFC822) *)
  env_GoBlock : string -> string;    (* GoBlock(b).String() *)
  env_TMPL_GO : bool -> GoData -> string * bool;  (* TMPL_SERVER_GO (true), TMPL_CLIENT_GO *)
  (* a call of a function defined elsewhere: what it returns (left), or the
     message of the log.Fatal it ends in (right), and the file system it
     leaves *)
  env_ext : ExtFunc -> Globals -> gmap string Node -> (string + string) * gmap string Node
}.

(** The state of a run. *)
Record St := {
  G : Globals;
  fs : gmap string Node;
  faults : list bool;     (* for each coming system call: does it fail from outside? *)
  stdout : list string;
  stderr : list string
}.

Definition set_G (f : Globals -> Globals) (s : St) : St :=
  {| G := f (G s); fs := fs s; faults := faults s; stdout := stdout s;
     stderr := stderr s |}.
Definition set_fs (f : gmap string Node -> gmap string Node) (s : St) : St :=
  {| G := G s; fs := f (fs s); faults := faults s; stdout := stdout s;
     stderr := stderr s |}.
Definition set_faults (v : list bool) (s : St) : St :=
  {| G := G s; fs := fs s; faults := v; stdout := stdout s;
     stderr := stderr s |}.
Definition add_stdout (v : string) (s : St) : St :=
  {| G := G s; fs := fs s; faults := faults s; stdout := stdout s ++ [v];
     stderr := stderr s |}.
Definition add_stderr (v : string) (s : St) : St :=
  {| G := G s; fs := fs s; faults := faults s; stdout := stdout s;
     stderr := stderr s ++ [v] |}.

(** ** The monad of a run: state, a trace, and the ways a process ends early *)

Inductive Outcome :=
| Exit (code : Z)         (* os.Exit *)
| Fatal (msg : string)    (* log.Fatal: the message on standard error, exit status 1 *)
| Panic (msg : string).   (* a run-time panic *)

Inductive Res (A : Type) :=
| Val (a : A)
| Stop (o : Outcome).
Arguments Val {A} a.
Arguments Stop {A} o.

(** What running a piece of the program gives: its value, or how the
    process ended in it; the state it leaves; the events it added to the
    trace. *)
Record Run (A : Type) := mkRun {
  result : Res A;
  final : St;
  events : list Event
}.
Arguments mkRun {A} result final events.
Arguments result {A} r.
Arguments final {A} r.
Arguments events {A} r.

Definition M (A : Type) : Type := St -> Run A.

Definition ret {A} (a : A) : M A := fun s => mkRun (Val a) s [].

Definition bind {A B} (m : M A) (k : A -> M B) : M B :=
  fun s =>
    let r := m s in
    match result r with
    | Val a =>
        let r' := k a (final r) in
        mkRun (result r') (final r') (events r ++ events r')
    | Stop o => mkRun (Stop o) (final r) (events r)
    end.

Declare Scope run_scope.
Delimit Scope run_scope with run.
Notation "x <- m ;; k" := (bind m (fun x => k))
  (at level 100, m at next level, right associativity) : run_scope.
Notation "m ;; k" := (bind m (fun _ => k))
  (at level 100, right associativity) : run_scope.
Local Open Scope run_scope.

Definition get : M St := fun s => mkRun (Val s) s [].
Definition modify (f : St -> St) : M unit := fun s => mkRun (Val tt) (f s) [].
Definition stop {A} (o : Outcome) : M A := fun s => mkRun (Stop o) s [].
Definition emit (e : Event) : M unit := fun s => mkRun (Val tt) s [e].

Definition when (b : bool) (m : M unit) : M unit := if b then m else ret tt.

(** ** Output, the log and the ways out *)

Definition nl : string := String (ascii_of_nat 10) "".
Definition tab : string := String (ascii_of_nat 9) "".
Definition dquote : string := String (ascii_of_nat 34) "".

(** The verb [%q] of [fmt], for a string that needs no escapes. *)
Definition fmt_q (v : string) : string := dquote +:+ v +:+ dquote.

Definition fmt_Print (v : string) : M unit := modify (add_stdout v).
Definition fmt_Fprint_Stderr (v : string) : M unit := modify (add_stderr v).

Definition os_Exit {A} (code : Z) : M A := stop (Exit code).

(** [log.SetFlags(0); log.SetPrefix("FAIL! ")]. *)
Definition log_Print (msg : string) : M unit :=
  modify (add_stderr ("FAIL! " +:+ msg +:+ nl)).
Definition log_Fatal {A} (msg : string) : M A :=
  log_Print msg ;; stop (Fatal msg).

Definition panic_index {A} : M A :=
  stop (Panic "runtime error: index out of range").

Definition errno_msg (e : Errno) : string :=
  match e with
  | EEXIST => "file exists"
  | ENOENT => "no such file or directory"
  | EISDIR => "is a directory"
  | ENOTDIR => "not a directory"
  | EINVAL => "invalid argument"
  | EIO => "input/output error"
  end.

(** The message of an [*os.PathError]. *)
Definition PathError (op path : string) (e : Errno) : string :=
  op +:+ " " +:+ path +:+ ": " +:+ errno_msg e.

(** ** System calls on the modelled file system *)

Definition err_of {A} (r : A + Errno) : option Errno :=
  match r with
  | inl _ => None
  | inr e => Some e
  end.

(** A call that goes to the file system: it fails with [EIO] when the next
    fault bit says so, else it does [f]; either way it uses up the bit and
    leaves one event. *)
Definition syscall {A} (op : SysOp)
    (f : gmap string Node -> (A + Errno) * gmap string Node) : M (A + Errno) :=
  fun s =>
    let s1 := set_faults (tl (faults s)) s in
    if hd false (faults s) then
      mkRun (Val (inr EIO)) s1 [ESys op (Some EIO)]
    else
      let r := f (fs s) in
      mkRun (Val (fst r)) (set_fs (fun _ => snd r) s1) [ESys op (err_of (fst r))].

(** A call that only reads the file system; on a fault it answers [dflt]
    ([inr EIO], or what a call that ignores I/O errors makes of them). *)
Definition syscall_read {A} (op : SysOp)
    (f : gmap string Node -> A + Errno) (dflt : A + Errno) : M (A + Errno) :=
  fun s =>
    let r := if hd false (faults s) then dflt else f (fs s) in
    mkRun (Val r) (set_faults (tl (faults s)) s) [ESys op (err_of r)].

(** A question to the environment, answered by [v]. *)
Definition envcall {A} (op : SysOp) (v : option A) : M (A + Errno) :=
  fun s =>
    match v with
    | Some a => mkRun (Val (inl a)) s [ESys op None]
    | None => mkRun (Val (inr EIO)) s [ESys op (Some EIO)]
    end.

Definition os_Stat (path : string) : M (Node + Errno) :=
  syscall_read (Stat path) (fun m =>
    match m !! path with
    | Some n => inl n
    | None => inr ENOENT
    end) (inr EIO).

Definition os_Mkdir (umask : Z) (path : string) (perm : Z) : M (unit + Errno) :=
  syscall (Mkdir path perm) (fun m =>
    match m !! path with
    | Some _ => (inr EEXIST, m)
    | None => (inl tt, <[path := NDir (Z.ldiff perm umask)]> m)
    end).

Definition os_Chmod (path : string) (perm : Z) : M (unit + Errno) :=
  syscall (Chmod path perm) (fun m =>
    match m !! path with
    | Some (NDir _) => (inl tt, <[path := NDir perm]> m)
    | Some (NFile _ c) => (inl tt, <[path := NFile perm c]> m)
    | None => (inr ENOENT, m)
    end).

(** [os.Create], and [os.OpenFile] with [O_CREATE|O_TRUNC|O_WRONLY]: a new
    file gets mode 0666 before umask, an existing one is truncated.  The
    open file is named by its path. *)
Definition os_Create (umask : Z) (path : string) : M (string + Errno) :=
  syscall (Create path) (fun m =>
    match m !! path with
    | Some (NDir _) => (inr EISDIR, m)
    | Some (NFile p _) => (inl path, <[path := NFile p ""]> m)
    | None => (inl path, <[path := NFile (Z.ldiff (octal 6 6 6) umask) ""]> m)
    end).

Definition file_Write (file : string) (data : string) : M (unit + Errno) :=
  syscall (Write file data) (fun m =>
    match m !! file with
    | Some (NFile p c) => (inl tt, <[file := NFile p (c +:+ data)]> m)
    | _ => (inr EIO, m)
    end).

Definition file_Close (file : string) : M (unit + Errno) :=
  syscall_read (Close file) (fun m => inl tt) (inr EIO).

Definition ioutil_ReadFile (path : string) : M (string + Errno) :=
  syscall_read (ReadFile path) (fun m =>
    match m !! path with
    | Some (NFile _ c) => inl c
    | Some (NDir _) => inr EISDIR
    | None => inr ENOENT
    end) (inr EIO).

(** ** filepath.Glob on the modelled file system *)

Definition hasMeta (path : string) : bool :=
  existsb (fun c => existsb (Ascii.eqb c) ["*"; "?"; "["; "\"]%char) (unstr path).

(** [filepath.Split]: the directory, with its final slash, and the file. *)
Definition Split (path : string) : string * string :=
  let '(file, dir) := filepath.span_elem (rev (unstr path)) in
  (str (rev dir), str (rev file)).

Definition cleanGlobPath (path : string) : string :=
  if String.eqb path "" then "."
  else if String.eqb path "/" then "/"
  else str (removelast (unstr path)).

Fixpoint strip_prefix (p l : bytes) : option bytes :=
  match p, l with
  | [], _ => Some l
  | a :: p', b :: l' => if Ascii.eqb a b then strip_prefix p' l' else None
  | _ :: _, [] => None
  end.

(** The name under which [path] is an entry of directory [dir]. *)
Definition entry_name (dir path : string) : option string :=
  let prefix := if String.eqb dir "/" then unstr dir
                else unstr dir ++ [filepath.Separator] in
  match strip_prefix prefix (unstr path) with
  | Some n => if filepath.valid_name n then Some (str n) else None
  | None => None
  end.

(** [Readdirnames(-1)] followed by [sort.Strings]. *)
Definition Readdirnames (dir : string) (m : gmap string Node) : list string :=
  merge_sort String.le (omap (fun kv => entry_name dir (fst kv)) (map_to_list m)).

Section Program.

Variable E : Env.

(** [glob]: the entries of [dir] that match [pattern], each joined to
    [dir], added to [matches]; a path that is no directory gives
    nothing, a malformed pattern an error. *)
Fixpoint glob_names (dir pattern : string) (names matches : list string)
    : list string * bool :=
  match names with
  | [] => (matches, true)
  | n :: names' =>
      match env_match E pattern n with
      | None => (matches, false)
      | Some matched =>
          glob_names dir pattern names'
            (if matched then matches ++ [filepath.Join [dir; n]] else matches)
      end
  end.

Definition glob (m : gmap string Node) (dir pattern : string)
    (matches : list string) : list string * bool :=
  match m !! dir with
  | Some (NDir _) => glob_names dir pattern (Readdirnames dir m) matches
  | _ => (matches, true)
  end.

Fixpoint glob_dirs (m : gmap string Node) (file : string)
    (dirs matches : list string) : list string * bool :=
  match dirs with
  | [] => (matches, true)
  | d :: dirs' =>
      match glob m d file matches with
      | (matches', true) => glob_dirs m file dirs' matches'
      | r => r
      end
  end.

(** [filepath.Glob]; the second component is false for [ErrBadPattern].
    A pattern whose directory part has metacharacters is expanded by a
    recursive call on that part, which is shorter. *)
Fixpoint Glob_rec (fuel : nat) (m : gmap string Node) (pattern : string)
    : list string * bool :=
  match fuel with
  | O => ([], false)
  | S fuel' =>
      match env_match E pattern "" with
      | None => ([], false)
      | Some _ =>
          if negb (hasMeta pattern) then
            match m !! pattern with
            | Some _ => ([pattern], true)
            | None => ([], true)
            end
          else
            let '(dir0, file) := Split pattern in
            let dir := cleanGlobPath dir0 in
            if negb (hasMeta dir) then glob m dir file []
            else if String.eqb dir pattern then ([], false)
            else
              match Glob_rec fuel' m dir with
              | (ds, true) => glob_dirs m file ds []
              | (_, false) => ([], false)
              end
      end
  end.

(** The call of [filepath.Glob] as a step of the run.  Glob ignores I/O
    errors: a fault leaves it without matches. *)
Definition filepath_Glob (pattern : string) : M (list string + Errno) :=
  syscall_read (Glob pattern) (fun m =>
    match Glob_rec (S (String.length pattern)) m pattern with
    | (matches, true) => inl matches
    | (_, false) => inr EINVAL
    end) (inl []).

(** [template.ParseFiles]: read the file and parse it. *)
Definition template_ParseFiles (path : string)
    : M ((string -> string -> string -> string * bool) + Errno) :=
  syscall_read (ParseTemplate path) (fun m =>
    match m !! path with
    | Some (NFile _ c) =>
        match env_template E c with
        | Some t => inl t
        | None => inr EINVAL
        end
    | Some (NDir _) => inr EISDIR
    | None => inr ENOENT
    end) (inr EIO).

(** [tmpl.Execute(file, data)], given what the template renders to. *)
Definition tmpl_Execute (file : string) (out : string * bool) : M (unit + Errno) :=
  syscall (ExecTemplate file) (fun m =>
    match m !! file with
    | Some (NFile p c) =>
        (if snd out then inl tt else inr EINVAL,
         <[file := NFile p (c +:+ fst out)]> m)
    | _ => (inr EIO, m)
    end).

(** A call of a function of the package defined in another file. *)
Definition call_ext (from : Caller) (f : ExtFunc) : M string :=
  s <- get ;;
  emit (ECall from (Ext f) (G s)) ;;
  match env_ext E f (G s) (fs s) with
  | (inl out, m) => modify (set_fs (fun _ => m)) ;; ret out
  | (inr msg, m) => modify (set_fs (fun _ => m)) ;; log_Fatal msg
  end.

(** A call of a function of this file from [main]. *)
Definition call_main {A} (f : Func) (body : M A) : M A :=
  s <- get ;; emit (ECall in_main f (G s)) ;; body.

(** Set the directory structure. *)
Definition init : M unit :=
  r <- envcall (LookPath "openssl") (env_openssl E) ;;
  cmdPath <- match r with
             | inr _ => log_Fatal "OpenSSL is not installed"
             | inl v => ret v
             end ;;
  u <- envcall CurrentUser (env_home E) ;;
  home <- match u with
          | inr e => log_Fatal ("user: " +:+ errno_msg e)
          | inl v => ret v
          end ;;
  let root := filepath.Join [home; _DIR_ROOT] in
  modify (set_G (fun g =>
    {| Dir := {| DirPath.Root := root;
                 DirPath.Cert := filepath.Join [root; "certs"];
                 DirPath.NewCert := filepath.Join [root; "newcerts"];
                 DirPath.Key := filepath.Join [root; "private"];
                 DirPath.Revok := filepath.Join [root; "crl"] |};
       File := {| FilePath.Cmd := cmdPath;
                  FilePath.Config := filepath.Join [root; _FILE_CONFIG];
                  FilePath.Index := filepath.Join [root; "index.txt"];
                  FilePath.Serial := filepath.Join [root; "serial"];
                  FilePath.Cert := ""; FilePath.Key := ""; FilePath.Request := "" |};
       Fl := Fl g |})).

(** printCert prints the name of the certificates. *)
Fixpoint printCert_loop (i : nat) (cert : list string) : M unit :=
  match cert with
  | [] => ret tt
  | v :: cert' =>
      when (negb (i =? 0)%nat) (fmt_Print tab) ;;
      fmt_Print (filepath.Base v) ;;
      printCert_loop (S i) cert'
  end.

Definition printCert (cert : list string) : M unit :=
  match cert with
  | [] => ret tt
  | _ => printCert_loop 0 cert ;; fmt_Print nl
  end.

(** [if err != nil { log.Fatal(err) }] after a step. *)
Definition fatal_on_error {A} (op path : string) (r : A + Errno) : M A :=
  match r with
  | inr e => log_Fatal (PathError op path e)
  | inl a => ret a
  end.

Fixpoint mkdir_all (dirs : list string) : M unit :=
  match dirs with
  | [] => ret tt
  | v :: dirs' =>
      r <- os_Mkdir (env_umask E) v (octal 7 5 5) ;;
      fatal_on_error "mkdir" v r ;;
      mkdir_all dirs'
  end.

(** SetupDir creates the directory structure. *)
Definition SetupDir : M unit :=
  s <- get ;;
  let D := Dir (G s) in
  let F := File (G s) in
  mkdir_all [DirPath.Root D; DirPath.Cert D; DirPath.NewCert D;
             DirPath.Key D; DirPath.Revok D] ;;
  r <- os_Chmod (DirPath.Key D) (octal 7 1 0) ;;
  fatal_on_error "chmod" (DirPath.Key D) r ;;

  r <- os_Create (env_umask E) (FilePath.Index F) ;;
  file <- fatal_on_error "open" (FilePath.Index F) r ;;
  file_Close file ;;

  r <- os_Create (env_umask E) (FilePath.Serial F) ;;
  file <- fatal_on_error "open" (FilePath.Serial F) r ;;
  w <- file_Write file ("01" +:+ nl) ;;
  file_Close file ;;
  fatal_on_error "write" file w ;;

  (* Configuration template *)
  h <- envcall Hostname (env_hostname E) ;;
  host <- match h with
          | inr e => log_Fatal ("Could not get hostname: " +:+ errno_msg e +:+ nl +:+ nl +:+
                       "You may want to fix your '/etc/hosts' and/or DNS setup")
          | inl v => ret v
          end ;;
  i <- envcall (Import _DIR_CONFIG) (env_import E) ;;
  pkgDir <- match i with
            | inr e => log_Fatal ("Data directory not found" +:+ nl +:+ errno_msg e)
            | inl v => ret v
            end ;;
  let configTemplate := filepath.Join [pkgDir; _FILE_CONFIG +:+ ".tmpl"] in
  st <- os_Stat configTemplate ;;
  when (os_IsNotExist (err_of st))
    (log_Fatal ("Configuration template not found: " +:+ fmt_q configTemplate)) ;;
  t <- template_ParseFiles configTemplate ;;
  tmpl <- match t with
          | inr e => log_Fatal ("Parsing error in configuration: " +:+
                                PathError "open" configTemplate e)
          | inl v => ret v
          end ;;
  c <- os_Create (env_umask E) (FilePath.Config F) ;;
  tmpConfigFile <- fatal_on_error "open" (FilePath.Config F) c ;;
  x <- tmpl_Execute tmpConfigFile (tmpl (DirPath.Root D) host "IP.1 = 127.0.0.1") ;;
  file_Close tmpConfigFile ;;
  fatal_on_error "template" tmpConfigFile x ;;

  r <- os_Chmod (FilePath.Config F) (octal 6 0 0) ;;
  match r with
  | inr e => log_Print (PathError "chmod" (FilePath.Config F) e)
  | inl _ => ret tt
  end ;;
  fmt_Print ("* Directory structure created in " +:+ fmt_q (DirPath.Root D) +:+ nl).

(** [strings.TrimRight(s, "\n")]. *)
Definition TrimRight_nl (v : string) : string :=
  let fix drop (l : bytes) : bytes :=
    match l with
    | c :: l' => if Ascii.eqb c (ascii_of_nat 10) then drop l' else l
    | [] => []
    end in
  str (rev (drop (rev (unstr v)))).

Definition emit_go (name : string) (server : bool) (data : GoData) : M unit :=
  x <- tmpl_Execute name (env_TMPL_GO E server data) ;;
  file_Close name ;;
  fatal_on_error "template" name x.

(** Cert2Lang creates files in language Go to handle the certificate. *)
Definition Cert2Lang : M unit :=
  s <- get ;;
  let F := File (G s) in
  r <- ioutil_ReadFile (CACert (Fl (G s))) ;;
  CACertBlock <- fatal_on_error "open" (CACert (Fl (G s))) r ;;
  r <- ioutil_ReadFile (FilePath.Cert F) ;;
  CertBlock <- fatal_on_error "open" (FilePath.Cert F) r ;;
  r <- ioutil_ReadFile (FilePath.Key F) ;;
  KeyBlock <- fatal_on_error "open" (FilePath.Key F) r ;;
  v <- envcall (Command (FilePath.Cmd F) "version") (env_version E) ;;
  version <- fatal_on_error "exec" (FilePath.Cmd F) v ;;

  (* Server *)
  r <- os_Create (env_umask E) _FILE_SERVER_GO ;;
  file <- fatal_on_error "open" _FILE_SERVER_GO r ;;
  endDate <- call_ext in_Cert2Lang (InfoEndDate (FilePath.Cert F)) ;;
  let data := {|
    gd_System := env_GOOS E;
    gd_Arch := env_GOARCH E;
    gd_Version := TrimRight_nl version;
    gd_Date := env_now E;
    gd_ValidUntil := TrimRight_nl endDate;
    gd_CACert := env_GoBlock E CACertBlock;
    gd_Cert := env_GoBlock E CertBlock;
    gd_Key := env_GoBlock E KeyBlock |} in
  emit_go file true data ;;

  (* Client *)
  r <- os_Create (env_umask E) _FILE_CLIENT_GO ;;
  file <- fatal_on_error "open" _FILE_CLIENT_GO r ;;
  emit_go file false data.

(** *** main *)

Definition set_File (f : FilePath.t -> FilePath.t) (g : Globals) : Globals :=
  {| Dir := Dir g; File := f (File g); Fl := Fl g |}.
Definition set_Fl (f : Flags -> Flags) (g : Globals) : Globals :=
  {| Dir := Dir g; File := File g; Fl := f (Fl g) |}.

(** [flag.Args()[0]] and [s[0]]: a panic when there is no such index. *)
Definition index0 (args : list string) : M string :=
  match args with
  | a :: _ => ret a
  | [] => panic_index
  end.

Definition byte0 (v : string) : M ascii :=
  match v with
  | String c _ => ret c
  | EmptyString => panic_index
  end.

(** [v[0] != '.' && v[0] != os.PathSeparator]: a name, not a path. *)
Definition is_name (c : ascii) : bool :=
  negb (Ascii.eqb c ".") && negb (Ascii.eqb c filepath.Separator).

Definition glob_and_print (pattern : string) : M unit :=
  r <- filepath_Glob pattern ;;
  matches <- fatal_on_error "glob" pattern r ;;
  call_main (printCert_f matches) (printCert matches).

(** Lines 227-247: the lists, when there is no argument. *)
Definition main_list (f : Flags) (args : list string) : M bool :=
  if (length args =? 0)%nat then
    s <- get ;;
    isExit <- (if IsCertList f then
                 glob_and_print
                   (filepath.Join [DirPath.Cert (Dir (G s)); "*" +:+ EXT_CERT]) ;;
                 ret true
               else ret false) ;;
    when (IsReqList f)
      (glob_and_print
         (filepath.Join [DirPath.Root (Dir (G s)); "*" +:+ EXT_REQUEST]) ;;
       os_Exit 0) ;;
    when isExit (os_Exit 0) ;;
    ret isExit
  else ret false.

(** Lines 249-285: set absolute paths; the result is [filename]. *)
Definition main_paths (f : Flags) (args : list string) : M string :=
  s <- get ;;
  let D := Dir (G s) in
  if IsRequest f || IsSignReq f || IsCA f then
    filename <- (if IsCA f then ret _NAME_CA else index0 args) ;;
    modify (set_G (set_File (FilePath.set_Cert
      (filepath.Join [DirPath.Cert D; filename +:+ EXT_CERT])))) ;;
    modify (set_G (set_File (FilePath.set_Key
      (filepath.Join [DirPath.Key D; filename +:+ EXT_KEY])))) ;;
    modify (set_G (set_File (FilePath.set_Request
      (filepath.Join [DirPath.Root D; filename +:+ EXT_REQUEST])))) ;;
    ret filename
  else if IsGoLang f then
    when (String.eqb (CACert f) "" || String.eqb (ServerCert f) "")
      (log_Fatal "Missing required parameter in `-ca-cert` or `-server-cert` flag") ;;
    c <- byte0 (CACert f) ;;
    when (is_name c)
      (modify (set_G (set_Fl (set_CACert
         (filepath.Join [DirPath.Cert D; CACert f +:+ EXT_CERT]))))) ;;
    modify (set_G (set_File (FilePath.set_Cert
      (filepath.Join [DirPath.Cert D; ServerCert f +:+ EXT_CERT])))) ;;
    modify (set_G (set_File (FilePath.set_Key
      (filepath.Join [DirPath.Key D; ServerCert f +:+ EXT_KEY])))) ;;
    ret ""
  else if IsNew f then
    ret ""
  else
    filename <- index0 args ;;
    c <- byte0 filename ;;
    if is_name c then
      if IsCert f then
        ret (filepath.Join [DirPath.Cert D; filename +:+ EXT_CERT])
      else if IsKey f then
        ret (filepath.Join [DirPath.Key D; filename +:+ EXT_KEY])
      else ret filename
    else ret filename.

Definition print_ext (f : ExtFunc) : M unit :=
  out <- call_ext in_main f ;; fmt_Print out.

(** Lines 287-294. *)
Definition main_check (f : Flags) (filename : string) : M unit :=
  when (IsCheck f)
    ((if IsCert f then call_ext in_main (CheckCert filename) ;; ret tt
      else if IsKey f then call_ext in_main (CheckKey filename) ;; ret tt
      else ret tt) ;;
     os_Exit 0).

(** Lines 296-303. *)
Definition main_cat (f : Flags) (filename : string) : M unit :=
  when (IsCat f)
    ((if IsCert f then print_ext (InfoCert filename)
      else if IsKey f then print_ext (InfoKey filename)
      else ret tt) ;;
     os_Exit 0).

(** Lines 305-324. *)
Definition main_info (f : Flags) (filename : string) : M unit :=
  when (IsInfo f)
    (when (IsFullInfo f) (print_ext (InfoFull filename) ;; os_Exit 0) ;;
     when (IsEndDate f) (print_ext (InfoEndDate filename)) ;;
     when (IsHash f) (print_ext (HashInfo filename)) ;;
     when (IsIssuer f) (print_ext (InfoIssuer filename)) ;;
     when (IsName f) (print_ext (InfoName filename)) ;;
     os_Exit 0).

(** [if _, err := os.Stat(path); !os.IsNotExist(err) { log.Fatalf(msg, path) }] *)
Definition fatal_if_exists (msg path : string) : M unit :=
  st <- os_Stat path ;;
  when (negb (os_IsNotExist (err_of st))) (log_Fatal (msg +:+ fmt_q path)).

(** Lines 326-332; the result is [isExit]. *)
Definition main_request (f : Flags) (isExit : bool) : M bool :=
  if IsRequest f then
    s <- get ;;
    fatal_if_exists "Certificate request already exists: "
      (FilePath.Request (File (G s))) ;;
    call_ext in_main NewRequest ;;
    ret true
  else ret isExit.

(** Lines 333-345. *)
Definition main_sign (f : Flags) (isExit : bool) : M unit :=
  when (IsSignReq f)
    (s <- get ;;
     fatal_if_exists "Certificate already exists: " (FilePath.Cert (File (G s))) ;;
     when isExit (fmt_Print (nl +:+ "== Sign" +:+ nl +:+ nl)) ;;
     call_ext in_main SignReq ;;
     os_Exit 0) ;;
  when isExit (os_Exit 0).

(** Lines 347-355. *)
Definition main_golang (f : Flags) : M unit :=
  when (IsGoLang f)
    (fatal_if_exists "File already exists: " _FILE_SERVER_GO ;;
     fatal_if_exists "File already exists: " _FILE_CLIENT_GO ;;
     call_main Cert2Lang_f Cert2Lang ;;
     os_Exit 0).

(** Lines 357-362. *)
Definition main_new (f : Flags) : M unit :=
  when (IsNew f)
    (s <- get ;;
     fatal_if_exists "The directory structure exists: " (DirPath.Root (Dir (G s))) ;;
     call_main SetupDir_f SetupDir).

(** Lines 363-366. *)
Definition main_ca (f : Flags) : M unit :=
  when (IsCA f)
    (modify (set_G (set_Fl (set_Years 10))) ;;
     call_ext in_main BuildCA ;;
     ret tt).

(** [main] after [flag.Parse]: [nflag] is [flag.NFlag()], [f] the flags
    as parsed, [args] is [flag.Args()]. *)
Definition main_body (nflag : nat) (f : Flags) (args : list string) : M unit :=
  when (nflag =? 0)%nat
    (fmt_Fprint_Stderr ("Generate and handle certificates" +:+ nl) ;; os_Exit 2) ;;
  isExit <- main_list f args ;;
  filename <- main_paths f args ;;
  main_check f filename ;;
  main_cat f filename ;;
  main_info f filename ;;
  isExit <- main_request f isExit ;;
  main_sign f isExit ;;
  main_golang f ;;
  main_new f ;;
  main_ca f.

(** [main]: the command line is the flags given, [cmd], and the
    arguments after them.  A flag value that [Set] refuses ends the run
    with status 2, as [flag.ExitOnError] has it. *)
Definition main (cmd : list FlagArg) (args : list string) : M unit :=
  s <- get ;;
  match flag_Parse cmd (Fl (G s)) with
  | inr (Err msg) =>
      fmt_Fprint_Stderr ("invalid value for flag -rsa-size: " +:+ msg +:+ nl) ;;
      os_Exit 2
  | inl f =>
      modify (set_G (set_Fl (fun _ => f))) ;;
      main_body (flag_NFlag cmd) f args
  end.

(** The process: package initialisation, then [main]. *)
Definition easycert (cmd : list FlagArg) (args : list string) : M unit :=
  init ;; main cmd args.

End Program.

(** The state a process starts in: the flags at their defaults, [Dir] and
    [File] not yet set. *)
Definition start (m : gmap string Node) (flt : list bool) : St :=
  {| G := {| Dir := {| DirPath.Root := ""; DirPath.Cert := ""; DirPath.Key := "";
                       DirPath.Revok := ""; DirPath.NewCert := "" |};
             File := {| FilePath.Cmd := ""; FilePath.Config := "";
                        FilePath.Index := ""; FilePath.Serial := "";
                        FilePath.Cert := ""; FilePath.Key := "";
                        FilePath.Request := "" |};
             Fl := default_flags |};
     fs := m; faults := flt; stdout := []; stderr := [] |}.

(** ** A concrete environment, to run the program on *)

(** [filepath.Match] for the patterns of this program: a star followed by
    a literal suffix; any other pattern is compared as a literal. *)
Definition suffix_Match (pattern name : string) : option bool :=
  match pattern with
  | String "*" suf => Some (bool_decide (suffix (unstr suf) (unstr name)))
  | _ => Some (String.eqb pattern name)
  end.

Definition demo_env : Env := {|
  env_openssl := Some "/usr/bin/openssl";
  env_home := Some "/home/u";
  env_umask := octal 0 2 2;
  env_hostname := Some "host";
  env_import := Some "/go/src/github.com/kless/easycert/data";
  env_match := suffix_Match;
  env_template := fun c => Some (fun r h a => (c +:+ r +:+ h +:+ a, true));
  env_version := Some "OpenSSL 1.0";
  env_GOOS := "linux"; env_GOARCH := "amd64"; env_now := "now";
  env_GoBlock := fun b => b;
  env_TMPL_GO := fun srv d => (gd_Cert d, true);
  env_ext := fun f g m => (inl "", m)
|}.

(** A machine with the configuration template installed and nothing else. *)
Definition demo_fs : gmap string Node :=
  {[ "/go/src/github.com/kless/easycert/data/openssl.cfg.tmpl" := NFile (octal 6 4 4) "T:" ]}.

(** The same after a first [-new], with one certificate and one request. *)
Definition demo_fs_ca : gmap string Node :=
  <[ "/home/u/.cert" := NDir (octal 7 5 5) ]>
  (<[ "/home/u/.cert/certs" := NDir (octal 7 5 5) ]>
  (<[ "/home/u/.cert/certs/www.crt" := NFile (octal 6 4 4) "CERT" ]>
  (<[ "/home/u/.cert/www.csr" := NFile (octal 6 4 4) "CSR" ]>
  (<[ "z-cert_srv.go" := NFile (octal 6 4 4) "package main" ]> demo_fs)))).

(** The state [main] starts in on that machine: [init] has run. *)
Definition demo_state (m : gmap string Node) (flt : list bool) : St :=
  final (init demo_env (start m flt)).


Ltac case_if H :=
  match goal with
  | |- context [if ?b then _ else _] => destruct b eqn:H
  end.

(** ** Notions the properties of runs are stated with *)

Definition is_Val {A} (r : Res A) : Prop := exists a, r = Val a.
Definition is_Fatal {A} (r : Res A) : Prop := exists msg, r = Stop (Fatal msg).

(** [P] holds of what any run of [m] adds to the trace. *)
Definition emits {A} (P : list Event -> Prop) (m : M A) : Prop :=
  forall s, P (events (m s)).

(** [m] never hands over to what follows it: the process ends in it. *)
Definition never_returns {A} (m : M A) : Prop :=
  forall s, exists o, result (m s) = Stop o.

(** A property of traces that composes along a run. *)
Definition app_closed (P : list Event -> Prop) : Prop :=
  P [] /\ forall a b, P a -> P b -> P (a ++ b).

(** A property of traces that every step of a run keeps: it composes, it
    holds of each step against the environment, and of each call that is
    [ordinary] for it. *)
Record trace_prop (P : list Event -> Prop) (ordinary : Caller -> Func -> Prop)
    : Prop := {
  tp_closed : app_closed P;
  tp_sys : forall op err, P [ESys op err];
  tp_call : forall from f g, ordinary from f -> P [ECall from f g]
}.

(** Every value [m] hands over satisfies [R]. *)
Definition returns_only {A} (R : A -> Prop) (m : M A) : Prop :=
  forall s a, result (m s) = Val a -> R a.

(** The calls that only look at a certificate or a key. *)
Definition is_query (f : ExtFunc) : bool :=
  match f with
  | NewRequest | SignReq | BuildCA => false
  | _ => true
  end.


(** ** Modes of the command line *)

Inductive Mode :=
| MList | MCheck | MCat | MInfo | MRequest | MSign | MGoLang | MNew | MCA.

(** The mode a call made by [main] belongs to. *)
Definition mode_of (f : Func) : Mode :=
  match f with
  | printCert_f _ => MList
  | Ext (CheckCert _) | Ext (CheckKey _) => MCheck
  | Ext (InfoCert _) | Ext (InfoKey _) => MCat
  | Ext (InfoFull _) | Ext (InfoEndDate _) | Ext (HashInfo _)
  | Ext (InfoIssuer _) | Ext (InfoName _) => MInfo
  | Ext NewRequest => MRequest
  | Ext SignReq => MSign
  | Cert2Lang_f => MGoLang
  | SetupDir_f => MNew
  | Ext BuildCA => MCA
  end.

(** The modes a run performs, in order: one for each call [main] makes. *)
Definition modes_performed (ev : list Event) : list Mode :=
  omap (fun e => match e with
                 | ECall in_main f _ => Some (mode_of f)
                 | _ => None
                 end) ev.

(** The modes that one invocation may combine, by the usage text:
    [-new [-ca ...]] and [-req ... [-sign]]. *)
Inductive ModeGroup :=
| GList | GCheck | GCat | GInfo | GRequestSign | GGoLang | GSetup.

Definition group_of (m : Mode) : ModeGroup :=
  match m with
  | MList => GList
  | MCheck => GCheck
  | MCat => GCat
  | MInfo => GInfo
  | MRequest | MSign => GRequestSign
  | MGoLang => GGoLang
  | MNew | MCA => GSetup
  end.

Definition in_group (g : ModeGroup) (ev : list Event) : Prop :=
  Forall (fun m => group_of m = g) (modes_performed ev).

(** A part of [main] that stays in one group and, when the run goes on
    after it, has performed nothing. *)
Definition block {A} (g : ModeGroup) (m : M A) : Prop :=
  emits (in_group g) m
  /\ forall s, is_Val (result (m s)) -> modes_performed (events (m s)) = [].

(** A part of [main] all of whose runs stay in some group. *)
Definition one_group {A} (m : M A) : Prop :=
  forall s, exists g, in_group g (events (m s)).

Definition not_from_main (from : Caller) (fn : Func) : Prop := from <> in_main.

Definition in_group_call_ok (g : ModeGroup) (from : Caller) (fn : Func) : Prop :=
  from = in_main -> group_of (mode_of fn) = g.

(** ** Notions for single modes *)

(** The run is none of the lists and queries, which end before any other
    mode is looked at. *)
Definition past_queries (f : Flags) (args : list string) : Prop :=
  (args = [] -> IsCertList f = false /\ IsReqList f = false)
  /\ IsCheck f = false /\ IsCat f = false /\ IsInfo f = false.

(** The run gets to the last part of [main], the one of -new and -ca. *)
Definition is_setup_mode (f : Flags) (args : list string) : Prop :=
  past_queries f args
  /\ IsRequest f = false /\ IsSignReq f = false /\ IsGoLang f = false.

(** The state after lines 259-261 have set the paths for [name]. *)
Definition resolved (name : string) (s : St) : St :=
  let D := Dir (G s) in
  set_G (set_File (FilePath.set_Request
           (filepath.Join [DirPath.Root D; name +:+ EXT_REQUEST])))
    (set_G (set_File (FilePath.set_Key
              (filepath.Join [DirPath.Key D; name +:+ EXT_KEY])))
       (set_G (set_File (FilePath.set_Cert
                 (filepath.Join [DirPath.Cert D; name +:+ EXT_CERT]))) s)).

(** The state after a step against the file system that changes nothing
    but uses up a fault bit. *)
Definition stepped (s : St) : St := set_faults (tl (faults s)) s.

(** ** Notions for the CA *)



(** ** Notions for the guards of the files a run creates *)

(** What a call of [main] that creates files has to come right after: the
    [Stat] of each target, answered with "no such file". *)
Definition guard_of (f : Func) (g : Globals) : list Event :=
  match f with
  | Ext NewRequest => [ESys (Stat (FilePath.Request (File g))) (Some ENOENT)]
  | Ext SignReq => [ESys (Stat (FilePath.Cert (File g))) (Some ENOENT)]
  | Cert2Lang_f => [ESys (Stat _FILE_SERVER_GO) (Some ENOENT);
                    ESys (Stat _FILE_CLIENT_GO) (Some ENOENT)]
  | SetupDir_f => [ESys (Stat (DirPath.Root (Dir g))) (Some ENOENT)]
  | _ => []
  end.

(** In a trace, every call made by [main] comes right after its guard. *)
Definition guarded (ev : list Event) : Prop :=
  forall pre f g post,
    ev = pre ++ ECall in_main f g :: post ->
    exists pre', pre = pre' ++ guard_of f g.

Definition unguarded (from : Caller) (f : Func) : Prop :=
  from = in_main -> forall g, guard_of f g = [].

(** ** Notions for the state of the file system *)

(** When [m] hands over a value from a file system with [P], the value and
    the file system it leaves have [Q]. *)
Definition ensures {A} (P : gmap string Node -> Prop) (m : M A)
    (Q : A -> gmap string Node -> Prop) : Prop :=
  forall s a, P (fs s) -> result (m s) = Val a -> Q a (fs (final (m s))).

(** The paths of [L] are directories with the modes [L] gives them. *)
Definition dirs_are (L : list (string * Z)) (m : gmap string Node) : Prop :=
  forall d v, (d, v) ∈ L -> m !! d = Some (NDir v).

(** ... and no two of them are the same path. *)
Definition fresh_dirs (L : list (string * Z)) (m : gmap string Node) : Prop :=
  NoDup (L.*1) /\ dirs_are L m.

Definition is_file (path : string) (m : gmap string Node) : Prop :=
  exists p c, m !! path = Some (NFile p c).

(** ** Notions for failing steps *)

(** The steps whose error the program does not take for fatal: it ignores
    what [Close] returns, it only logs a failed chmod to 0600 (the one of
    the configuration file, line 442), and it reads the error of [Stat]
    by [os.IsNotExist] alone. *)
Definition tolerated (op : SysOp) : bool :=
  match op with
  | Close _ | Stat _ => true
  | Chmod _ perm => perm =? octal 6 0 0
  | _ => false
  end.

(** A step that failed and whose failure is not tolerated. *)
Definition failed_step (e : Event) : bool :=
  match e with
  | ESys op (Some _) => negb (tolerated op)
  | _ => false
  end.

Definition no_failure (ev : list Event) : Prop :=
  Forall (fun e => failed_step e = false) ev.

(** After a failed step: nothing, or the closing of the open file. *)
Definition only_close (post : list Event) : Prop :=
  post = [] \/ exists file err, post = [ESys (Close file) err].

(** A run is fail-fast: no step of it failed, or it ended in [log.Fatal]
    right after the first failed step. *)
Definition fail_fast {A} (r : Res A) (ev : list Event) : Prop :=
  no_failure ev
  \/ (is_Fatal r
      /\ exists pre e post,
           ev = pre ++ e :: post /\ no_failure pre /\ failed_step e = true
           /\ only_close post).

Definition FF {A} (m : M A) : Prop :=
  forall s, fail_fast (result (m s)) (events (m s)).

(** [step] is one step [op] against the environment. *)
Definition one_event {A} (op : SysOp) (step : M (A + Errno)) : Prop :=
  forall s, exists r s',
    step s = mkRun (Val r) s' [ESys op (err_of r)].

(** [h] is the check after a step: go on with the value, or [log.Fatal]. *)
Definition fatal_handler {A} (h : A + Errno -> M A) : Prop :=
  (forall a s, h (inl a) s = mkRun (Val a) s [])
  /\ (forall e s, is_Fatal (result (h (inr e) s)) /\ events (h (inr e) s) = []).


(** ** Notions for the lists and for what is printed *)

(** What [printCert] prints for the names [names]: the names with a tab
    between them and a newline after the last; nothing for no name. *)
Definition printed (names : list string) : list string :=
  match names with
  | [] => []
  | n :: rest => n :: flat_map (fun x => [tab; x]) rest ++ [nl]
  end.

(** A path that [glob] builds: a directory joined with the name of one of
    its entries. *)
Definition is_entry_path (p : string) : Prop :=
  exists d n, p = filepath.Join [d; n] /\ filepath.valid_name (unstr n) = true.

(** A string that can be printed as one name: not empty, and no separator
    in it. *)
Definition is_base_name (n : string) : Prop :=
  n <> "" /\ filepath.no_sep (unstr n).

(** A match of [glob] in the file system [m] for the last element [file]
    of a pattern: a directory joined with one of its entries whose name
    matches [file]. *)
Definition glob_match (E : Env) (m : gmap string Node) (file p : string) : Prop :=
  exists d n, p = filepath.Join [d; n] /\ n ∈ Readdirnames d m
              /\ env_match E file n = Some true.

(** A name that a list may show for the pattern [file]: one name, that of
    an entry of a directory of [m], and matching [file]. *)
Definition listed (E : Env) (m : gmap string Node) (file n : string) : Prop :=
  is_base_name n /\ env_match E file n = Some true
  /\ exists d, n ∈ Readdirnames d m.

(** What [filepath.Glob] answers for [pattern] in the state [s]. *)
Definition Glob_of (E : Env) (pattern : string) (s : St) : list string + Errno :=
  match result (filepath_Glob E pattern s) with
  | Val r => r
  | Stop _ => inr EIO
  end.

(** What one list prints and how it ends, for the answer [g] of [Glob]:
    the base names of the matches; a malformed pattern prints nothing. *)
Definition list_output (g : list string + Errno) : list string :=
  match g with
  | inl matches => printed (map filepath.Base matches)
  | inr _ => []
  end.

(** ** Notions for the queries *)

(** The [default] case of the [switch] of [main]: none of -req, -sign,
    -ca, -lang-go and -new. *)
Definition is_query_mode (f : Flags) : Prop :=
  IsRequest f = false /\ IsSignReq f = false /\ IsCA f = false
  /\ IsGoLang f = false /\ IsNew f = false.

(** The file a query is made on, for the argument [a] whose first byte
    is [c]: a path is taken as it is, a name is looked up in the
    directory of the certificates under -cert and in that of the keys
    under -key. *)
Definition is_target (D : DirPath.t) (f : Flags) (c : ascii) (a t : string) : Prop :=
  (is_name c = false -> t = a)
  /\ (is_name c = true -> IsCert f = true ->
      t = filepath.Join [DirPath.Cert D; a +:+ EXT_CERT])
  /\ (is_name c = true -> IsCert f = false -> IsKey f = true ->
      t = filepath.Join [DirPath.Key D; a +:+ EXT_KEY])
  /\ (is_name c = true -> IsCert f = false -> IsKey f = false -> t = a).

(** The call of [g] from [main] with the globals of [s]. *)
Definition main_call (g : ExtFunc) (s : St) : Event := ECall in_main (Ext g) (G s).

(** Queries in a row, each under its flag, its output printed; then [k]. *)
Fixpoint print_then (E : Env) (l : list (bool * ExtFunc)) (k : M unit) : M unit :=
  match l with
  | [] => k
  | (b, g) :: l' => when b (print_ext E g) ;; print_then E l' k
  end.

(** The calls that [l] stands for, in a run from [s]. *)
Definition calls_of (l : list (bool * ExtFunc)) (s : St) : list Event :=
  flat_map (fun p : bool * ExtFunc =>
              if fst p then [main_call (snd p) s] else []) l.

(** The queries of -i on the file [t], in the order of [main]. *)
Definition info_queries (f : Flags) (t : string) : list (bool * ExtFunc) :=
  [(IsEndDate f, InfoEndDate t); (IsHash f, HashInfo t);
   (IsIssuer f, InfoIssuer t); (IsName f, InfoName t)].

(** ** Notions for the files that are written *)

(** When [m] hands over a value from a state with [P], the value and the
    state it leaves have [Q]. *)
Definition hoare {A} (P : St -> Prop) (m : M A) (Q : A -> St -> Prop) : Prop :=
  forall s a, P s -> result (m s) = Val a -> Q a (final (m s)).

(** [path] is a regular file with the content [c]. *)
Definition file_has (path c : string) (m : gmap string Node) : Prop :=
  exists p, m !! path = Some (NFile p c).

(** Nothing has been written to the two streams since [s0]. *)
Definition quiet_since (s0 s : St) : Prop :=
  stdout s = stdout s0 /\ stderr s = stderr s0.

(** The state [s] of a run from [s0]: nothing written to the streams, the
    globals as they were, and the file system [m]. *)
Definition at_fs (s0 : St) (m : gmap string Node) (s : St) : Prop :=
  quiet_since s0 s /\ G s = G s0 /\ fs s = m.

(** The file system after [os.Create] of [path] has succeeded in [m]: an
    empty file, with the mode it had, or 0666 less the umask when new. *)
Definition created (umask : Z) (path : string) (m : gmap string Node)
    : gmap string Node :=
  <[path := NFile (match m !! path with
                   | Some (NFile p _) => p
                   | _ => Z.ldiff (octal 6 6 6) umask
                   end) ""]> m.

(** Every regular file of [m'] was one of [m], with the same content. *)
Definition no_new_content (m m' : gmap string Node) : Prop :=
  forall q c, file_has q c m' -> file_has q c m.

(** The data of the two Go files, from what [Cert2Lang] has read. *)
Definition go_data (E : Env) (ca cert key version endDate : string) : GoData :=
  {| gd_System := env_GOOS E;
     gd_Arch := env_GOARCH E;
     gd_Version := TrimRight_nl version;
     gd_Date := env_now E;
     gd_ValidUntil := TrimRight_nl endDate;
     gd_CACert := env_GoBlock E ca;
     gd_Cert := env_GoBlock E cert;
     gd_Key := env_GoBlock E key |}.

(** [InfoEndDate] leaves the file system as it finds it. *)
Definition InfoEndDate_reads (E : Env) : Prop :=
  forall t g m, snd (env_ext E (InfoEndDate t) g m) = m.

(** No file is made in the run. *)
Definition no_Create (ev : list Event) : Prop :=
  forall path err, ESys (Create path) err ∉ ev.

(** The first [n] steps against the file system meet no fault. *)
Definition fault_free (n : nat) (l : list bool) : Prop :=
  forall i, (i < n)%nat -> nth i l false = false.

(** The concrete environment, with an [InfoEndDate] that fails. *)
Definition bad_cert_env : Env := {|
  env_openssl := env_openssl demo_env;
  env_home := env_home demo_env;
  env_umask := env_umask demo_env;
  env_hostname := env_hostname demo_env;
  env_import := env_import demo_env;
  env_match := env_match demo_env;
  env_template := env_template demo_env;
  env_version := env_version demo_env;
  env_GOOS := env_GOOS demo_env; env_GOARCH := env_GOARCH demo_env;
  env_now := env_now demo_env;
  env_GoBlock := env_GoBlock demo_env;
  env_TMPL_GO := env_TMPL_GO demo_env;
  env_ext := fun f g m =>
    match f with
    | InfoEndDate _ => (inr "unable to load certificate", m)
    | _ => (inl "", m)
    end
|}.

(** A machine with the certificate and the key of www, and no Go file. *)
Definition demo_fs_www : gmap string Node :=
  <[ "/home/u/.cert/private/www.key" := NFile (octal 6 0 0) "KEY" ]>
  (delete "z-cert_srv.go" demo_fs_ca).

(** The state in which [main] calls [Cert2Lang] for www on the machine
    [m], the certificate of www standing for that of the CA. *)
Definition golang_state (E : Env) (m : gmap string Node) : St :=
  set_G (set_Fl (set_CACert "/home/u/.cert/certs/www.crt"))
    (resolved "www" (final (init E (start m [])))).

(** ** Notions for what stays in the file system *)

(** The path that a step makes, when it succeeds. *)
Definition makes (op : SysOp) : option string :=
  match op with
  | Mkdir d _ => Some d
  | Create f => Some f
  | _ => None
  end.

(** From [m] to [m'] no path has gone. *)
Definition nothing_removed (m m' : gmap string Node) : Prop :=
  forall p, is_Some (m !! p) -> is_Some (m' !! p).

(** What the steps of the trace [ev] have made is in [m]. *)
Definition made_in (ev : list Event) (m : gmap string Node) : Prop :=
  forall op p, ESys op None ∈ ev -> makes op = Some p -> is_Some (m !! p).

(** In every run of [c], however it ends, no path is removed and what
    has been made stays. *)
Definition keeps {A} (c : M A) : Prop :=
  forall s, nothing_removed (fs s) (fs (final (c s)))
            /\ made_in (events (c s)) (fs (final (c s))).

(** ** strconv.Itoa, and the size as a string *)

(** The decimal digit [d] as a byte. *)
Definition digit_byte (d : Z) : ascii := ascii_of_N (Z.to_N (48 + d)).

(** The digits of [u], the last one first, put in front of [acc]: what
    the loop of [formatBits] writes from the end of its buffer. *)
Fixpoint utoa (fuel : nat) (u : Z) (acc : bytes) : bytes :=
  match fuel with
  | O => acc
  | S fuel' =>
      let acc' := digit_byte (u mod 10) :: acc in
      if u <? 10 then acc' else utoa fuel' (u / 10) acc'
  end.

(** [strconv.Itoa] for a 64-bit [int]: at most twenty digits, after a
    minus sign for a negative number. *)
Definition strconv_Itoa (i : Z) : string :=
  str (if i <? 0 then "-"%char :: utoa 20 (- i) [] else utoa 20 i []).

(** [func (s *rsaSizeT) String() string]. *)
Definition rsaSizeT_String (s : rsaSizeT) : string := strconv_Itoa s.


(** * Properties *)

Example Clean_ex1 : filepath.Clean "/home/u/../v//.cert/./x" = "/home/v/.cert/x".
Proof. reflexivity. Qed.
Example Clean_ex2 : filepath.Clean "../../a/b/../.." = "../..".
Proof. reflexivity. Qed.
Example Clean_ex3 : filepath.Clean "/../a/" = "/a".
Proof. reflexivity. Qed.
Example Clean_ex4 : filepath.Clean "a/.." = ".".
Proof. reflexivity. Qed.
Example Join_ex1 : filepath.Join ["/home/u"; ".cert"] = "/home/u/.cert".
Proof. reflexivity. Qed.
Example Join_ex2 : filepath.Join [""; "x"; ""] = "x".
Proof. reflexivity. Qed.
Example Base_ex1 : filepath.Base "/home/u/.cert/certs/www.crt" = "www.crt".
Proof. reflexivity. Qed.
Example Base_ex2 : filepath.Base "///" = "/".
Proof. reflexivity. Qed.
Example Base_ex3 : filepath.Base "a/b//" = "b".
Proof. reflexivity. Qed.

(** ** Strings and byte lists *)

Lemma str_unstr s : str (unstr s) = s.
Proof. apply string_of_list_ascii_of_string. Qed.

Lemma unstr_str l : unstr (str l) = l.
Proof. apply list_ascii_of_string_of_list_ascii. Qed.

Lemma unstr_app a b : unstr (a +:+ b) = unstr a ++ unstr b.
Proof. induction a as [|c a IH]; simpl; [done | by rewrite IH]. Qed.

Lemma str_app a b : str (a ++ b) = str a +:+ str b.
Proof. induction a as [|c a IH]; simpl; [done | by rewrite IH]. Qed.

Lemma unstr_inj a b : unstr a = unstr b -> a = b.
Proof. intros H. rewrite <- (str_unstr a), <- (str_unstr b). by rewrite H. Qed.

Module filepath_facts.
Import filepath.

Lemma boundary_cons_inv c t : boundary (c :: t) -> boundary t.
Proof.
  intros [H | [t0 H]]; [discriminate |].
  destruct t0 as [|c0 t0]; simpl in H; inversion H; subst.
  - by left.
  - right. by exists t0.
Qed.

Lemma boundary_nonsep c t :
  boundary (c :: t) -> IsPathSeparator c = false -> t <> [].
Proof.
  intros [H | [t0 H]] Hc ->; [discriminate |].
  destruct t0 as [|c0 [|c1 t0]]; simpl in H; inversion H; subst.
  discriminate.
Qed.

Lemma boundary_snoc t : boundary (t ++ [Separator]).
Proof. right. by exists t. Qed.

Lemma valid_name_inv e :
  valid_name e = true ->
  exists c e', e = c :: e' /\ IsPathSeparator c = false /\ no_sep e'
    /\ e <> [dot] /\ e <> [dot; dot].
Proof.
  destruct e as [|c e']; [discriminate |].
  unfold valid_name. intros H.
  apply andb_true_iff in H as [H1 H2].
  simpl in H1. apply andb_true_iff in H1 as [Hc He].
  exists c, e'. repeat split; [by apply negb_true_iff | done | |];
    intros Heq; rewrite Heq in H2; discriminate.
Qed.

Lemma span_elem_no_sep e : no_sep e -> span_elem e = (e, []).
Proof.
  unfold no_sep. induction e as [|c e IH]; simpl; [done |].
  intros H. apply andb_true_iff in H as [Hc He].
  apply negb_true_iff in Hc. rewrite Hc, (IH He). done.
Qed.

(** In a path that goes on after [t], the element at the head of [t] ends
    inside [t] when [t] ends in a separator. *)
Lemma span_elem_app t e :
  t <> [] -> boundary t ->
  exists el r, span_elem (t ++ e) = (el, r ++ e) /\ boundary r
               /\ (length r <= length t)%nat.
Proof.
  induction t as [|c t IH]; [done |]. intros _ Hb. simpl.
  destruct (IsPathSeparator c) eqn:Hc.
  - exists [], (c :: t). by repeat split.
  - pose proof (boundary_nonsep _ _ Hb Hc) as Hne.
    destruct (IH Hne (boundary_cons_inv _ _ Hb)) as (el & r & -> & Hr & Hlen).
    exists (c :: el), r. repeat split; [done |]. simpl. lia.
Qed.

Lemma backtrack_ge out dotdot w :
  (dotdot <= w)%nat -> (dotdot <= backtrack out dotdot w)%nat.
Proof.
  induction w as [|w IH]; simpl; [done |]. intros Hle.
  destruct (dotdot <? S w)%nat eqn:Hlt; simpl; [| lia].
  destruct (negb _); [| lia].
  apply IH. apply Nat.ltb_lt in Hlt. lia.
Qed.

Lemma clean_loop_nil fuel rooted out dotdot :
  clean_loop fuel rooted [] out dotdot = out.
Proof. by destruct fuel. Qed.

(** The last element of a path, when it is a name, is the last element
    of what the loop of [Clean] returns. *)
Lemma clean_loop_last e :
  valid_name e = true ->
  forall fuel t rooted out dotdot,
    boundary t -> (length (t ++ e) <= fuel)%nat ->
    rooted_inv rooted out dotdot ->
    exists pre, clean_loop fuel rooted (t ++ e) out dotdot = pre ++ e
                /\ boundary pre.
Proof.
  intros He. destruct (valid_name_inv e He) as (c0 & e' & -> & Hc0 & He' & Hd1 & Hd2).
  induction fuel as [|fuel IH]; intros t rooted out dotdot Hb Hlen Hinv.
  { rewrite length_app in Hlen. simpl in Hlen. lia. }
  destruct t as [|c t].
  - (* the last element itself *)
    simpl app. cbn [clean_loop]. rewrite Hc0.
    assert (Hse : starts_sep_or_end e' = true -> e' = []).
    { destruct e' as [|c1 e1]; [done |]. simpl. intros H.
      unfold no_sep in He'. simpl in He'. rewrite H in He'. discriminate. }
    assert (H1 : Ascii.eqb c0 dot && starts_sep_or_end e' = false).
    { destruct (Ascii.eqb c0 dot) eqn:Hd; [| done]. simpl.
      destruct (starts_sep_or_end e') eqn:Hs; [| done].
      specialize (Hse eq_refl). apply Ascii.eqb_eq in Hd. subst. done. }
    rewrite H1.
    assert (H2 : Ascii.eqb c0 dot
                 && match e' with
                    | c1 :: rest2 => Ascii.eqb c1 dot && starts_sep_or_end rest2
                    | [] => false
                    end = false).
    { destruct (Ascii.eqb c0 dot) eqn:Hd; [| done]. simpl.
      destruct e' as [|c1 e1]; [done |].
      destruct (Ascii.eqb c1 dot) eqn:Hd'; [| done]. simpl.
      destruct (starts_sep_or_end e1) eqn:Hs; [| done].
      apply Ascii.eqb_eq in Hd, Hd'. subst.
      destruct e1 as [|c2 e2]; [done |]. simpl in Hs.
      unfold no_sep in He'. simpl in He'. rewrite Hs in He'.
      simpl in He'. discriminate. }
    rewrite H2.
    assert (Hspan : span_elem (c0 :: e') = (c0 :: e', [])).
    { apply span_elem_no_sep. unfold no_sep. simpl. by rewrite Hc0. }
    rewrite Hspan, clean_loop_nil.
    eexists. split; [reflexivity |].
    destruct (_ || _) eqn:Hadd; [apply boundary_snoc |].
    destruct rooted.
    + destruct (Hinv eq_refl) as [_ [o ->]]. simpl in Hadd.
      destruct o; [| simpl in Hadd; discriminate].
      right. by exists [].
    + simpl in Hadd. destruct out; [by left | simpl in Hadd; discriminate].
  - (* an element before it *)
    pose proof (boundary_cons_inv _ _ Hb) as Hb'.
    simpl in Hlen. simpl app. cbn [clean_loop].
    destruct (IsPathSeparator c) eqn:Hc.
    { apply IH; [done | lia | done]. }
    pose proof (boundary_nonsep _ _ Hb Hc) as Hne.
    case_if H1.
    { apply IH; [done | lia | done]. }
    case_if H2.
    { destruct t as [|c1 t]; [done |]. simpl tl.
      pose proof (boundary_cons_inv _ _ Hb') as Hb''.
      simpl in Hlen.
      destruct (dotdot <? length out)%nat eqn:Hlt.
      - apply IH; [done | lia |].
        intros Hr. destruct (Hinv Hr) as [-> [o ->]]. split; [done |].
        pose proof (backtrack_ge (Separator :: o) 1
                      (length (Separator :: o) - 1)) as Hge.
        apply Nat.ltb_lt in Hlt. simpl in Hlt.
        destruct (backtrack _ _ _) as [|w]; [simpl in Hge; lia |].
        simpl. eauto.
      - destruct rooted; simpl.
        + apply IH; [done | lia | done].
        + apply IH; [done | lia | done]. }
    destruct (span_elem_app (c :: t) (c0 :: e')) as (el & r & Hsp & Hr & Hrl);
      [done | done |].
    simpl app in Hsp. rewrite Hsp.
    assert (Hrl' : (length r <= length t)%nat).
    { simpl in Hsp. rewrite Hc in Hsp.
      destruct (span_elem (t ++ c0 :: e')) as [el' r'] eqn:Hsp'.
      inversion Hsp; subst.
      destruct (span_elem_app t (c0 :: e') Hne Hb') as (el2 & r2 & Hsp2 & _ & Hl2).
      rewrite Hsp' in Hsp2. inversion Hsp2 as [[Hel Hrr]].
      apply app_inv_tail in Hrr. subst. done. }
    apply IH; [done | rewrite length_app in *; simpl in *; lia |].
    intros Hroot. destruct (Hinv Hroot) as [-> [o ->]]. split; [done |].
    destruct (_ || _); simpl; eauto.
Qed.

Lemma clean_last s e :
  valid_name e = true -> boundary s ->
  exists pre, clean (s ++ e) = pre ++ e /\ boundary pre.
Proof.
  intros He Hs.
  destruct (valid_name_inv e He) as (c0 & e' & -> & Hc0 & _).
  assert (Hout : forall out pre, out = pre ++ c0 :: e' ->
            match out with [] => [dot] | _ => out end = pre ++ c0 :: e').
  { intros out pre ->. by destruct pre. }
  destruct s as [|c s]; unfold clean.
  - simpl app. cbv beta iota zeta. rewrite Hc0.
    destruct (clean_loop_last _ He (length (c0 :: e')) [] false [] 0%nat)
      as (pre & Hp & Hb); [by left | done | done |].
    simpl app in Hp. exists pre. split; [| done]. by apply Hout.
  - simpl app. cbv beta iota zeta. destruct (IsPathSeparator c) eqn:Hc.
    + destruct (clean_loop_last _ He (length (c :: s ++ c0 :: e')) s true
                  [Separator] 1%nat) as (pre & Hp & Hb);
        [by eapply boundary_cons_inv | simpl; lia | intros _; eauto |].
      exists pre. split; [| done]. by apply Hout.
    + destruct (clean_loop_last _ He (length (c :: s ++ c0 :: e')) (c :: s) false
                  [] 0%nat) as (pre & Hp & Hb); [done | done | done |].
      exists pre. split; [| done]. by apply Hout.
Qed.

(** [Join] of a directory and a name ends in that name. *)
Lemma join_last d n :
  valid_name n = true ->
  exists pre, join [d; n] = pre ++ n /\ boundary pre.
Proof.
  intros Hn. destruct (valid_name_inv n Hn) as (c0 & n' & -> & _).
  destruct d as [|c d].
  - cbn [join join_sep]. apply (clean_last [] _ Hn). by left.
  - cbn [join join_sep].
    replace ((c :: d) ++ Separator :: c0 :: n')
      with (((c :: d) ++ [Separator]) ++ c0 :: n')
      by (by rewrite <- app_assoc).
    apply clean_last; [done | apply boundary_snoc].
Qed.

Lemma drop_seps_nonsep c l :
  IsPathSeparator c = false -> drop_seps (c :: l) = c :: l.
Proof. intros H. simpl. by rewrite H. Qed.

Lemma no_sep_rev e : no_sep e -> no_sep (rev e).
Proof.
  unfold no_sep. rewrite !forallb_forall. intros H c Hc.
  apply H. by apply in_rev.
Qed.

Lemma span_elem_app_sep e t :
  no_sep e -> starts_sep_or_end t = true -> span_elem (e ++ t) = (e, t).
Proof.
  unfold no_sep. induction e as [|c e IH]; simpl; intros He Ht.
  - destruct t as [|c t]; [done |]. simpl in *. by rewrite Ht.
  - apply andb_true_iff in He as [Hc He]. apply negb_true_iff in Hc.
    rewrite Hc, (IH He Ht). done.
Qed.

Lemma boundary_rev pre : boundary pre -> starts_sep_or_end (rev pre) = true.
Proof.
  intros [-> | [t0 ->]]; [done |]. rewrite rev_app_distr. done.
Qed.

Lemma valid_name_no_sep e : valid_name e = true -> no_sep e.
Proof.
  intros He. destruct (valid_name_inv e He) as (c & e' & -> & Hc & He' & _).
  unfold no_sep in *. simpl. by rewrite Hc.
Qed.

(** [Base] of a path whose last element is a name is that name. *)
Lemma base_last pre e :
  valid_name e = true -> boundary pre -> base (pre ++ e) = e.
Proof.
  intros He Hb. pose proof (valid_name_no_sep e He) as Hns.
  destruct (valid_name_inv e He) as (c0 & e' & Hee & Hc0 & _).
  unfold base. destruct (pre ++ e) as [|x l] eqn:Hpe.
  { subst e. by destruct pre. }
  rewrite <- Hpe. clear x l Hpe.
  assert (Hrev : exists c r, rev e = c :: r /\ IsPathSeparator c = false).
  { pose proof (no_sep_rev e Hns) as Hr.
    destruct (rev e) as [|c r] eqn:Hre.
    - apply (f_equal (@rev ascii)) in Hre. rewrite rev_involutive in Hre.
      subst e. discriminate.
    - exists c, r. split; [done |]. unfold no_sep in Hr. simpl in Hr.
      apply andb_true_iff in Hr as [Hr _]. by apply negb_true_iff. }
  destruct Hrev as (c & r & Hre & Hc).
  rewrite rev_app_distr, Hre. simpl app.
  rewrite drop_seps_nonsep by done.
  rewrite rev_involutive.
  change (c :: r ++ rev pre) with ((c :: r) ++ rev pre). rewrite <- Hre.
  rewrite span_elem_app_sep; [| by apply no_sep_rev | by apply boundary_rev].
  simpl. rewrite rev_involutive. subst e. done.
Qed.

Lemma base_join d n : valid_name n = true -> base (join [d; n]) = n.
Proof.
  intros Hn. destruct (join_last d n Hn) as (pre & -> & Hb).
  by apply base_last.
Qed.

(** Every path is a part that ends at a separator and a last element. *)
Lemma split_last s0 : exists s a, s0 = s ++ a /\ boundary s /\ no_sep a.
Proof.
  induction s0 as [|c s0 IH] using rev_ind.
  - exists [], []. repeat split. by left.
  - destruct (IsPathSeparator c) eqn:Hc.
    + exists (s0 ++ [c]), []. rewrite app_nil_r. repeat split.
      apply Ascii.eqb_eq in Hc. subst c. apply boundary_snoc.
    + destruct IH as (s & a & -> & Hb & Ha).
      exists s, (a ++ [c]). rewrite <- app_assoc. repeat split; [done |].
      unfold no_sep in *. rewrite forallb_app, Ha. simpl. by rewrite Hc.
Qed.

Lemma valid_name_ext a ext :
  no_sep a -> is_ext ext = true -> valid_name (a ++ ext) = true.
Proof.
  unfold is_ext, no_sep. intros Ha Hext.
  apply andb_true_iff in Hext as [H1 H2]. apply negb_true_iff in H2.
  unfold valid_name.
  destruct (a ++ ext) as [|x l] eqn:Hae.
  { apply app_eq_nil in Hae as [_ ->]. discriminate. }
  rewrite <- Hae. rewrite !forallb_app, Ha, H1, H2. simpl.
  by rewrite andb_false_r.
Qed.

(** A path that ends in an extension keeps its last element, and so the
    extension, through [Clean]. *)
Lemma clean_ext s0 ext :
  is_ext ext = true ->
  exists pre a, clean (s0 ++ ext) = pre ++ a ++ ext /\ boundary pre
                /\ valid_name (a ++ ext) = true
                /\ exists s, s0 = s ++ a /\ boundary s.
Proof.
  intros Hext. destruct (split_last s0) as (s & a & -> & Hb & Ha).
  pose proof (valid_name_ext a ext Ha Hext) as Hv.
  destruct (clean_last s (a ++ ext) Hv Hb) as (pre & Hp & Hpre).
  exists pre, a. rewrite <- app_assoc. repeat split; eauto.
Qed.

Lemma join_ext d name ext :
  is_ext ext = true ->
  exists pre a, join [d; name ++ ext] = pre ++ a ++ ext /\ boundary pre
                /\ valid_name (a ++ ext) = true.
Proof.
  intros Hext. destruct d as [|c d].
  - cbn [join]. destruct (name ++ ext) as [|x l] eqn:Hne.
    { apply app_eq_nil in Hne as [_ ->]. discriminate. }
    rewrite <- Hne. cbn [join_sep].
    destruct (clean_ext name ext Hext) as (pre & a & Hc & Hb & Hv & _).
    exists pre, a. by rewrite Hne in *.
  - cbn [join join_sep].
    replace ((c :: d) ++ Separator :: name ++ ext)
      with (((c :: d) ++ Separator :: name) ++ ext)
      by (by rewrite <- app_assoc).
    destruct (clean_ext ((c :: d) ++ Separator :: name) ext Hext)
      as (pre & a & Hc & Hb & Hv & _).
    by exists pre, a.
Qed.

End filepath_facts.

(** ** Paths as strings *)

Import filepath_facts.

Lemma Join_two d n :
  filepath.Join [d; n] = str (filepath.join [unstr d; unstr n]).
Proof. reflexivity. Qed.

Lemma Join_name d n :
  filepath.valid_name (unstr n) = true ->
  exists pre, filepath.Join [d; n] = pre +:+ n /\ filepath.boundary (unstr pre).
Proof.
  intros Hn. rewrite Join_two.
  destruct (join_last (unstr d) (unstr n) Hn) as (pre & -> & Hb).
  exists (str pre). by rewrite str_app, str_unstr, unstr_str.
Qed.

Lemma Base_Join d n :
  filepath.valid_name (unstr n) = true -> filepath.Base (filepath.Join [d; n]) = n.
Proof.
  intros Hn. unfold filepath.Base. rewrite Join_two, unstr_str.
  by rewrite base_join, str_unstr.
Qed.

(** A name with an extension keeps the extension when it is joined to a
    directory, whatever the directory and the name are. *)
Lemma Join_ext_suffix d name ext :
  filepath.is_ext (unstr ext) = true ->
  exists p, filepath.Join [d; name +:+ ext] = p +:+ ext.
Proof.
  intros Hext. rewrite Join_two, unstr_app.
  destruct (join_ext (unstr d) (unstr name) (unstr ext) Hext)
    as (pre & a & -> & _ & _).
  exists (str (pre ++ a)). by rewrite app_assoc, str_app, str_unstr.
Qed.

(** ** Path resolution *)

(** C1: with -req, -sign or -ca the paths come from the name alone: the
    certificate is [Dir.Cert] joined with the name plus ".crt", the key is
    [Dir.Key] joined with the name plus ".key", the request is [Dir.Root]
    joined with the name plus ".csr" (the name is "ca" under -ca, else the
    first argument); each path ends in its suffix; and resolving again,
    from any state with the same directories, gives the same paths. *)
Theorem paths_resolved_by_suffix (f : Flags) (args : list string)
    (name : string) (s1 s2 : St) :
  IsRequest f || IsSignReq f || IsCA f = true ->
  (if IsCA f then name = "ca" else head args = Some name) ->
  let F1 := File (G (final (main_paths f args s1))) in
  let F2 := File (G (final (main_paths f args s2))) in
  result (main_paths f args s1) = Val name
  /\ FilePath.Cert F1 = filepath.Join [DirPath.Cert (Dir (G s1)); name +:+ ".crt"]
  /\ FilePath.Key F1 = filepath.Join [DirPath.Key (Dir (G s1)); name +:+ ".key"]
  /\ FilePath.Request F1 = filepath.Join [DirPath.Root (Dir (G s1)); name +:+ ".csr"]
  /\ (exists p, FilePath.Cert F1 = p +:+ ".crt")
  /\ (exists p, FilePath.Key F1 = p +:+ ".key")
  /\ (exists p, FilePath.Request F1 = p +:+ ".csr")
  /\ (Dir (G s2) = Dir (G s1) ->
      FilePath.Cert F2 = FilePath.Cert F1
      /\ FilePath.Key F2 = FilePath.Key F1
      /\ FilePath.Request F2 = FilePath.Request F1).
Proof.
  intros Hmode Hname.
  assert (Hrun : forall s,
    result (main_paths f args s) = Val name
    /\ FilePath.Cert (File (G (final (main_paths f args s))))
       = filepath.Join [DirPath.Cert (Dir (G s)); name +:+ ".crt"]
    /\ FilePath.Key (File (G (final (main_paths f args s))))
       = filepath.Join [DirPath.Key (Dir (G s)); name +:+ ".key"]
    /\ FilePath.Request (File (G (final (main_paths f args s))))
       = filepath.Join [DirPath.Root (Dir (G s)); name +:+ ".csr"]).
  { intros s. unfold main_paths, bind, get. cbn [result final]. rewrite Hmode.
    destruct (IsCA f).
    - subst name. simpl. done.
    - destruct args as [|a args]; [discriminate |]. simpl in Hname.
      inversion Hname; subst. simpl. done. }
  destruct (Hrun s1) as (Hr1 & Hc & Hk & Hq).
  destruct (Hrun s2) as (Hr2 & Hc2 & Hk2 & Hq2).
  cbv zeta. rewrite Hc, Hk, Hq, Hc2, Hk2, Hq2.
  repeat split; try done; try (by apply Join_ext_suffix).
  all: match goal with HD : Dir _ = Dir _ |- _ => by rewrite HD end.
Qed.

Lemma paths_resolved_by_suffix_witness :
  IsRequest (set_bool f_req true default_flags)
    || IsSignReq (set_bool f_req true default_flags)
    || IsCA (set_bool f_req true default_flags) = true
  /\ head ["www"] = Some "www"
  /\ let F1 := File (G (final (main_paths (set_bool f_req true default_flags)
                                 ["www"] (demo_state demo_fs [])))) in
     FilePath.Cert F1 = "/home/u/.cert/certs/www.crt"
     /\ FilePath.Key F1 = "/home/u/.cert/private/www.key"
     /\ FilePath.Request F1 = "/home/u/.cert/www.csr".
Proof.
  split; [reflexivity |]. split; [reflexivity |].
  destruct (paths_resolved_by_suffix (set_bool f_req true default_flags)
              ["www"] "www" (demo_state demo_fs []) (demo_state demo_fs [])
              eq_refl eq_refl)
    as (_ & Hc & Hk & Hq & _).
  cbv zeta. rewrite Hc, Hk, Hq. repeat split; reflexivity.
Defined.

(** ** The -rsa-size flag *)

Example Atoi_ex1 : strconv.Atoi "4096" = inl 4096. Proof. reflexivity. Qed.
Example Atoi_ex2 : strconv.Atoi "-12" = inl (-12). Proof. reflexivity. Qed.
Example Atoi_ex3 : strconv.Atoi "2k" = inr strconv.ErrSyntax. Proof. reflexivity. Qed.
Example Atoi_ex4 : strconv.Atoi "" = inr strconv.ErrSyntax. Proof. reflexivity. Qed.
Example Atoi_ex5 : strconv.Atoi "9223372036854775808" = inr strconv.ErrRange.
Proof. reflexivity. Qed.
Example Set_ex1 : rsaSizeT_Set 2048 "3072" = (None, 3072). Proof. reflexivity. Qed.
Example Set_ex2 : rsaSizeT_Set 2048 "1024" = (Some errMinSize, 2048). Proof. reflexivity. Qed.
Example Set_ex3 : rsaSizeT_Set 4096 "3000" = (Some errSize, 4096). Proof. reflexivity. Qed.

Lemma flag_Parse_keeps_RSASize cmd :
  Forall (fun a => flag_name a <> "rsa-size") cmd ->
  forall f0 f, flag_Parse cmd f0 = inl f -> RSASize f = RSASize f0.
Proof.
  induction 1 as [|a cmd Ha _ IH]; intros f0 f Hp; simpl in Hp.
  - by inversion Hp.
  - destruct a; try (rewrite (IH _ _ Hp); reflexivity).
    by destruct Ha.
Qed.

(** C9: [Set] succeeds exactly when the value parses as an integer that is
    at least 2048 and a multiple of 1024, and then stores it; on every
    other value it returns an error and leaves the stored size as it was;
    the size starts at 2048 and stays there through a parse that sets no
    -rsa-size. *)
Theorem rsaSize_Set_accepts_exactly (s : rsaSizeT) (value : string) :
  (fst (rsaSizeT_Set s value) = None
   <-> exists i, strconv.Atoi value = inl i /\ 2048 <= i /\ (1024 | i))
  /\ (forall i, strconv.Atoi value = inl i -> 2048 <= i -> (1024 | i) ->
      rsaSizeT_Set s value = (None, i))
  /\ (fst (rsaSizeT_Set s value) <> None -> snd (rsaSizeT_Set s value) = s)
  /\ RSASize default_flags = 2048
  /\ (forall cmd f,
        Forall (fun a => flag_name a <> "rsa-size") cmd ->
        flag_Parse cmd default_flags = inl f -> RSASize f = 2048).
Proof.
  assert (Hok : forall i, strconv.Atoi value = inl i -> 2048 <= i -> (1024 | i) ->
                  rsaSizeT_Set s value = (None, i)).
  { intros i Ha Hmin Hdiv. unfold rsaSizeT_Set. rewrite Ha.
    destruct (i <? 2048) eqn:Hlt; [apply Z.ltb_lt in Hlt; lia |].
    apply Z.rem_divide in Hdiv; [| done]. rewrite Hdiv. done. }
  repeat split.
  - unfold rsaSizeT_Set.
    destruct (strconv.Atoi value) as [i | e]; [| discriminate].
    destruct (i <? 2048) eqn:Hlt; [discriminate |].
    destruct (Z.rem i 1024 =? 0) eqn:Hrem; [| discriminate].
    intros _. exists i. apply Z.ltb_ge in Hlt. apply Z.eqb_eq in Hrem.
    repeat split; [done |]. by apply Z.rem_divide.
  - intros (i & Ha & Hmin & Hdiv). by rewrite (Hok i).
  - exact Hok.
  - unfold rsaSizeT_Set.
    destruct (strconv.Atoi value) as [i | e]; [| done].
    destruct (i <? 2048); [done |].
    destruct (Z.rem i 1024 =? 0); [| done]. simpl. done.
  - intros cmd f Hcmd Hp.
    by rewrite (flag_Parse_keeps_RSASize cmd Hcmd _ _ Hp).
Qed.

(** ** Runs *)

Lemma bind_eq {A B} (m : M A) (k : A -> M B) s :
  bind m k s =
  match result (m s) with
  | Val a => mkRun (result (k a (final (m s)))) (final (k a (final (m s))))
               (events (m s) ++ events (k a (final (m s))))
  | Stop o => mkRun (Stop o) (final (m s)) (events (m s))
  end.
Proof. reflexivity. Qed.

Lemma bind_run {A B} (m : M A) (k : A -> M B) s a s' ev :
  m s = mkRun (Val a) s' ev ->
  bind m k s = mkRun (result (k a s')) (final (k a s')) (ev ++ events (k a s')).
Proof. intros H. rewrite bind_eq, H. reflexivity. Qed.

Lemma bind_stop {A B} (m : M A) (k : A -> M B) s o s' ev :
  m s = mkRun (Stop o) s' ev -> bind m k s = mkRun (Stop o) s' ev.
Proof. intros H. rewrite bind_eq, H. reflexivity. Qed.

Lemma run_eta {A} (r : Run A) : r = mkRun (result r) (final r) (events r).
Proof. by destruct r. Qed.

Lemma never_returns_bind {A B} (m : M A) (k : A -> M B) :
  (forall a, never_returns (k a)) -> never_returns (bind m k).
Proof.
  intros Hk s. rewrite bind_eq. destruct (result (m s)) as [a | o]; simpl; [| eauto].
  apply Hk.
Qed.

Lemma never_returns_bind_l {A B} (m : M A) (k : A -> M B) :
  never_returns m -> never_returns (bind m k).
Proof.
  intros Hm s. rewrite bind_eq. destruct (Hm s) as [o ->]. simpl. eauto.
Qed.

Lemma never_returns_stop {A} o : never_returns (@stop A o).
Proof. intros s. simpl. eauto. Qed.

Lemma never_returns_log_Fatal {A} msg : never_returns (@log_Fatal A msg).
Proof. apply never_returns_bind. intros _. apply never_returns_stop. Qed.

Lemma returns_only_bind {A B} (R : B -> Prop) (m : M A) (k : A -> M B) :
  (forall a, returns_only R (k a)) -> returns_only R (bind m k).
Proof.
  intros Hk s b. rewrite bind_eq.
  destruct (result (m s)) as [a | o]; simpl; [apply Hk | done].
Qed.

Lemma returns_only_ret {A} (R : A -> Prop) a : R a -> returns_only R (ret a).
Proof. intros Ha s b [= <-]. done. Qed.

Ltac never_tac :=
  repeat (apply never_returns_bind; intros ?); apply never_returns_stop.

(** *** What a run adds to the trace, piece by piece *)
Section Emits.

Variable P : list Event -> Prop.
Variable ordinary : Caller -> Func -> Prop.
Hypothesis HP : trace_prop P ordinary.

Lemma emits_ret {A} (a : A) : emits P (ret a).
Proof. intros s. apply HP. Qed.

Lemma emits_bind {A B} (m : M A) (k : A -> M B) :
  emits P m -> (forall a, emits P (k a)) -> emits P (bind m k).
Proof.
  intros Hm Hk s. rewrite bind_eq. destruct (result (m s)) as [a | o]; simpl.
  - apply HP; [apply Hm | apply Hk].
  - apply Hm.
Qed.

Lemma emits_bind_never {A B} (m : M A) (k : A -> M B) :
  emits P m -> never_returns m -> emits P (bind m k).
Proof.
  pose proof HP as _.
  intros He Hn s. rewrite bind_eq. destruct (Hn s) as [o ->]. apply He.
Qed.

Lemma emits_bind_only {A B} (R : A -> Prop) (m : M A) (k : A -> M B) :
  emits P m -> returns_only R m ->
  (forall a, R a -> emits P (k a)) -> emits P (bind m k).
Proof.
  intros He HR Hk s. rewrite bind_eq.
  destruct (result (m s)) as [a | o] eqn:Hr; simpl; [| apply He].
  apply HP; [apply He | apply Hk]. by apply (HR s).
Qed.

Lemma emits_get : emits P get.
Proof. intros s. apply HP. Qed.

Lemma emits_modify f : emits P (modify f).
Proof. intros s. apply HP. Qed.

Lemma emits_stop {A} o : emits P (@stop A o).
Proof. intros s. apply HP. Qed.

Lemma emits_when b m : emits P m -> emits P (when b m).
Proof. intros Hm. destruct b; [done | apply emits_ret]. Qed.

Lemma emits_fmt_Print v : emits P (fmt_Print v).
Proof. apply emits_modify. Qed.

Lemma emits_log_Print v : emits P (log_Print v).
Proof. apply emits_modify. Qed.

Lemma emits_log_Fatal {A} v : emits P (@log_Fatal A v).
Proof. apply emits_bind; [apply emits_log_Print | intros; apply emits_stop]. Qed.

Lemma emits_syscall {A} op f : emits P (@syscall A op f).
Proof. intros s. unfold syscall. destruct (hd false (faults s)); apply HP. Qed.

Lemma emits_syscall_read {A} op f d : emits P (@syscall_read A op f d).
Proof. intros s. apply HP. Qed.

Lemma emits_envcall {A} op v : emits P (@envcall A op v).
Proof. intros s. destruct v; apply HP. Qed.

Lemma emits_fatal_on_error {A} op path (r : A + Errno) :
  emits P (fatal_on_error op path r).
Proof. destruct r; [apply emits_ret | apply emits_log_Fatal]. Qed.

Lemma emits_emit from f g : ordinary from f -> emits P (emit (ECall from f g)).
Proof. intros H s. by apply HP. Qed.

Lemma emits_call_ext E from f :
  ordinary from (Ext f) -> emits P (call_ext E from f).
Proof.
  intros H. unfold call_ext.
  apply emits_bind; [apply emits_get | intros s].
  apply emits_bind; [by apply emits_emit | intros _].
  destruct (env_ext E f (G s) (fs s)) as [[out | msg] m];
    (apply emits_bind; [apply emits_modify | intros _]);
    [apply emits_ret | apply emits_log_Fatal].
Qed.

Lemma emits_call_main {A} f (body : M A) :
  ordinary in_main f -> emits P body -> emits P (call_main f body).
Proof.
  intros H Hb. unfold call_main.
  apply emits_bind; [apply emits_get | intros s].
  apply emits_bind; [by apply emits_emit | intros _]. done.
Qed.

Lemma emits_fatal_if_exists msg path : emits P (fatal_if_exists msg path).
Proof.
  apply emits_bind; [apply emits_syscall_read | intros r].
  apply emits_when, emits_log_Fatal.
Qed.

End Emits.

(** One step of a structural proof that a program keeps the trace property
    [HP]. *)
Ltac emits_step HP :=
  first
    [ apply (emits_ret _ _ HP) | apply (emits_get _ _ HP)
    | apply (emits_modify _ _ HP)
    | apply (emits_stop _ _ HP) | apply (emits_fmt_Print _ _ HP)
    | apply (emits_log_Print _ _ HP)
    | apply (emits_log_Fatal _ _ HP) | apply (emits_syscall _ _ HP)
    | apply (emits_syscall_read _ _ HP)
    | apply (emits_envcall _ _ HP) | apply (emits_fatal_on_error _ _ HP)
    | apply (emits_fatal_if_exists _ _ HP)
    | apply (emits_when _ _ HP)
    | apply (emits_bind _ _ HP); [| intros ?]
    | match goal with
      | |- emits _ (match ?x with _ => _ end) => destruct x
      end ].

Ltac emits_auto HP := repeat emits_step HP.

(** *** The functions of the program *)
Section EmitsProgram.

Variable E : Env.
Variable P : list Event -> Prop.
Variable ordinary : Caller -> Func -> Prop.
Hypothesis HP : trace_prop P ordinary.

Lemma emits_init : emits P (init E).
Proof. unfold init. emits_auto HP. Qed.

Lemma emits_printCert_loop cert : forall i, emits P (printCert_loop i cert).
Proof. induction cert as [|v cert IH]; intros i; simpl; emits_auto HP. apply IH. Qed.

Lemma emits_printCert cert : emits P (printCert cert).
Proof.
  unfold printCert. destruct cert; [emits_auto HP |].
  apply (emits_bind _ _ HP); [apply emits_printCert_loop | intros; emits_auto HP].
Qed.

Lemma emits_mkdir_all dirs : emits P (mkdir_all E dirs).
Proof. induction dirs as [|v dirs IH]; simpl; emits_auto HP. done. Qed.

Lemma emits_tmpl_Execute file out : emits P (tmpl_Execute file out).
Proof. unfold tmpl_Execute. emits_auto HP. Qed.

Lemma emits_SetupDir : emits P (SetupDir E).
Proof.
  unfold SetupDir.
  apply (emits_bind _ _ HP); [emits_auto HP | intros s].
  apply (emits_bind _ _ HP); [apply emits_mkdir_all | intros _].
  unfold os_Chmod, os_Create, file_Close, file_Write, os_Stat,
    template_ParseFiles, tmpl_Execute.
  emits_auto HP.
Qed.

Lemma emits_emit_go name server data : emits P (emit_go E name server data).
Proof. unfold emit_go, tmpl_Execute, file_Close. emits_auto HP. Qed.

Lemma emits_Cert2Lang :
  (forall file, ordinary in_Cert2Lang (Ext (InfoEndDate file))) ->
  emits P (Cert2Lang E).
Proof.
  intros Hord. unfold Cert2Lang, ioutil_ReadFile, os_Create.
  repeat first [ apply emits_emit_go
               | apply (emits_call_ext _ _ HP); apply Hord
               | emits_step HP ].
Qed.

Lemma emits_glob_and_print pattern :
  (forall cert, ordinary in_main (printCert_f cert)) ->
  emits P (glob_and_print E pattern).
Proof.
  intros Hord. unfold glob_and_print, filepath_Glob.
  repeat first [ apply (emits_call_main _ _ HP);
                   [apply Hord | apply emits_printCert]
               | emits_step HP ].
Qed.

Lemma emits_main_list f args :
  (forall cert, ordinary in_main (printCert_f cert)) ->
  emits P (main_list E f args).
Proof.
  intros Hord. unfold main_list, os_Exit.
  destruct (length args =? 0)%nat; [| emits_auto HP].
  repeat first [ apply emits_glob_and_print; assumption
               | match goal with
                 | |- emits _ (if ?b then _ else _) => destruct b
                 end
               | emits_step HP ].
Qed.

Lemma emits_index0 args : emits P (index0 args).
Proof. destruct args; [apply (emits_stop _ _ HP) | apply (emits_ret _ _ HP)]. Qed.

Lemma emits_byte0 v : emits P (byte0 v).
Proof. destruct v; [apply (emits_stop _ _ HP) | apply (emits_ret _ _ HP)]. Qed.

Lemma emits_main_paths f args : emits P (main_paths f args).
Proof.
  unfold main_paths.
  repeat first [ apply emits_index0 | apply emits_byte0
               | match goal with
                 | |- emits _ (if ?b then _ else _) => destruct b
                 end
               | emits_step HP ].
Qed.

Lemma emits_print_ext f :
  ordinary in_main (Ext f) -> emits P (print_ext E f).
Proof.
  intros Hord. unfold print_ext.
  apply (emits_bind _ _ HP);
    [by apply (emits_call_ext _ _ HP) | intros; emits_auto HP].
Qed.

Ltac emits_prog Hord :=
  repeat first
    [ apply (emits_call_ext _ _ HP); by apply Hord
    | apply emits_print_ext; by apply Hord
    | match goal with
      | |- emits _ (if ?b then _ else _) => destruct b
      end
    | emits_step HP ].

Lemma emits_main_check f filename :
  (forall x, is_query x = true -> ordinary in_main (Ext x)) ->
  emits P (main_check E f filename).
Proof. intros Hord. unfold main_check, os_Exit. emits_prog Hord. Qed.

Lemma emits_main_cat f filename :
  (forall x, is_query x = true -> ordinary in_main (Ext x)) ->
  emits P (main_cat E f filename).
Proof. intros Hord. unfold main_cat, os_Exit. emits_prog Hord. Qed.

Lemma emits_main_info f filename :
  (forall x, is_query x = true -> ordinary in_main (Ext x)) ->
  emits P (main_info E f filename).
Proof. intros Hord. unfold main_info, os_Exit. emits_prog Hord. Qed.

Lemma emits_main_request f isExit :
  ordinary in_main (Ext NewRequest) -> emits P (main_request E f isExit).
Proof. intros Hord. unfold main_request. emits_prog Hord. Qed.



Lemma emits_main_new f :
  ordinary in_main SetupDir_f -> emits P (main_new E f).
Proof.
  intros Hord. unfold main_new.
  repeat first
    [ apply (emits_call_main _ _ HP); [done | apply emits_SetupDir]
    | emits_step HP ].
Qed.

Lemma emits_main_ca f :
  ordinary in_main (Ext BuildCA) -> emits P (main_ca E f).
Proof. intros Hord. unfold main_ca. emits_prog Hord. Qed.

(** [main] adds what its parts add. *)
Lemma emits_main_body nflag f args :
  (forall cert, ordinary in_main (printCert_f cert)) ->
  (forall x, is_query x = true -> ordinary in_main (Ext x)) ->
  (forall b, emits P (main_request E f b)) ->
  (forall b, emits P (main_sign E f b)) ->
  emits P (main_golang E f) ->
  emits P (main_new E f) ->
  emits P (main_ca E f) ->
  emits P (main_body E nflag f args).
Proof.
  intros Hpc Hq Hreq Hsign Hgo Hnew Hca. unfold main_body, os_Exit.
  repeat first
    [ apply emits_main_list; assumption
    | apply emits_main_paths
    | apply emits_main_check; assumption
    | apply emits_main_cat; assumption
    | apply emits_main_info; assumption
    | apply Hreq | apply Hsign | apply Hgo | apply Hnew | apply Hca
    | emits_step HP ].
Qed.

Lemma emits_main cmd args :
  (forall f, emits P (main_body E (flag_NFlag cmd) f args)) ->
  emits P (main E cmd args).
Proof.
  intros Hbody. unfold main, os_Exit.
  apply (emits_bind _ _ HP); [emits_auto HP | intros s].
  destruct (flag_Parse cmd (Fl (G s))) as [f | [msg]]; [| emits_auto HP].
  apply (emits_bind _ _ HP); [emits_auto HP | intros _]. apply Hbody.
Qed.

Lemma emits_easycert cmd args :
  (forall f, emits P (main_body E (flag_NFlag cmd) f args)) ->
  emits P (easycert E cmd args).
Proof.
  intros Hbody. unfold easycert.
  apply (emits_bind _ _ HP); [apply emits_init | intros _].
  by apply emits_main.
Qed.

End EmitsProgram.

(** ** One invocation, one group of modes *)

Lemma modes_performed_app a b :
  modes_performed (a ++ b) = modes_performed a ++ modes_performed b.
Proof. apply omap_app. Qed.

Lemma in_group_no_modes g ev : modes_performed ev = [] -> in_group g ev.
Proof. unfold in_group. intros ->. by constructor. Qed.

Lemma in_group_prop g : trace_prop (in_group g) (in_group_call_ok g).
Proof.
  split.
  - split; [by constructor |]. intros a b Ha Hb. unfold in_group in *.
    rewrite modes_performed_app. by apply Forall_app.
  - intros op err. by constructor.
  - intros from f gl H. unfold in_group. destruct from; simpl; [| by constructor].
    constructor; [by apply H | by constructor].
Qed.

Lemma no_modes_prop :
  trace_prop (fun ev => modes_performed ev = []) not_from_main.
Proof.
  split.
  - split; [done |]. intros a b Ha Hb. by rewrite modes_performed_app, Ha, Hb.
  - done.
  - intros from f gl H. by destruct from.
Qed.

Lemma block_ret {A} g (a : A) : block g (ret a).
Proof. split; [intros s; by constructor | done]. Qed.

Lemma block_never_returns {A} g (m : M A) :
  emits (in_group g) m -> never_returns m -> block g m.
Proof.
  intros He Hn. split; [done |]. intros s [a Ha].
  destruct (Hn s) as [o Ho]. congruence.
Qed.

Lemma block_when g b m :
  emits (in_group g) m -> never_returns m -> block g (when b m).
Proof.
  intros He Hn. destruct b; [by apply block_never_returns | apply block_ret].
Qed.

Lemma block_quiet {A} g (m : M A) :
  emits (fun ev => modes_performed ev = []) m -> block g m.
Proof.
  intros H. split; [| intros s _; apply H].
  intros s. apply in_group_no_modes, H.
Qed.

Lemma block_bind {A B} g (m : M A) (k : A -> M B) :
  block g m -> (forall a, block g (k a)) -> block g (bind m k).
Proof.
  intros [He Hv] Hk. split.
  - apply (emits_bind _ _ (in_group_prop g)); [done | intros a; apply Hk].
  - intros s [b Hb]. revert Hb. rewrite bind_eq.
    destruct (result (m s)) as [a | o] eqn:Hr; simpl; [| done].
    intros Hb. rewrite modes_performed_app, Hv by (by exists a).
    apply (Hk a). by exists b.
Qed.

Lemma one_group_seq {A B} g (m : M A) (k : A -> M B) :
  block g m -> (forall a, one_group (k a)) -> one_group (bind m k).
Proof.
  intros [He Hv] Hk s. rewrite bind_eq.
  destruct (result (m s)) as [a | o] eqn:Hr; simpl.
  - destruct (Hk a (final (m s))) as [g' Hg']. exists g'.
    apply (in_group_prop g'); [| done].
    apply in_group_no_modes, Hv. by exists a.
  - exists g. apply He.
Qed.

Lemma one_group_emits {A} g (m : M A) : emits (in_group g) m -> one_group m.
Proof. intros H s. exists g. apply H. Qed.

(** The shape of lines 227-247: with a list flag the run ends there. *)
Lemma list_shape (m1 m2 : M unit) (b1 b2 : bool) s :
  let m := (isExit <- (if b1 then m1 ;; ret true else ret false) ;;
            when b2 (m2 ;; os_Exit 0) ;;
            when isExit (os_Exit 0) ;;
            ret isExit) in
  is_Val (result (m s)) -> b1 = false /\ b2 = false /\ events (m s) = [].
Proof.
  intros m [b Hb]. subst m. revert Hb. rewrite !bind_eq.
  destruct b1, b2; cbn [when ret result final events];
    rewrite ?bind_eq; cbn [ret result final events];
    try (destruct (result (m1 s)); cbn [result final events]; rewrite ?bind_eq);
    cbn [ret result final events os_Exit stop];
    try (destruct (result (m2 _)); cbn [result final events os_Exit stop]);
    try discriminate; done.
Qed.

Section Modes.

Variable E : Env.

Lemma block_main_list f args : block GList (main_list E f args).
Proof.
  split.
  - by apply (emits_main_list E _ _ (in_group_prop GList)).
  - intros s Hv. unfold main_list in *.
    destruct (length args =? 0)%nat; [| done].
    rewrite bind_eq in *. cbn [get result final events app] in *.
    assert (Hv' : is_Val (result
      ((isExit <- (if IsCertList f
                   then glob_and_print E (filepath.Join
                          [DirPath.Cert (Dir (G s)); "*" +:+ EXT_CERT]) ;; ret true
                   else ret false) ;;
        when (IsReqList f)
          (glob_and_print E (filepath.Join
             [DirPath.Root (Dir (G s)); "*" +:+ EXT_REQUEST]) ;; os_Exit 0) ;;
        when isExit (os_Exit 0) ;; ret isExit) s))).
    { destruct Hv as [b Hb]. by exists b. }
    apply list_shape in Hv' as (_ & _ & ->). done.
Qed.

Lemma block_main_paths g f args : block g (main_paths f args).
Proof. apply block_quiet. apply (emits_main_paths _ _ no_modes_prop). Qed.

Lemma block_main_check f filename : block GCheck (main_check E f filename).
Proof.
  apply block_when; [| never_tac]. unfold os_Exit.
  repeat first [ apply (emits_call_ext _ _ (in_group_prop GCheck)); by intros _
               | match goal with
                 | |- emits _ (if ?b then _ else _) => destruct b
                 end
               | emits_step (in_group_prop GCheck) ].
Qed.

Lemma emits_print_group g f :
  group_of (mode_of (Ext f)) = g -> emits (in_group g) (print_ext E f).
Proof. intros H. apply (emits_print_ext E _ _ (in_group_prop g)). by intros _. Qed.

Ltac group_prog g :=
  unfold os_Exit;
  repeat first [ apply emits_print_group; reflexivity
               | apply (emits_call_ext _ _ (in_group_prop g)); by intros _
               | match goal with
                 | |- emits _ (if ?b then _ else _) => destruct b
                 end
               | emits_step (in_group_prop g) ].

Lemma block_main_cat f filename : block GCat (main_cat E f filename).
Proof. apply block_when; [| never_tac]. group_prog GCat. Qed.

Lemma block_main_info f filename : block GInfo (main_info E f filename).
Proof. apply block_when; [| never_tac]. group_prog GInfo. Qed.

Lemma block_main_sign f isExit : block GRequestSign (main_sign E f isExit).
Proof.
  unfold main_sign. apply block_bind; [| intros _].
  - apply block_when; [| never_tac]. group_prog GRequestSign.
  - apply block_when; [| never_tac]. group_prog GRequestSign.
Qed.

Lemma block_main_golang f : block GGoLang (main_golang E f).
Proof.
  unfold main_golang. apply block_when; [| never_tac].
  unfold os_Exit.
  repeat first
    [ apply (emits_call_main _ _ (in_group_prop GGoLang));
        [by intros _ | apply (emits_Cert2Lang E _ _ (in_group_prop GGoLang)); by intros]
    | emits_step (in_group_prop GGoLang) ].
Qed.

Lemma emits_main_request_group f b :
  emits (in_group GRequestSign) (main_request E f b).
Proof. apply (emits_main_request E _ _ (in_group_prop _)). by intros _. Qed.

Lemma emits_setup_group f :
  emits (in_group GSetup) (main_new E f ;; main_ca E f).
Proof.
  apply (emits_bind _ _ (in_group_prop _)); [| intros _].
  - apply (emits_main_new E _ _ (in_group_prop _)). by intros _.
  - apply (emits_main_ca E _ _ (in_group_prop _)). by intros _.
Qed.

(** A request, when made, is followed by the end of the run: [isExit] is
    true and [main_sign] leaves. *)
Lemma returns_only_main_request f b :
  IsRequest f = true -> returns_only (fun x => x = true) (main_request E f b).
Proof.
  intros Hreq. unfold main_request. rewrite Hreq.
  repeat (apply returns_only_bind; intros ?). by apply returns_only_ret.
Qed.

Lemma never_returns_main_sign f : never_returns (main_sign E f true).
Proof. unfold main_sign. apply never_returns_bind. intros _. never_tac. Qed.

Lemma one_group_request_sign {B} f b (rest : M B) :
  one_group rest ->
  one_group (isExit <- main_request E f b ;; main_sign E f isExit ;; rest).
Proof.
  intros Hrest. destruct (IsRequest f) eqn:Hreq.
  - apply (one_group_emits GRequestSign).
    apply (emits_bind_only _ _ (in_group_prop _) (fun x => x = true));
      [apply emits_main_request_group | by apply returns_only_main_request |].
    intros x ->. apply (emits_bind_never _ _ (in_group_prop _));
      [apply block_main_sign | apply never_returns_main_sign].
  - apply (one_group_seq GRequestSign).
    + unfold main_request. rewrite Hreq. apply block_ret.
    + intros x. apply (one_group_seq GRequestSign); [apply block_main_sign | done].
Qed.

Lemma one_group_main_body nflag f args : one_group (main_body E nflag f args).
Proof.
  unfold main_body.
  apply (one_group_seq GSetup).
  { apply block_when; [| never_tac]. unfold os_Exit.
    emits_auto (in_group_prop GSetup). }
  intros _. apply (one_group_seq GList); [apply block_main_list | intros isExit].
  apply (one_group_seq GList); [apply block_main_paths | intros filename].
  apply (one_group_seq GCheck); [apply block_main_check | intros _].
  apply (one_group_seq GCat); [apply block_main_cat | intros _].
  apply (one_group_seq GInfo); [apply block_main_info | intros _].
  apply one_group_request_sign.
  apply (one_group_seq GGoLang); [apply block_main_golang | intros _].
  apply (one_group_emits GSetup), emits_setup_group.
Qed.

Lemma one_group_easycert cmd args : one_group (easycert E cmd args).
Proof.
  unfold easycert, main.
  apply (one_group_seq GSetup).
  { apply block_quiet. apply (emits_init E _ _ no_modes_prop). }
  intros _. apply (one_group_seq GSetup); [apply block_quiet | intros s].
  { apply (emits_get _ _ no_modes_prop). }
  destruct (flag_Parse cmd (Fl (G s))) as [f | [msg]].
  - apply (one_group_seq GSetup); [apply block_quiet | intros _].
    { apply (emits_modify _ _ no_modes_prop). }
    apply one_group_main_body.
  - apply (one_group_emits GSetup). unfold os_Exit.
    emits_auto (in_group_prop GSetup).
Qed.

End Modes.

(** C5: the modes are mutually exclusive up to the two combinations the
    usage text gives: of the calls that [main] makes in one run, any two
    belong to the same mode, or are the initialisation and the CA
    ([-new -ca]), or a request and its signing ([-req -sign]). *)
Theorem modes_exclusive_up_to_pairs (E : Env) (cmd : list FlagArg)
    (args : list string) (s : St) (m1 m2 : Mode) :
  m1 ∈ modes_performed (events (easycert E cmd args s)) ->
  m2 ∈ modes_performed (events (easycert E cmd args s)) ->
  m1 = m2
  \/ (m1 = MNew /\ m2 = MCA) \/ (m1 = MCA /\ m2 = MNew)
  \/ (m1 = MRequest /\ m2 = MSign) \/ (m1 = MSign /\ m2 = MRequest).
Proof.
  intros H1 H2.
  destruct (one_group_easycert E cmd args s) as [g Hg].
  unfold in_group in Hg. rewrite Forall_forall in Hg.
  pose proof (Hg m1 H1) as G1. pose proof (Hg m2 H2) as G2.
  destruct m1, m2; simpl in G1, G2; subst g; try discriminate; auto 10.
Qed.

Lemma modes_exclusive_up_to_pairs_witness :
  MNew ∈ modes_performed (events (easycert demo_env
           [SetBool f_new true; SetBool f_ca true] [] (start demo_fs [])))
  /\ MCA ∈ modes_performed (events (easycert demo_env
           [SetBool f_new true; SetBool f_ca true] [] (start demo_fs [])))
  /\ (MNew = MCA
      \/ (MNew = MNew /\ MCA = MCA) \/ (MNew = MCA /\ MCA = MNew)
      \/ (MNew = MRequest /\ MCA = MSign) \/ (MNew = MSign /\ MCA = MRequest)).
Proof.
  assert (H : modes_performed (events (easycert demo_env
            [SetBool f_new true; SetBool f_ca true] [] (start demo_fs [])))
          = [MNew; MCA]) by (vm_compute; reflexivity).
  assert (H1 : MNew ∈ modes_performed (events (easycert demo_env
            [SetBool f_new true; SetBool f_ca true] [] (start demo_fs []))))
    by (rewrite H; apply elem_of_cons; by left).
  assert (H2 : MCA ∈ modes_performed (events (easycert demo_env
            [SetBool f_new true; SetBool f_ca true] [] (start demo_fs []))))
    by (rewrite H; apply elem_of_cons; right; apply elem_of_cons; by left).
  split; [exact H1 |]. split; [exact H2 |].
  exact (modes_exclusive_up_to_pairs _ _ _ _ _ _ H1 H2).
Defined.

(** C5, as stated, fails: [-new -ca] on a fresh machine performs two
    modes, the initialisation and then the CA. *)
Lemma modes_not_exclusive :
  ~ (forall m1 m2,
       m1 ∈ modes_performed (events (easycert demo_env
              [SetBool f_new true; SetBool f_ca true] [] (start demo_fs []))) ->
       m2 ∈ modes_performed (events (easycert demo_env
              [SetBool f_new true; SetBool f_ca true] [] (start demo_fs []))) ->
       m1 = m2).
Proof.
  assert (H : modes_performed (events (easycert demo_env
            [SetBool f_new true; SetBool f_ca true] [] (start demo_fs [])))
          = [MNew; MCA]) by (vm_compute; reflexivity).
  rewrite H. intros Hall.
  assert (Heq : MNew = MCA); [| discriminate].
  apply Hall; rewrite !elem_of_cons; auto.
Qed.

(** ** Runs of single parts of [main] *)

Lemma flag_NFlag_zero cmd : flag_NFlag cmd = 0%nat -> cmd = [].
Proof.
  unfold flag_NFlag. destruct cmd as [|a cmd]; [done |]. intros H.
  apply length_zero_iff_nil in H.
  assert (Hin : flag_name a ∈ remove_dups (map flag_name (a :: cmd))).
  { apply elem_of_remove_dups. simpl. apply elem_of_cons. by left. }
  rewrite H in Hin. by apply not_elem_of_nil in Hin.
Qed.

(** A flag away from its default has been given on the command line. *)
Lemma flag_given cmd f :
  flag_Parse cmd default_flags = inl f -> f <> default_flags ->
  (flag_NFlag cmd =? 0)%nat = false.
Proof.
  intros Hp Hne. apply Nat.eqb_neq. intros H0.
  apply flag_NFlag_zero in H0. subst cmd. simpl in Hp. by inversion Hp.
Qed.

Section Parts.

Variable E : Env.

Lemma main_list_quiet f args s :
  (args = [] -> IsCertList f = false /\ IsReqList f = false) ->
  main_list E f args s = mkRun (Val false) s [].
Proof.
  intros H. unfold main_list. destruct args as [|a args]; [| done].
  destruct (H eq_refl) as [-> ->]. reflexivity.
Qed.

Lemma main_check_skip f filename s :
  IsCheck f = false -> main_check E f filename s = mkRun (Val tt) s [].
Proof. intros H. unfold main_check. by rewrite H. Qed.

Lemma main_cat_skip f filename s :
  IsCat f = false -> main_cat E f filename s = mkRun (Val tt) s [].
Proof. intros H. unfold main_cat. by rewrite H. Qed.

Lemma main_info_skip f filename s :
  IsInfo f = false -> main_info E f filename s = mkRun (Val tt) s [].
Proof. intros H. unfold main_info. by rewrite H. Qed.

Lemma main_request_skip f isExit s :
  IsRequest f = false -> main_request E f isExit s = mkRun (Val isExit) s [].
Proof. intros H. unfold main_request. by rewrite H. Qed.

Lemma main_sign_skip f s :
  IsSignReq f = false -> main_sign E f false s = mkRun (Val tt) s [].
Proof. intros H. unfold main_sign. by rewrite H. Qed.

Lemma main_golang_skip f s :
  IsGoLang f = false -> main_golang E f s = mkRun (Val tt) s [].
Proof. intros H. unfold main_golang. by rewrite H. Qed.


Lemma main_ca_skip f s :
  IsCA f = false -> main_ca E f s = mkRun (Val tt) s [].
Proof. intros H. unfold main_ca. by rewrite H. Qed.

Lemma main_paths_named f args name s :
  IsRequest f || IsSignReq f || IsCA f = true ->
  (if IsCA f then name = _NAME_CA else head args = Some name) ->
  main_paths f args s = mkRun (Val name) (resolved name s) [].
Proof.
  intros Hmode Hname. unfold main_paths. rewrite bind_eq.
  cbn [get result final events]. rewrite Hmode.
  destruct (IsCA f).
  - subst name. reflexivity.
  - destruct args as [|a args]; [discriminate |]. simpl in Hname.
    inversion Hname; subst. reflexivity.
Qed.

Lemma main_paths_new f args s :
  IsRequest f = false -> IsSignReq f = false -> IsCA f = false ->
  IsGoLang f = false -> IsNew f = true ->
  main_paths f args s = mkRun (Val "") s [].
Proof.
  intros H1 H2 H3 H4 H5. unfold main_paths. rewrite bind_eq.
  cbn [get result final events]. by rewrite H1, H2, H3, H4, H5.
Qed.

(** The guard [if _, err := os.Stat(path); !os.IsNotExist(err)]. *)
Lemma fatal_if_exists_run msg path s :
  fatal_if_exists msg path s =
  let r : Node + Errno :=
    if hd false (faults s) then inr EIO
    else match fs s !! path with
         | Some n => inl n
         | None => inr ENOENT
         end in
  if os_IsNotExist (err_of r)
  then mkRun (Val tt) (stepped s) [ESys (Stat path) (err_of r)]
  else mkRun (Stop (Fatal (msg +:+ fmt_q path)))
         (add_stderr ("FAIL! " +:+ (msg +:+ fmt_q path) +:+ nl) (stepped s))
         [ESys (Stat path) (err_of r)].
Proof.
  unfold fatal_if_exists. rewrite bind_eq. unfold os_Stat, syscall_read.
  cbn [result final events]. cbv zeta.
  destruct (hd false (faults s)); [reflexivity |].
  destruct (fs s !! path); reflexivity.
Qed.

Lemma fatal_if_exists_found msg path s :
  is_Some (fs s !! path) ->
  exists err,
    fatal_if_exists msg path s =
    mkRun (Stop (Fatal (msg +:+ fmt_q path)))
      (add_stderr ("FAIL! " +:+ (msg +:+ fmt_q path) +:+ nl) (stepped s))
      [ESys (Stat path) err]
    /\ err <> Some ENOENT.
Proof.
  intros [n Hn]. rewrite fatal_if_exists_run, Hn. cbv zeta.
  destruct (hd false (faults s)); simpl; eauto.
Qed.

Lemma fatal_if_exists_absent msg path s :
  events (fatal_if_exists msg path s) = [ESys (Stat path) (Some ENOENT)] \/
  result (fatal_if_exists msg path s) = Val tt ->
  fs s !! path = None.
Proof.
  rewrite fatal_if_exists_run. cbv zeta.
  destruct (hd false (faults s)); simpl; [intros [|]; discriminate |].
  destruct (fs s !! path); simpl; [intros [|]; discriminate | done].
Qed.

Lemma when_false m s : when false m s = mkRun (Val tt) s [].
Proof. reflexivity. Qed.

Lemma get_run s : get s = mkRun (Val s) s [].
Proof. reflexivity. Qed.

Lemma modify_run f s : modify f s = mkRun (Val tt) (f s) [].
Proof. reflexivity. Qed.

(** [main], once the flags are parsed. *)
Lemma main_parsed cmd args f s :
  flag_Parse cmd (Fl (G s)) = inl f ->
  main E cmd args s =
  main_body E (flag_NFlag cmd) f args (set_G (set_Fl (fun _ => f)) s).
Proof.
  intros Hp. unfold main. rewrite (bind_run _ _ _ _ _ _ (get_run s)), Hp.
  rewrite (bind_run _ _ _ _ _ _ (modify_run _ s)). cbn [result final events app].
  symmetry. apply run_eta.
Qed.

(** [main] up to the request: a run that is none of the lists and queries
    comes there with [filename] resolved and nothing done. *)
Lemma main_body_past_queries nflag f args s filename s1 :
  (nflag =? 0)%nat = false ->
  past_queries f args ->
  main_paths f args s = mkRun (Val filename) s1 [] ->
  main_body E nflag f args s =
  (isExit <- main_request E f false ;;
   main_sign E f isExit ;;
   main_golang E f ;;
   main_new E f ;;
   main_ca E f) s1.
Proof.
  intros Hn (Hlist & Hchk & Hcat & Hinfo) Hpaths. unfold main_body.
  rewrite Hn. rewrite (bind_run _ _ _ _ _ _ (when_false _ s)).
  rewrite (bind_run _ _ _ _ _ _ (main_list_quiet f args s Hlist)).
  rewrite (bind_run _ _ _ _ _ _ Hpaths).
  rewrite (bind_run _ _ _ _ _ _ (main_check_skip f filename s1 Hchk)).
  rewrite (bind_run _ _ _ _ _ _ (main_cat_skip f filename s1 Hcat)).
  rewrite (bind_run _ _ _ _ _ _ (main_info_skip f filename s1 Hinfo)).
  cbn [result final events app].
  symmetry. apply run_eta.
Qed.

(** ... and up to -new, when it is none of the other modes either. *)
Lemma main_body_setup nflag f args s filename s1 :
  (nflag =? 0)%nat = false ->
  is_setup_mode f args ->
  main_paths f args s = mkRun (Val filename) s1 [] ->
  main_body E nflag f args s = (main_new E f ;; main_ca E f) s1.
Proof.
  intros Hn (Hq & Hreq & Hsign & Hgo) Hpaths.
  rewrite (main_body_past_queries _ _ _ _ _ _ Hn Hq Hpaths).
  rewrite (bind_run _ _ _ _ _ _ (main_request_skip f false s1 Hreq)).
  rewrite (bind_run _ _ _ _ _ _ (main_sign_skip f s1 Hsign)).
  rewrite (bind_run _ _ _ _ _ _ (main_golang_skip f s1 Hgo)).
  cbn [result final events app].
  symmetry. apply run_eta.
Qed.

(** In that part of [main] the paths have been set for "ca" under -ca and
    left alone else; the file system is as it was either way. *)
Lemma main_paths_setup f args s :
  IsRequest f = false -> IsSignReq f = false -> IsGoLang f = false ->
  IsNew f = true \/ IsCA f = true ->
  exists filename,
    main_paths f args s =
    mkRun (Val filename) (if IsCA f then resolved _NAME_CA s else s) [].
Proof.
  intros Hreq Hsign Hgo Hmode. destruct (IsCA f) eqn:Hca.
  - exists _NAME_CA. apply main_paths_named; [| by rewrite Hca].
    by rewrite Hreq, Hsign, Hca.
  - exists "". destruct Hmode as [Hnew | ?]; [| done].
    by apply main_paths_new.
Qed.

Lemma main_new_found f s :
  IsNew f = true ->
  is_Some (fs s !! DirPath.Root (Dir (G s))) ->
  exists err,
    main_new E f s =
    mkRun (Stop (Fatal ("The directory structure exists: " +:+
                        fmt_q (DirPath.Root (Dir (G s))))))
      (add_stderr ("FAIL! " +:+ ("The directory structure exists: " +:+
                      fmt_q (DirPath.Root (Dir (G s)))) +:+ nl) (stepped s))
      [ESys (Stat (DirPath.Root (Dir (G s)))) err]
    /\ err <> Some ENOENT.
Proof.
  intros Hnew Hroot. unfold main_new. rewrite Hnew. cbn [when].
  rewrite (bind_run _ _ _ _ _ _ (get_run s)).
  destruct (fatal_if_exists_found "The directory structure exists: " _ s Hroot)
    as (err & Hrun & Herr).
  exists err. split; [| done].
  rewrite (bind_stop _ _ _ _ _ _ Hrun). reflexivity.
Qed.

End Parts.

(** ** The directory initialiser on an existing root *)

(** C2: [-new] on a root directory that exists ends in [log.Fatal] with
    the message of line 359, after one [Stat] of the root and nothing
    else: no directory or file is created or changed, and nothing is
    printed. *)
Theorem new_on_existing_root_fails (E : Env) (cmd : list FlagArg)
    (args : list string) (f : Flags) (s : St) :
  Fl (G s) = default_flags ->
  flag_Parse cmd default_flags = inl f ->
  IsNew f = true ->
  is_setup_mode f args ->
  is_Some (fs s !! DirPath.Root (Dir (G s))) ->
  let r := main E cmd args s in
  let root := DirPath.Root (Dir (G s)) in
  result r = Stop (Fatal ("The directory structure exists: " +:+ fmt_q root))
  /\ fs (final r) = fs s
  /\ stdout (final r) = stdout s
  /\ exists err, events r = [ESys (Stat root) err].
Proof.
  intros Hfl Hparse Hnew Hmode Hroot r root. subst r root.
  assert (Hn : (flag_NFlag cmd =? 0)%nat = false).
  { apply (flag_given cmd f Hparse). intros ->. discriminate. }
  rewrite <- Hfl in Hparse. rewrite (main_parsed E cmd args f s Hparse).
  destruct Hmode as (Hq & Hreq & Hsign & Hgo).
  destruct (main_paths_setup f args (set_G (set_Fl (fun _ => f)) s)
              Hreq Hsign Hgo (or_introl Hnew)) as (filename & Hpaths).
  rewrite (main_body_setup E _ _ _ _ _ _ Hn (conj Hq (conj Hreq (conj Hsign Hgo))) Hpaths).
  match goal with
  | |- context [(main_new E f ;; main_ca E f) ?s1] =>
      destruct (main_new_found E f s1 Hnew) as (err & Hrun & _);
        [by destruct (IsCA f) |];
        rewrite (bind_stop _ _ _ _ _ _ Hrun)
  end.
  cbn [result final events].
  destruct (IsCA f); repeat split; eauto.
Qed.

Lemma new_on_existing_root_fails_witness :
  Fl (G (demo_state demo_fs_ca [])) = default_flags
  /\ flag_Parse [SetBool f_new true] default_flags
     = inl (set_bool f_new true default_flags)
  /\ is_Some (fs (demo_state demo_fs_ca [])
               !! DirPath.Root (Dir (G (demo_state demo_fs_ca []))))
  /\ result (main demo_env [SetBool f_new true] [] (demo_state demo_fs_ca []))
     = Stop (Fatal ("The directory structure exists: " +:+ fmt_q "/home/u/.cert"))
  /\ fs (final (main demo_env [SetBool f_new true] [] (demo_state demo_fs_ca [])))
     = demo_fs_ca.
Proof.
  assert (Hroot : is_Some (fs (demo_state demo_fs_ca [])
                    !! DirPath.Root (Dir (G (demo_state demo_fs_ca []))))).
  { exists (NDir (octal 7 5 5)). vm_compute. reflexivity. }
  split; [reflexivity |]. split; [reflexivity |]. split; [exact Hroot |].
  destruct (new_on_existing_root_fails demo_env [SetBool f_new true] []
              (set_bool f_new true default_flags) (demo_state demo_fs_ca [])
              eq_refl eq_refl eq_refl) as (Hres & Hfs & _).
  - repeat split; done.
  - exact Hroot.
  - split; [exact Hres | exact Hfs].
Defined.

(** ** A mode that needs a name, without one *)

(** Without an argument, and when no list is asked for, the [switch] of
    [main] indexes the empty [flag.Args()] unless -ca, -lang-go or -new
    keep it from that. *)
Lemma main_body_no_name_panics (E : Env) (nflag : nat) (f : Flags) (s : St) :
  (nflag =? 0)%nat = false ->
  IsCertList f = false -> IsReqList f = false -> IsCA f = false ->
  IsRequest f || IsSignReq f = true \/ (IsGoLang f = false /\ IsNew f = false) ->
  main_body E nflag f [] s
  = mkRun (Stop (Panic "runtime error: index out of range")) s [].
Proof.
  intros Hn Hlc Hlr Hca Hmode. unfold main_body. rewrite Hn.
  rewrite (bind_run _ _ _ _ _ _ (when_false _ s)).
  rewrite (bind_run _ _ _ _ _ _ (main_list_quiet E f [] s (fun _ => conj Hlc Hlr))).
  assert (Hp : main_paths f [] s
               = mkRun (Stop (Panic "runtime error: index out of range")) s []).
  { unfold main_paths. rewrite (bind_run _ _ _ _ _ _ (get_run s)). rewrite Hca.
    destruct Hmode as [Hrs | [Hgo Hnew]].
    - rewrite orb_false_r, Hrs. reflexivity.
    - rewrite Hgo, Hnew. destruct (IsRequest f || IsSignReq f); reflexivity. }
  rewrite (bind_stop _ _ _ _ _ _ Hp). reflexivity.
Qed.

(** C3: [easycert -req] without a name does not end in a message of the
    program: the run panics on [flag.Args()[0]], and nothing has been
    written to the log. *)
Theorem request_without_name_panics :
  result (easycert demo_env [SetBool f_req true] [] (start demo_fs []))
  = Stop (Panic "runtime error: index out of range")
  /\ stderr (final (easycert demo_env [SetBool f_req true] [] (start demo_fs []))) = [].
Proof. split; vm_compute; reflexivity. Qed.

(** ** The certification authority *)

Lemma events_call_ext E from f s :
  events (call_ext E from f s) = [ECall from (Ext f) (G s)].
Proof.
  unfold call_ext. rewrite (bind_run _ _ _ _ _ _ (get_run s)).
  rewrite bind_eq. cbn [emit result final events app].
  destruct (env_ext E f (G s) (fs s)) as [[out | msg] m]; reflexivity.
Qed.




(** ** Output files that exist already *)

Lemma guarded_nil : guarded [].
Proof. intros pre f g post H. by destruct pre. Qed.

Lemma guarded_app a b : guarded a -> guarded b -> guarded (a ++ b).
Proof.
  intros Ha Hb pre f g post H.
  apply app_eq_app in H as [l [[-> H] | [-> H]]].
  - destruct l as [|e l].
    + simpl in H. destruct (Hb [] f g post) as [pre' Hpre]; [done |].
      exists pre.
      destruct pre', (guard_of f g); try discriminate. by rewrite app_nil_r.
    + simpl in H. inversion H; subst.
      by apply (Ha pre f g l).
  - destruct (Hb l f g post) as [pre' ->]; [done |].
    exists (a ++ pre'). by rewrite app_assoc.
Qed.

Lemma guarded_sys op err : guarded [ESys op err].
Proof.
  intros pre f g post H. destruct pre as [|e [|e' pre]]; discriminate.
Qed.

Lemma guarded_prop : trace_prop guarded unguarded.
Proof.
  split; [split; [apply guarded_nil | apply guarded_app] | apply guarded_sys |].
  intros from f g Hf pre f' g' post H.
  destruct pre as [|e [|e' pre]]; try discriminate.
  inversion H; subst. exists []. by rewrite (Hf eq_refl).
Qed.

(** A guard that has let the run pass, and the call after it. *)
Lemma guarded_after_guard f g :
  guarded (guard_of f g ++ [ECall in_main f g]).
Proof.
  intros pre f' g' post H.
  assert (Hne : forall e, e ∈ guard_of f g -> forall f0 g0, e <> ECall in_main f0 g0).
  { intros e He f0 g0 ->. destruct f as [[]| | |]; simpl in He;
      rewrite ?elem_of_cons, ?elem_of_nil in He; intuition discriminate. }
  apply app_eq_app in H as [l [[Hg H] | [-> H]]].
  - destruct l as [|e l].
    + simpl in H. inversion H; subst. exists []. by rewrite app_nil_r in Hg.
    + simpl in H. inversion H; subst. exfalso.
      apply (Hne (ECall in_main f' g')) with (f0 := f') (g0 := g'); [| done].
      rewrite Hg. apply elem_of_app. right. apply elem_of_cons. by left.
  - destruct l as [|e [|e' l]]; try discriminate.
    inversion H; subst. exists []. by rewrite app_nil_r.
Qed.

Section Guards.

Variable E : Env.

Lemma guarded_call_main {A} f (body : M A) s :
  guarded (events (body s)) ->
  forall pre, pre = guard_of f (G s) ->
  guarded (pre ++ events (call_main f body s)).
Proof.
  intros Hb pre ->. unfold call_main.
  rewrite (bind_run _ _ _ _ _ _ (get_run s)). rewrite bind_eq.
  cbn [emit result final events app].
  change (ECall in_main f (G s) :: events (body s))
    with ([ECall in_main f (G s)] ++ events (body s)).
  rewrite app_assoc. apply guarded_app; [apply guarded_after_guard | done].
Qed.

Lemma guarded_call_ext f s :
  forall pre, pre = guard_of (Ext f) (G s) ->
  guarded (pre ++ events (call_ext E in_main f s)).
Proof. intros pre ->. rewrite events_call_ext. apply guarded_after_guard. Qed.

(** The request: line 327 guards line 330. *)
Lemma main_request_guarded f b : emits guarded (main_request E f b).
Proof.
  intros s. unfold main_request. destruct (IsRequest f); [| apply guarded_nil].
  rewrite (bind_run _ _ _ _ _ _ (get_run s)). rewrite bind_eq.
  rewrite fatal_if_exists_run. cbv zeta.
  destruct (hd false (faults s)); cbn [err_of os_IsNotExist result final events app];
    [apply guarded_sys |].
  destruct (fs s !! FilePath.Request (File (G s))) as [n |];
    cbn [err_of os_IsNotExist result final events app]; [apply guarded_sys |].
  rewrite bind_eq.
  assert (Hg : guarded ([ESys (Stat (FilePath.Request (File (G s)))) (Some ENOENT)]
                        ++ events (call_ext E in_main NewRequest (stepped s)))).
  { by apply guarded_call_ext. }
  destruct (result (call_ext E in_main NewRequest (stepped s)));
    cbn [result final events ret app]; rewrite ?app_nil_r; exact Hg.
Qed.

(** The signing: line 334 guards line 340. *)
Lemma main_sign_guarded f b : emits guarded (main_sign E f b).
Proof.
  intros s. unfold main_sign.
  apply (emits_bind _ _ guarded_prop); [| intros; unfold os_Exit; emits_auto guarded_prop].
  clear s. intros s. destruct (IsSignReq f); [| apply guarded_nil]. cbn [when].
  rewrite (bind_run _ _ _ _ _ _ (get_run s)). rewrite bind_eq.
  rewrite fatal_if_exists_run. cbv zeta.
  destruct (hd false (faults s)); cbn [err_of os_IsNotExist result final events app];
    [apply guarded_sys |].
  destruct (fs s !! FilePath.Cert (File (G s))) as [n |];
    cbn [err_of os_IsNotExist result final events app]; [apply guarded_sys |].
  assert (Hg : forall s', G s' = G (stepped s) ->
            guarded ([ESys (Stat (FilePath.Cert (File (G s)))) (Some ENOENT)]
                     ++ events (call_ext E in_main SignReq s'))).
  { intros s' Hs'. apply guarded_call_ext. by rewrite Hs'. }
  destruct b; cbn [when];
    rewrite ?(bind_eq (fmt_Print _)), ?(bind_eq (ret tt));
    cbn [fmt_Print modify ret result final events app]; rewrite bind_eq;
    match goal with
    | |- context [call_ext E in_main SignReq ?s'] =>
        specialize (Hg s' eq_refl);
        destruct (result (call_ext E in_main SignReq s'))
    end; cbn [result final events os_Exit stop app]; rewrite ?app_nil_r; exact Hg.
Qed.

Lemma events_then_exit {A} (m : M A) s :
  events ((m ;; @os_Exit unit 0) s) = events (m s).
Proof.
  rewrite bind_eq. destruct (result (m s)); cbn [events os_Exit stop];
    by rewrite ?app_nil_r.
Qed.

(** The Go files: lines 348-352 guard line 353. *)
Lemma main_golang_guarded f : emits guarded (main_golang E f).
Proof.
  intros s. unfold main_golang. destruct (IsGoLang f); [| apply guarded_nil].
  cbn [when]. rewrite bind_eq, fatal_if_exists_run. cbv zeta.
  destruct (hd false (faults s)); cbn [err_of os_IsNotExist result final events app];
    [apply guarded_sys |].
  destruct (fs s !! _FILE_SERVER_GO) as [n |];
    cbn [err_of os_IsNotExist result final events app]; [apply guarded_sys |].
  rewrite bind_eq, fatal_if_exists_run. cbv zeta.
  destruct (hd false (faults (stepped s)));
    cbn [err_of os_IsNotExist result final events app];
    [apply (guarded_app [_] [_]); apply guarded_sys |].
  destruct (fs (stepped s) !! _FILE_CLIENT_GO) as [n |];
    cbn [err_of os_IsNotExist result final events app];
    [apply (guarded_app [_] [_]); apply guarded_sys |].
  rewrite events_then_exit.
  change (guarded (guard_of Cert2Lang_f (G (stepped (stepped s)))
                   ++ events (call_main Cert2Lang_f (Cert2Lang E) (stepped (stepped s))))).
  apply guarded_call_main; [| reflexivity].
  apply (emits_Cert2Lang E _ _ guarded_prop). intros file Hfrom. discriminate.
Qed.

(** The directories: line 358 guards line 361. *)
Lemma main_new_guarded f : emits guarded (main_new E f).
Proof.
  intros s. unfold main_new. destruct (IsNew f); [| apply guarded_nil].
  cbn [when]. rewrite (bind_run _ _ _ _ _ _ (get_run s)). rewrite bind_eq.
  rewrite fatal_if_exists_run. cbv zeta.
  destruct (hd false (faults s)); cbn [err_of os_IsNotExist result final events app];
    [apply guarded_sys |].
  destruct (fs s !! DirPath.Root (Dir (G s))) as [n |];
    cbn [err_of os_IsNotExist result final events app]; [apply guarded_sys |].
  change (guarded (guard_of SetupDir_f (G (stepped s))
                   ++ events (call_main SetupDir_f (SetupDir E) (stepped s)))).
  apply guarded_call_main; [| reflexivity].
  apply (emits_SetupDir E _ _ guarded_prop).
Qed.

Lemma easycert_guarded cmd args : emits guarded (easycert E cmd args).
Proof.
  apply (emits_easycert E _ _ guarded_prop). intros f.
  apply (emits_main_body E _ _ guarded_prop).
  - intros cert _ g. reflexivity.
  - intros x Hx _ g. by destruct x.
  - apply main_request_guarded.
  - apply main_sign_guarded.
  - apply main_golang_guarded.
  - apply main_new_guarded.
  - apply (emits_main_ca E _ _ guarded_prop). intros _ g. reflexivity.
Qed.

(** What the guards do when the target is there. *)

Lemma main_request_found f b s :
  IsRequest f = true ->
  is_Some (fs s !! FilePath.Request (File (G s))) ->
  exists err,
    main_request E f b s =
    mkRun (Stop (Fatal ("Certificate request already exists: " +:+
                        fmt_q (FilePath.Request (File (G s))))))
      (add_stderr ("FAIL! " +:+ ("Certificate request already exists: " +:+
                      fmt_q (FilePath.Request (File (G s)))) +:+ nl) (stepped s))
      [ESys (Stat (FilePath.Request (File (G s)))) err].
Proof.
  intros Hreq Hfile. unfold main_request. rewrite Hreq.
  rewrite (bind_run _ _ _ _ _ _ (get_run s)).
  destruct (fatal_if_exists_found "Certificate request already exists: " _ s Hfile)
    as (err & Hrun & _).
  exists err. rewrite (bind_stop _ _ _ _ _ _ Hrun). reflexivity.
Qed.

Lemma main_sign_found f b s :
  IsSignReq f = true ->
  is_Some (fs s !! FilePath.Cert (File (G s))) ->
  exists err,
    main_sign E f b s =
    mkRun (Stop (Fatal ("Certificate already exists: " +:+
                        fmt_q (FilePath.Cert (File (G s))))))
      (add_stderr ("FAIL! " +:+ ("Certificate already exists: " +:+
                      fmt_q (FilePath.Cert (File (G s)))) +:+ nl) (stepped s))
      [ESys (Stat (FilePath.Cert (File (G s)))) err].
Proof.
  intros Hsign Hfile. unfold main_sign. rewrite Hsign. cbn [when].
  destruct (fatal_if_exists_found "Certificate already exists: " _ s Hfile)
    as (err & Hrun & _).
  exists err.
  rewrite bind_eq. rewrite (bind_run _ _ _ _ _ _ (get_run s)).
  rewrite (bind_stop _ _ _ _ _ _ Hrun). reflexivity.
Qed.

Lemma main_golang_found f s :
  IsGoLang f = true ->
  is_Some (fs s !! _FILE_SERVER_GO) \/ is_Some (fs s !! _FILE_CLIENT_GO) ->
  exists v,
    result (main_golang E f s) = Stop (Fatal ("File already exists: " +:+ fmt_q v))
    /\ (v = _FILE_SERVER_GO \/ v = _FILE_CLIENT_GO)
    /\ fs (final (main_golang E f s)) = fs s
    /\ Forall (fun e => exists p err, e = ESys (Stat p) err)
         (events (main_golang E f s)).
Proof.
  intros Hgo Hfile. unfold main_golang. rewrite Hgo. cbn [when].
  destruct (fs s !! _FILE_SERVER_GO) as [n |] eqn:Hsrv.
  - destruct (fatal_if_exists_found "File already exists: " _FILE_SERVER_GO s)
      as (err & Hrun & _); [by rewrite Hsrv |].
    exists _FILE_SERVER_GO. rewrite (bind_stop _ _ _ _ _ _ Hrun).
    repeat split; eauto; repeat constructor; eauto.
  - destruct Hfile as [[? ?] | Hcl]; [discriminate |].
    rewrite bind_eq, fatal_if_exists_run, Hsrv. cbv zeta.
    destruct (hd false (faults s));
      cbn [err_of os_IsNotExist result final events app].
    + exists _FILE_SERVER_GO. repeat split; eauto; repeat constructor; eauto.
    + destruct (fatal_if_exists_found "File already exists: " _FILE_CLIENT_GO
                  (stepped s)) as (err & Hrun & _); [done |].
      exists _FILE_CLIENT_GO. rewrite (bind_stop _ _ _ _ _ _ Hrun).
      cbn [result final events app].
      repeat split; eauto; repeat constructor; eauto.
Qed.

End Guards.

(** C7: each of the four operations that create files is kept from a
    target that exists.  When the run comes to the request, the signing,
    the Go files or the directories and the target is there, it ends in
    [log.Fatal] with the message of that operation, having done nothing
    but [Stat]: the file system is as it was.  And in every run, each
    call of [NewRequest], [SignReq], [Cert2Lang] and [SetupDir] comes
    right after the [Stat] of its targets has answered that they do not
    exist, which [Stat] answers only for a path that is not there. *)
Theorem existing_output_is_fatal (E : Env) :
  (forall f b s,
     IsRequest f = true ->
     is_Some (fs s !! FilePath.Request (File (G s))) ->
     result (main_request E f b s)
     = Stop (Fatal ("Certificate request already exists: " +:+
                    fmt_q (FilePath.Request (File (G s)))))
     /\ fs (final (main_request E f b s)) = fs s
     /\ exists err, events (main_request E f b s)
                    = [ESys (Stat (FilePath.Request (File (G s)))) err])
  /\ (forall f b s,
       IsSignReq f = true ->
       is_Some (fs s !! FilePath.Cert (File (G s))) ->
       result (main_sign E f b s)
       = Stop (Fatal ("Certificate already exists: " +:+
                      fmt_q (FilePath.Cert (File (G s)))))
       /\ fs (final (main_sign E f b s)) = fs s
       /\ exists err, events (main_sign E f b s)
                      = [ESys (Stat (FilePath.Cert (File (G s)))) err])
  /\ (forall f s,
       IsGoLang f = true ->
       is_Some (fs s !! _FILE_SERVER_GO) \/ is_Some (fs s !! _FILE_CLIENT_GO) ->
       exists v,
         result (main_golang E f s)
         = Stop (Fatal ("File already exists: " +:+ fmt_q v))
         /\ (v = _FILE_SERVER_GO \/ v = _FILE_CLIENT_GO)
         /\ fs (final (main_golang E f s)) = fs s
         /\ Forall (fun e => exists p err, e = ESys (Stat p) err)
              (events (main_golang E f s)))
  /\ (forall f s,
       IsNew f = true ->
       is_Some (fs s !! DirPath.Root (Dir (G s))) ->
       result (main_new E f s)
       = Stop (Fatal ("The directory structure exists: " +:+
                      fmt_q (DirPath.Root (Dir (G s)))))
       /\ fs (final (main_new E f s)) = fs s
       /\ exists err, events (main_new E f s)
                      = [ESys (Stat (DirPath.Root (Dir (G s)))) err])
  /\ (forall cmd args s pre f g post,
       events (easycert E cmd args s) = pre ++ ECall in_main f g :: post ->
       exists pre', pre = pre' ++ guard_of f g)
  /\ (forall msg path s,
       events (fatal_if_exists msg path s) = [ESys (Stat path) (Some ENOENT)] ->
       fs s !! path = None).
Proof.
  split; [| split; [| split; [| split; [| split]]]].
  - intros f b s Hreq Hfile.
    destruct (main_request_found E f b s Hreq Hfile) as (err & ->). eauto.
  - intros f b s Hsign Hfile.
    destruct (main_sign_found E f b s Hsign Hfile) as (err & ->). eauto.
  - intros f s Hgo Hfile. by apply main_golang_found.
  - intros f s Hnew Hroot.
    destruct (main_new_found E f s Hnew Hroot) as (err & -> & _). eauto.
  - intros cmd args s pre f g post Hev.
    by apply (easycert_guarded E cmd args s pre f g post).
  - intros msg path s Hev. apply (fatal_if_exists_absent msg path s). by left.
Qed.

Lemma existing_output_is_fatal_witness :
  IsRequest (set_bool f_req true default_flags) = true
  /\ is_Some (fs (resolved "www" (demo_state demo_fs_ca []))
               !! FilePath.Request (File (G (resolved "www" (demo_state demo_fs_ca [])))))
  /\ result (main_request demo_env (set_bool f_req true default_flags) false
               (resolved "www" (demo_state demo_fs_ca [])))
     = Stop (Fatal ("Certificate request already exists: " +:+
                    fmt_q "/home/u/.cert/www.csr"))
  /\ fs (final (main_request demo_env (set_bool f_req true default_flags) false
                  (resolved "www" (demo_state demo_fs_ca []))))
     = demo_fs_ca.
Proof.
  assert (Hfile : is_Some (fs (resolved "www" (demo_state demo_fs_ca []))
            !! FilePath.Request (File (G (resolved "www" (demo_state demo_fs_ca [])))))).
  { exists (NFile (octal 6 4 4) "CSR"). vm_compute. reflexivity. }
  split; [reflexivity |]. split; [exact Hfile |].
  destruct (existing_output_is_fatal demo_env) as (Hreq & _).
  destruct (Hreq (set_bool f_req true default_flags) false
              (resolved "www" (demo_state demo_fs_ca [])) eq_refl Hfile)
    as (Hres & Hfs & _).
  split; [exact Hres | exact Hfs].
Defined.

(** ** The directories that [SetupDir] leaves *)

Lemma ensures_bind {A B} P (m : M A) (k : A -> M B) Q R :
  ensures P m Q -> (forall a, ensures (Q a) (k a) R) -> ensures P (bind m k) R.
Proof.
  intros Hm Hk s b HP. rewrite bind_eq.
  destruct (result (m s)) as [a | o] eqn:Hr; cbn [result final]; [| done].
  intros Hb. apply (Hk a (final (m s)) b); [by apply Hm | done].
Qed.

Lemma ensures_weaken {A} (P P' : gmap string Node -> Prop) (m : M A)
    (Q Q' : A -> gmap string Node -> Prop) :
  ensures P' m Q' -> (forall x, P x -> P' x) -> (forall a x, Q' a x -> Q a x) ->
  ensures P m Q.
Proof. intros H HP HQ s a Hs Hr. apply HQ, H; auto. Qed.

(** A step that leaves the file system as it is. *)
Lemma ensures_same {A} P (m : M A) :
  (forall s, fs (final (m s)) = fs s) -> ensures P m (fun _ => P).
Proof. intros H s a HP _. by rewrite H. Qed.

Lemma ensures_never {A} P (m : M A) Q : never_returns m -> ensures P m Q.
Proof. intros H s a _ Hr. destruct (H s) as [o Ho]. congruence. Qed.

Lemma ensures_fatal_on_error {A} P op path (r : A + Errno) :
  ensures P (fatal_on_error op path r) (fun a x => r = inl a /\ P x).
Proof.
  destruct r as [a | e]; [| apply ensures_never, never_returns_log_Fatal].
  intros s a' HP [= <-]. done.
Qed.

(** A checked step: [r <- step ;; x <- fatal_on_error r ;; k x]. *)
Lemma ensures_checked {A B} P (step : M (A + Errno)) op path (k : A -> M B) Q R :
  ensures P step (fun r x => forall a, r = inl a -> Q a x) ->
  (forall a, ensures (Q a) (k a) R) ->
  ensures P (r <- step ;; x <- fatal_on_error op path r ;; k x) R.
Proof.
  intros Hs Hk.
  apply (ensures_bind _ _ _ (fun r x => forall a, r = inl a -> Q a x)); [done |].
  intros r.
  apply (ensures_bind _ _ _ (fun a x => Q a x)); [| done].
  destruct r as [a | e]; [| apply ensures_never, never_returns_log_Fatal].
  intros s a' HQ [= <-]. by apply HQ.
Qed.

Lemma dirs_are_insert_other L m p n :
  dirs_are L m -> (forall v, m !! p <> Some (NDir v)) -> dirs_are L (<[p := n]> m).
Proof.
  intros HL Hp d v Hd. rewrite lookup_insert_ne; [by apply HL |].
  intros ->. apply (Hp v). by apply HL.
Qed.

Lemma is_file_insert_other path m p n :
  is_file path m -> (exists q c, n = NFile q c) -> is_file path (<[p := n]> m).
Proof.
  intros (q & c & Hf) (q' & c' & ->). destruct (decide (p = path)) as [-> |].
  - exists q', c'. by rewrite lookup_insert_eq.
  - exists q, c. by rewrite lookup_insert_ne.
Qed.

Section SetupDirState.

Variable E : Env.

Lemma fs_syscall_read {A} op f d s :
  fs (final (@syscall_read A op f d s)) = fs s.
Proof. reflexivity. Qed.

Lemma fs_envcall {A} op v s : fs (final (@envcall A op v s)) = fs s.
Proof. by destruct v. Qed.

(** The steps on regular files keep the directories. *)
Lemma ensures_Create L path :
  ensures (dirs_are L) (os_Create (env_umask E) path)
    (fun r x => forall a, r = inl a -> a = path /\ dirs_are L x /\ is_file path x).
Proof.
  intros s r HL. unfold os_Create, syscall. cbv zeta.
  destruct (hd false (faults s)); cbn [result final fs set_fs];
    [by intros [= <-] |].
  destruct (fs s !! path) as [[v | p c] |] eqn:Hp; cbn [fst snd];
    intros [= <-]; intros a [= <-]; (split; [done |]); split;
    try (apply dirs_are_insert_other; [done | intros v; by rewrite Hp]);
    eexists _, _; apply lookup_insert_eq.
Qed.

Lemma ensures_Write L file data :
  ensures (dirs_are L) (file_Write file data) (fun _ => dirs_are L).
Proof.
  intros s r HL. unfold file_Write, syscall. cbv zeta.
  destruct (hd false (faults s)); cbn [result final fs set_fs]; [done |].
  destruct (fs s !! file) as [[v | p c] |] eqn:Hp; cbn [fst snd]; try done.
  intros _. apply dirs_are_insert_other; [done | intros v; by rewrite Hp].
Qed.

Lemma ensures_Execute L path file out :
  ensures (fun x => dirs_are L x /\ is_file path x) (tmpl_Execute file out)
    (fun _ x => dirs_are L x /\ is_file path x).
Proof.
  intros s r [HL Hf]. unfold tmpl_Execute, syscall. cbv zeta.
  destruct (hd false (faults s)); cbn [result final fs set_fs]; [done |].
  destruct (fs s !! file) as [[v | p c] |] eqn:Hp; cbn [fst snd]; try done.
  intros _. split.
  - apply dirs_are_insert_other; [done | intros v; by rewrite Hp].
  - apply is_file_insert_other; eauto.
Qed.

Lemma ensures_Chmod_file L path perm :
  ensures (fun x => dirs_are L x /\ is_file path x) (os_Chmod path perm)
    (fun _ x => dirs_are L x).
Proof.
  intros s r [HL (p & c & Hf)]. unfold os_Chmod, syscall. cbv zeta.
  destruct (hd false (faults s)); cbn [result final fs set_fs]; [done |].
  rewrite Hf. cbn [fst snd]. intros _.
  apply dirs_are_insert_other; [done | intros v; by rewrite Hf].
Qed.

Lemma ensures_Mkdir L path :
  ensures (fresh_dirs L) (os_Mkdir (env_umask E) path (octal 7 5 5))
    (fun r x => forall a, r = inl a ->
       fresh_dirs ((path, Z.ldiff (octal 7 5 5) (env_umask E)) :: L) x).
Proof.
  intros s r [Hnd HL]. unfold os_Mkdir, syscall. cbv zeta.
  destruct (hd false (faults s)); cbn [result final fs set_fs];
    [by intros [= <-] |].
  destruct (fs s !! path) as [n |] eqn:Hp; cbn [fst snd];
    intros [= <-]; intros a [= <-].
  split.
  - rewrite fmap_cons. apply NoDup_cons. split; [| done]. cbn [fst].
    intros Hin. apply list_elem_of_fmap in Hin as [[d v] [Heq Hin]].
    simpl in Heq. subst path. rewrite (HL d v Hin) in Hp. discriminate.
  - intros d v Hd. apply elem_of_cons in Hd as [[= -> ->] | Hd].
    + apply lookup_insert_eq.
    + rewrite lookup_insert_ne; [by apply HL |].
      intros ->. rewrite (HL d v Hd) in Hp. discriminate.
Qed.

(** [mkdir_all] makes each directory afresh, with mode 0755 less the
    umask. *)
Lemma ensures_mkdir_all dirs : forall L,
  ensures (fresh_dirs L) (mkdir_all E dirs)
    (fun _ => fresh_dirs
       (rev (map (fun d => (d, Z.ldiff (octal 7 5 5) (env_umask E))) dirs) ++ L)).
Proof.
  induction dirs as [|v dirs IH]; intros L.
  { intros s a HL _. done. }
  cbn [mkdir_all map rev].
  eapply ensures_bind; [apply ensures_Mkdir |]. intros r.
  eapply ensures_bind; [apply ensures_fatal_on_error |]. intros [].
  eapply ensures_weaken;
    [apply (IH ((v, Z.ldiff (octal 7 5 5) (env_umask E)) :: L)) | | ].
  - intros x [-> Hx]. by apply (Hx tt).
  - intros ? x Hx. by rewrite <- app_assoc.
Qed.

(** ... by one [Mkdir] of mode 0755 each. *)
Lemma mkdir_all_events dirs : forall s,
  result (mkdir_all E dirs s) = Val tt ->
  events (mkdir_all E dirs s) = map (fun d => ESys (Mkdir d (octal 7 5 5)) None) dirs.
Proof.
  induction dirs as [|v dirs IH]; intros s; [done |].
  cbn [mkdir_all map]. rewrite bind_eq.
  unfold os_Mkdir, syscall. cbv zeta.
  destruct (hd false (faults s)); cbn [result final events fst snd];
    [rewrite bind_eq; cbn; discriminate |].
  destruct (fs s !! v) as [n |] eqn:Hv; cbn [fst snd err_of];
    [rewrite bind_eq; cbn; discriminate |].
  rewrite bind_eq. cbn [fatal_on_error ret result final events app].
  intros Hr. by rewrite (IH _ Hr).
Qed.

Lemma result_bind_Val {A B} (m : M A) (k : A -> M B) s b :
  result (bind m k s) = Val b ->
  exists a, result (m s) = Val a
            /\ result (k a (final (m s))) = Val b
            /\ events (bind m k s) = events (m s) ++ events (k a (final (m s))).
Proof.
  rewrite bind_eq. destruct (result (m s)) as [a | o]; [| discriminate].
  cbn [result events]. eauto.
Qed.

Lemma ensures_Chmod_key root cert newcert key revok v perm :
  ensures (fresh_dirs [(revok, v); (key, v); (newcert, v); (cert, v); (root, v)])
    (os_Chmod key perm)
    (fun r x => forall a, r = inl a ->
       dirs_are [(key, perm); (root, v); (cert, v); (newcert, v); (revok, v)] x).
Proof.
  intros s r [Hnd HL]. unfold os_Chmod, syscall. cbv zeta.
  destruct (hd false (faults s)); cbn [result final fs set_fs];
    [by intros [= <-] |].
  assert (Hkey : fs s !! key = Some (NDir v)).
  { apply HL. rewrite !elem_of_cons. auto. }
  rewrite Hkey. cbn [fst snd]. intros [= <-] a _.
  cbn [fmap list_fmap fst] in Hnd.
  apply NoDup_cons in Hnd as [Hr Hnd]. apply NoDup_cons in Hnd as [Hk Hnd].
  rewrite !not_elem_of_cons in Hr, Hk.
  intros d v' Hd. rewrite !elem_of_cons in Hd.
  destruct Hd as [[= -> ->] | Hd]; [apply lookup_insert_eq |].
  rewrite lookup_insert_ne.
  - apply HL. rewrite !elem_of_cons. tauto.
  - intros <-. destruct Hd as [[= ->] | [[= ->] | [[= ->] | [[= ->] | Hd]]]];
      [tauto .. | by apply elem_of_nil in Hd].
Qed.

Ltac ensures_keep :=
  eapply ensures_bind;
  [ apply ensures_same; intros ?;
    first [ reflexivity | apply fs_envcall
          | unfold fatal_on_error, when;
            repeat match goal with
                   | |- context [match ?x with _ => _ end] => destruct x
                   end; reflexivity ]
  | intros ? ].

(** After [SetupDir] has come to its end, the five directories are there:
    the one of the keys with mode 0710, the others with 0755 less the
    umask. *)
Lemma ensures_SetupDir s :
  result (SetupDir E s) = Val tt ->
  dirs_are [(DirPath.Key (Dir (G s)), octal 7 1 0);
            (DirPath.Root (Dir (G s)), Z.ldiff (octal 7 5 5) (env_umask E));
            (DirPath.Cert (Dir (G s)), Z.ldiff (octal 7 5 5) (env_umask E));
            (DirPath.NewCert (Dir (G s)), Z.ldiff (octal 7 5 5) (env_umask E));
            (DirPath.Revok (Dir (G s)), Z.ldiff (octal 7 5 5) (env_umask E))]
    (fs (final (SetupDir E s))).
Proof.
  intros Hr. revert Hr. unfold SetupDir.
  rewrite (bind_run _ _ _ _ _ _ (get_run s)). cbn [result final].
  set (D := Dir (G s)). set (F := File (G s)).
  set (L := [(DirPath.Key D, octal 7 1 0); _; _; _; _]).
  match goal with
  | |- result (?m s) = _ -> dirs_are _ (fs (final (?m s))) =>
      assert (H : ensures (fresh_dirs []) m (fun _ => dirs_are L));
        [| intros Hr; apply (H s tt); [split; [constructor | by intros ? ? ?%elem_of_nil] | done]]
  end.
  eapply ensures_bind; [apply ensures_mkdir_all |]. intros ?.
  cbn [map rev app].
  eapply ensures_checked; [apply ensures_Chmod_key |]. intros ?.
  eapply ensures_checked; [apply ensures_Create |]. intros file.
  eapply ensures_weaken with (P' := dirs_are L) (Q' := fun _ => dirs_are L);
    [| by intros x (_ & Hx & _) | done].
  ensures_keep.
  eapply ensures_checked; [apply ensures_Create |]. intros file2.
  eapply ensures_weaken with (P' := dirs_are L) (Q' := fun _ => dirs_are L);
    [| by intros x (_ & Hx & _) | done].
  eapply ensures_bind; [apply ensures_Write |]. intros w.
  ensures_keep. ensures_keep. ensures_keep. ensures_keep.
  ensures_keep. ensures_keep. ensures_keep. ensures_keep.
  ensures_keep. ensures_keep.
  eapply ensures_checked; [apply ensures_Create |]. intros cfg.
  apply (ensures_weaken
           (fun x => cfg = FilePath.Config F /\ dirs_are L x
                     /\ is_file (FilePath.Config F) x)
           (fun x => dirs_are L x /\ is_file (FilePath.Config F) x) _
           (fun _ => dirs_are L) (fun _ => dirs_are L));
    [| tauto | done].
  eapply ensures_bind; [apply ensures_Execute |]. intros x.
  ensures_keep. ensures_keep.
  eapply ensures_bind; [apply ensures_Chmod_file |]. intros r.
  ensures_keep.
  apply ensures_same. reflexivity.
Qed.

End SetupDirState.

Lemma ldiff_disjoint a b : Z.land a b = 0 -> Z.ldiff a b = a.
Proof.
  intros H. apply Z.bits_inj'. intros n Hn.
  rewrite Z.ldiff_spec.
  assert (Hb : Z.testbit (Z.land a b) n = false) by (rewrite H; apply Z.bits_0).
  rewrite Z.land_spec in Hb.
  destruct (Z.testbit a n), (Z.testbit b n); simpl in *; congruence.
Qed.

(** C8: after a [SetupDir] that has come to its end, the directory of the
    private keys has mode 0710, which gives nothing to others; each of
    the other four directories has been made by a [Mkdir] with mode 0755
    and has that mode less the umask: 0755 itself when the umask clears
    none of its bits. *)
Theorem SetupDir_permissions (E : Env) (s : St) :
  result (SetupDir E s) = Val tt ->
  let D := Dir (G s) in
  let m := fs (final (SetupDir E s)) in
  m !! DirPath.Key D = Some (NDir (octal 7 1 0))
  /\ Z.land (octal 7 1 0) (octal 0 0 7) = 0
  /\ (forall d,
        d ∈ [DirPath.Root D; DirPath.Cert D; DirPath.NewCert D; DirPath.Revok D] ->
        ESys (Mkdir d (octal 7 5 5)) None ∈ events (SetupDir E s)
        /\ m !! d = Some (NDir (Z.ldiff (octal 7 5 5) (env_umask E)))
        /\ (Z.land (octal 7 5 5) (env_umask E) = 0 ->
            m !! d = Some (NDir (octal 7 5 5)))).
Proof.
  intros Hr D m. pose proof (ensures_SetupDir E s Hr) as Hdirs.
  fold D in Hdirs. fold m in Hdirs.
  split; [| split; [reflexivity |]].
  { apply Hdirs. apply elem_of_cons. by left. }
  intros d Hd.
  assert (Hm : m !! d = Some (NDir (Z.ldiff (octal 7 5 5) (env_umask E)))).
  { apply Hdirs. rewrite !elem_of_cons in *.
    destruct Hd as [-> | [-> | [-> | [-> | Hd]]]]; [tauto .. |].
    by apply elem_of_nil in Hd. }
  split; [| split; [done |]].
  - unfold SetupDir in Hr |- *.
    apply result_bind_Val in Hr as (s0 & Hget & Hr & ->).
    cbn [get result final events app] in *. inversion Hget; subst s0.
    apply result_bind_Val in Hr as ([] & Hmk & _ & ->).
    apply elem_of_app. left. rewrite (mkdir_all_events E _ _ Hmk).
    cbn [map]. rewrite !elem_of_cons in *.
    destruct Hd as [-> | [-> | [-> | [-> | Hd]]]]; [tauto .. |].
    by apply elem_of_nil in Hd.
  - intros Hu. by rewrite Hm, (ldiff_disjoint _ _ Hu).
Qed.

Lemma SetupDir_permissions_witness :
  result (SetupDir demo_env (demo_state demo_fs [])) = Val tt
  /\ fs (final (SetupDir demo_env (demo_state demo_fs [])))
       !! "/home/u/.cert/private" = Some (NDir (octal 7 1 0))
  /\ fs (final (SetupDir demo_env (demo_state demo_fs [])))
       !! "/home/u/.cert/certs" = Some (NDir (octal 7 5 5)).
Proof.
  assert (Hr : result (SetupDir demo_env (demo_state demo_fs [])) = Val tt)
    by (vm_compute; reflexivity).
  split; [exact Hr |].
  destruct (SetupDir_permissions demo_env (demo_state demo_fs []) Hr)
    as (Hkey & _ & Hrest).
  split; [exact Hkey |].
  destruct (Hrest "/home/u/.cert/certs") as (_ & _ & Hc).
  - apply elem_of_cons. right. apply elem_of_cons. by left.
  - apply Hc. reflexivity.
Defined.

(** ** Failing steps *)

Lemma no_failure_app a b : no_failure a -> no_failure b -> no_failure (a ++ b).
Proof. apply Forall_app_2. Qed.

Lemma fail_fast_clean {A} (r : Res A) ev : no_failure ev -> fail_fast r ev.
Proof. by left. Qed.

Lemma fail_fast_prepend {A} (r : Res A) ev1 ev2 :
  no_failure ev1 -> fail_fast r ev2 -> fail_fast r (ev1 ++ ev2).
Proof.
  intros H1 [H2 | (Hf & pre & e & post & -> & Hpre & He & Hpost)].
  - left. by apply no_failure_app.
  - right. split; [done |]. exists (ev1 ++ pre), e, post.
    rewrite app_assoc. repeat split; try done. by apply no_failure_app.
Qed.

Lemma FF_bind {A B} (m : M A) (k : A -> M B) :
  FF m -> (forall a, FF (k a)) -> FF (bind m k).
Proof.
  intros Hm Hk s. rewrite bind_eq. specialize (Hm s).
  destruct (result (m s)) as [a | o] eqn:Hr; cbn [result events].
  - apply fail_fast_prepend; [| apply Hk].
    destruct Hm as [Hm | ((msg & Hmsg) & _)]; [done | discriminate].
  - destruct Hm as [Hm | ((msg & Hmsg) & Hm)]; [by left | right].
    split; [| done]. exists msg. congruence.
Qed.

Lemma FF_clean {A} (m : M A) : (forall s, no_failure (events (m s))) -> FF m.
Proof. intros H s. left. apply H. Qed.

Lemma FF_ret {A} (a : A) : FF (ret a).
Proof. apply FF_clean. intros s. constructor. Qed.

Lemma FF_get : FF get.
Proof. apply FF_clean. intros s. constructor. Qed.

Lemma FF_modify f : FF (modify f).
Proof. apply FF_clean. intros s. constructor. Qed.

Lemma FF_stop {A} o : FF (@stop A o).
Proof. apply FF_clean. intros s. constructor. Qed.

Lemma FF_emit_call from f g : FF (emit (ECall from f g)).
Proof. apply FF_clean. intros s. by repeat constructor. Qed.

Lemma FF_when b m : FF m -> FF (when b m).
Proof. intros H. destruct b; [done | apply FF_ret]. Qed.

Lemma FF_log_Fatal {A} msg : FF (@log_Fatal A msg).
Proof. apply FF_clean. intros s. constructor. Qed.

Lemma FF_call_ext E from f : FF (call_ext E from f).
Proof.
  apply FF_clean. intros s. rewrite events_call_ext. by repeat constructor.
Qed.

Lemma FF_call_main {A} f (body : M A) : FF body -> FF (call_main f body).
Proof.
  intros H. unfold call_main. apply FF_bind; [apply FF_get | intros s].
  apply FF_bind; [apply FF_emit_call | by intros _].
Qed.

Lemma one_event_syscall {A} op f : one_event op (@syscall A op f).
Proof.
  intros s. unfold syscall. cbv zeta.
  destruct (hd false (faults s)); [eexists (inr EIO), _; reflexivity |].
  eexists (fst (f (fs s))), _; reflexivity.
Qed.

Lemma one_event_syscall_read {A} op f d : one_event op (@syscall_read A op f d).
Proof. intros s. unfold syscall_read. cbv zeta. eexists _, _; reflexivity. Qed.

Lemma one_event_envcall {A} op v : one_event op (@envcall A op v).
Proof. intros s. destruct v; [by exists (inl a), s | by exists (inr EIO), s]. Qed.

Lemma fatal_handler_fatal_on_error {A} op path :
  fatal_handler (@fatal_on_error A op path).
Proof. split; [done |]. intros e s. split; [by eexists | done]. Qed.

(** A step whose failure is tolerated. *)
Lemma FF_tolerated {A B} op (step : M (A + Errno)) (k : A + Errno -> M B) :
  one_event op step -> tolerated op = true ->
  (forall r, FF (k r)) -> FF (bind step k).
Proof.
  intros Hs Ht Hk. apply FF_bind; [| done].
  apply FF_clean. intros s. destruct (Hs s) as (r & s' & ->).
  cbn [events]. constructor; [| constructor].
  destruct r; simpl; [done |]. by rewrite Ht.
Qed.

(** A checked step: after a failure nothing but [log.Fatal]. *)
Lemma FF_checked {A B} op (step : M (A + Errno)) h (k : A -> M B) :
  one_event op step -> fatal_handler h ->
  (forall a, FF (k a)) ->
  FF (r <- step ;; x <- h r ;; k x).
Proof.
  intros Hs [Hok Herr] Hk s.
  destruct (Hs s) as (r & s' & Hrun).
  rewrite (bind_run _ _ _ _ _ _ Hrun). cbn [result events].
  destruct r as [a | e].
  - rewrite (bind_run _ _ _ _ _ _ (Hok a s')). cbn [result events app err_of].
    apply (fail_fast_prepend _ [_]); [by repeat constructor | apply Hk].
  - rewrite bind_eq. destruct (Herr e s') as ((msg & Hmsg) & Hev).
    rewrite Hmsg, Hev. cbn [result events app err_of].
    destruct (tolerated op) eqn:Ht.
    + left. constructor; [| constructor]. simpl. by rewrite Ht.
    + right. split; [by exists msg |].
      exists [], (ESys op (Some e)), [].
      split; [reflexivity |]. split; [constructor |].
      split; [simpl; by rewrite Ht | by left].
Qed.

(** A step on an open file, the closing of the file, then the check. *)
Lemma FF_checked_after_close {A B} op (step : M (A + Errno)) file h (k : A -> M B) :
  one_event op step -> fatal_handler h ->
  (forall a, FF (k a)) ->
  FF (r <- step ;; file_Close file ;; x <- h r ;; k x).
Proof.
  intros Hs [Hok Herr] Hk s.
  destruct (Hs s) as (r & s' & Hrun).
  rewrite (bind_run _ _ _ _ _ _ Hrun). cbn [result events].
  destruct (one_event_syscall_read (Close file) (fun _ => inl tt) (inr EIO) s')
    as (c & s'' & Hclose).
  fold (file_Close file) in Hclose.
  rewrite (bind_run _ _ _ _ _ _ Hclose). cbn [result events].
  destruct r as [a | e].
  - rewrite (bind_run _ _ _ _ _ _ (Hok a s'')). cbn [result events app err_of].
    apply (fail_fast_prepend _ [_; _]); [| apply Hk].
    constructor; [done |]. constructor; [| constructor]. by destruct c.
  - rewrite bind_eq. destruct (Herr e s'') as ((msg & Hmsg) & Hev).
    rewrite Hmsg, Hev. cbn [result events app err_of].
    destruct (tolerated op) eqn:Ht.
    + left. constructor; [simpl; by rewrite Ht |].
      constructor; [| constructor]. by destruct c.
    + right. split; [by exists msg |].
      exists [], (ESys op (Some e)), [ESys (Close file) (err_of c)].
      split; [reflexivity |]. split; [constructor |].
      split; [simpl; by rewrite Ht | right; eauto].
Qed.

Lemma FF_handler {A} (h : A + Errno -> M A) r :
  fatal_handler h -> (exists a, r = inl a) -> FF (h r).
Proof.
  intros [Hok _] [a ->]. apply FF_clean. intros s. rewrite Hok. constructor.
Qed.

(** The same at the end of a function. *)
Lemma FF_checked_after_close_end {A} op (step : M (A + Errno)) file h :
  one_event op step -> fatal_handler h ->
  FF (r <- step ;; file_Close file ;; h r).
Proof.
  intros Hs [Hok Herr] s.
  destruct (Hs s) as (r & s' & Hrun).
  rewrite (bind_run _ _ _ _ _ _ Hrun). cbn [result events].
  destruct (one_event_syscall_read (Close file) (fun _ => inl tt) (inr EIO) s')
    as (c & s'' & Hclose).
  fold (file_Close file) in Hclose.
  rewrite (bind_run _ _ _ _ _ _ Hclose). cbn [result events].
  destruct r as [a | e].
  - rewrite (Hok a s''). cbn [result events app err_of]. left.
    constructor; [done |]. constructor; [| constructor]. by destruct c.
  - destruct (Herr e s'') as ((msg & Hmsg) & Hev).
    rewrite Hmsg, Hev. cbn [result events app err_of].
    destruct (tolerated op) eqn:Ht.
    + left. constructor; [simpl; by rewrite Ht |].
      constructor; [| constructor]. by destruct c.
    + right. split; [by exists msg |].
      exists [], (ESys op (Some e)), [ESys (Close file) (err_of c)].
      split; [reflexivity |]. split; [constructor |].
      split; [simpl; by rewrite Ht | right; eauto].
Qed.

Ltac one_event_tac :=
  first [ apply one_event_syscall | apply one_event_syscall_read
        | apply one_event_envcall ].

Ltac handler_tac :=
  first [ apply fatal_handler_fatal_on_error
        | split; [reflexivity |];
          intros ? ?; split; [eexists; reflexivity | reflexivity] ].

Ltac ff_step :=
  first
    [ apply FF_ret | apply FF_get | apply FF_modify | apply FF_stop
    | apply FF_log_Fatal | apply FF_call_ext | apply FF_when
    | eapply FF_checked_after_close; [one_event_tac | handler_tac | intros ?]
    | eapply FF_checked_after_close_end; [one_event_tac | handler_tac]
    | eapply FF_checked; [one_event_tac | handler_tac | intros ?]
    | eapply FF_tolerated; [one_event_tac | reflexivity | intros ?]
    | apply FF_bind; [| intros ?]
    | match goal with
      | |- FF (match ?x with _ => _ end) => destruct x
      end ].

Ltac ff_auto := repeat ff_step.

Section FFProgram.

Variable E : Env.

Lemma FF_init : FF (init E).
Proof. unfold init. ff_auto. Qed.

Lemma FF_printCert_loop cert : forall i, FF (printCert_loop i cert).
Proof.
  induction cert as [|v cert IH]; intros i; simpl; [apply FF_ret |].
  unfold fmt_Print. ff_auto. apply IH.
Qed.

Lemma FF_printCert cert : FF (printCert cert).
Proof.
  unfold printCert. destruct cert; [apply FF_ret |].
  apply FF_bind; [apply FF_printCert_loop | intros _; apply FF_modify].
Qed.

Lemma FF_mkdir_all dirs : FF (mkdir_all E dirs).
Proof.
  induction dirs as [|v dirs IH]; simpl; [apply FF_ret |].
  eapply FF_checked; [one_event_tac | handler_tac | intros ?]. done.
Qed.

Lemma FF_SetupDir : FF (SetupDir E).
Proof.
  unfold SetupDir. apply FF_bind; [apply FF_get | intros s].
  apply FF_bind; [apply FF_mkdir_all | intros _].
  unfold fmt_Print, log_Print. ff_auto.
Qed.

Lemma FF_emit_go name server data : FF (emit_go E name server data).
Proof. unfold emit_go. ff_auto. Qed.

Lemma FF_Cert2Lang : FF (Cert2Lang E).
Proof.
  unfold Cert2Lang.
  repeat first [ apply FF_emit_go | ff_step ].
Qed.

Lemma FF_fatal_if_exists msg path : FF (fatal_if_exists msg path).
Proof. unfold fatal_if_exists. ff_auto. Qed.

Lemma FF_glob_and_print pattern : FF (glob_and_print E pattern).
Proof.
  unfold glob_and_print.
  eapply FF_checked; [one_event_tac | handler_tac | intros ?].
  apply FF_call_main, FF_printCert.
Qed.

Lemma FF_index0 args : FF (index0 args).
Proof. destruct args; [apply FF_stop | apply FF_ret]. Qed.

Lemma FF_byte0 v : FF (byte0 v).
Proof. destruct v; [apply FF_stop | apply FF_ret]. Qed.

Lemma FF_print_ext f : FF (print_ext E f).
Proof.
  unfold print_ext. apply FF_bind; [apply FF_call_ext | intros ?; apply FF_modify].
Qed.

Lemma FF_os_Exit {A} code : FF (@os_Exit A code).
Proof. apply FF_stop. Qed.

(** One step through a part of [main], chosen by the head of the term. *)
Ltac ff_prog_step :=
  lazymatch goal with
  | |- FF (ret _) => apply FF_ret
  | |- FF get => apply FF_get
  | |- FF (modify _) => apply FF_modify
  | |- FF (os_Exit _) => apply FF_os_Exit
  | |- FF (fmt_Print _) => apply FF_modify
  | |- FF (fmt_Fprint_Stderr _) => apply FF_modify
  | |- FF (log_Fatal _) => apply FF_log_Fatal
  | |- FF (call_ext _ _ _) => apply FF_call_ext
  | |- FF (print_ext _ _) => apply FF_print_ext
  | |- FF (call_main _ _) => apply FF_call_main
  | |- FF (when _ _) => apply FF_when
  | |- FF (glob_and_print _ _) => apply FF_glob_and_print
  | |- FF (fatal_if_exists _ _) => apply FF_fatal_if_exists
  | |- FF (Cert2Lang _) => apply FF_Cert2Lang
  | |- FF (SetupDir _) => apply FF_SetupDir
  | |- FF (index0 _) => apply FF_index0
  | |- FF (byte0 _) => apply FF_byte0
  | |- FF (bind _ _) => apply FF_bind; [| intros ?]
  | |- FF (if ?b then _ else _) => destruct b
  end.

Ltac ff_prog := repeat ff_prog_step.

Lemma FF_main_list f args : FF (main_list E f args).
Proof. unfold main_list. ff_prog. Qed.

Lemma FF_main_paths f args : FF (main_paths f args).
Proof. unfold main_paths. ff_prog. Qed.

Lemma FF_main_check f filename : FF (main_check E f filename).
Proof. unfold main_check. ff_prog. Qed.

Lemma FF_main_cat f filename : FF (main_cat E f filename).
Proof. unfold main_cat. ff_prog. Qed.

Lemma FF_main_info f filename : FF (main_info E f filename).
Proof. unfold main_info. ff_prog. Qed.

Lemma FF_main_request f b : FF (main_request E f b).
Proof. unfold main_request. ff_prog. Qed.

Lemma FF_main_sign f b : FF (main_sign E f b).
Proof. unfold main_sign. ff_prog. Qed.

Lemma FF_main_golang f : FF (main_golang E f).
Proof. unfold main_golang. ff_prog. Qed.

Lemma FF_main_new f : FF (main_new E f).
Proof. unfold main_new. ff_prog. Qed.

Lemma FF_main_ca f : FF (main_ca E f).
Proof. unfold main_ca. ff_prog. Qed.

Lemma FF_main_body nflag f args : FF (main_body E nflag f args).
Proof.
  unfold main_body.
  apply FF_bind; [apply FF_when; ff_prog | intros _].
  apply FF_bind; [apply FF_main_list | intros isExit].
  apply FF_bind; [apply FF_main_paths | intros filename].
  apply FF_bind; [apply FF_main_check | intros _].
  apply FF_bind; [apply FF_main_cat | intros _].
  apply FF_bind; [apply FF_main_info | intros _].
  apply FF_bind; [apply FF_main_request | intros isExit'].
  apply FF_bind; [apply FF_main_sign | intros _].
  apply FF_bind; [apply FF_main_golang | intros _].
  apply FF_bind; [apply FF_main_new | intros _].
  apply FF_main_ca.
Qed.

Lemma FF_main cmd args : FF (main E cmd args).
Proof.
  unfold main. apply FF_bind; [apply FF_get | intros s].
  destruct (flag_Parse cmd (Fl (G s))) as [f | [msg]].
  - apply FF_bind; [apply FF_modify | intros _]. apply FF_main_body.
  - ff_prog.
Qed.

Lemma FF_easycert cmd args : FF (easycert E cmd args).
Proof. unfold easycert. apply FF_bind; [apply FF_init | intros _; apply FF_main]. Qed.

End FFProgram.

Lemma failed_step_split pre x post pre' x' post' :
  pre ++ x :: post = pre' ++ x' :: post' ->
  failed_step x = true -> failed_step x' = true ->
  no_failure pre' -> no_failure post' ->
  pre = pre' /\ x = x' /\ post = post'.
Proof.
  intros Heq Hx Hx' Hpre Hpost.
  apply app_eq_app in Heq as [l [[-> Heq] | [-> Heq]]].
  - destruct l as [|y l]; simpl in Heq.
    + inversion Heq; subst. by rewrite app_nil_r.
    + inversion Heq; subst. exfalso.
      apply Forall_app in Hpost as [_ Hpost].
      apply Forall_cons in Hpost as [Hpost _]. congruence.
  - destruct l as [|y l]; simpl in Heq.
    + inversion Heq; subst. by rewrite app_nil_r.
    + inversion Heq; subst. exfalso.
      apply Forall_app in Hpre as [_ Hpre].
      apply Forall_cons in Hpre as [Hpre _]. congruence.
Qed.

Lemma only_close_no_failure post : only_close post -> no_failure post.
Proof.
  intros [-> | (file & err & ->)]; [constructor |].
  constructor; [by destruct err | constructor].
Qed.

(** C4, amended: a step that fails is the last one - the run ends in
    [log.Fatal] right after it, having at most closed the file it was
    writing, and no step before it had failed - unless its error is one
    of the three the program does not take for fatal: what [Close]
    returns, a failed chmod to 0600 (only logged, line 443), and an error
    of [Stat], which counts through [os.IsNotExist] alone. *)
Theorem failing_step_is_fatal (E : Env) (cmd : list FlagArg) (args : list string)
    (s : St) (pre : list Event) (op : SysOp) (e : Errno) (post : list Event) :
  events (easycert E cmd args s) = pre ++ ESys op (Some e) :: post ->
  tolerated op = false ->
  is_Fatal (result (easycert E cmd args s))
  /\ only_close post
  /\ no_failure pre.
Proof.
  intros Hev Hop.
  assert (Hx : failed_step (ESys op (Some e)) = true) by (simpl; by rewrite Hop).
  destruct (FF_easycert E cmd args s)
    as [Hclean | (Hfatal & pre' & x' & post' & Heq & Hpre & Hx' & Hpost)].
  - rewrite Hev in Hclean. apply Forall_app in Hclean as [_ Hclean].
    apply Forall_cons in Hclean as [Hclean _]. congruence.
  - rewrite Hev in Heq.
    destruct (failed_step_split _ _ _ _ _ _ Heq Hx Hx' Hpre
                (only_close_no_failure _ Hpost)) as (-> & _ & ->).
    done.
Qed.

Lemma failing_step_is_fatal_witness :
  events (easycert demo_env [SetBool f_new true] [] (start demo_fs [false; true]))
  = [ESys (LookPath "openssl") None; ESys CurrentUser None;
     ESys (Stat "/home/u/.cert") (Some ENOENT);
     ECall in_main SetupDir_f
       (G (final (main_paths (set_bool f_new true default_flags) []
                    (set_G (set_Fl (fun _ => set_bool f_new true default_flags))
                       (demo_state demo_fs [])))))]
    ++ ESys (Mkdir "/home/u/.cert" (octal 7 5 5)) (Some EIO) :: []
  /\ tolerated (Mkdir "/home/u/.cert" (octal 7 5 5)) = false
  /\ is_Fatal (result (easycert demo_env [SetBool f_new true] []
                         (start demo_fs [false; true]))).
Proof.
  assert (Hev : events (easycert demo_env [SetBool f_new true] []
                          (start demo_fs [false; true]))
    = [ESys (LookPath "openssl") None; ESys CurrentUser None;
       ESys (Stat "/home/u/.cert") (Some ENOENT);
       ECall in_main SetupDir_f
         (G (final (main_paths (set_bool f_new true default_flags) []
                      (set_G (set_Fl (fun _ => set_bool f_new true default_flags))
                         (demo_state demo_fs [])))))]
      ++ ESys (Mkdir "/home/u/.cert" (octal 7 5 5)) (Some EIO) :: [])
    by (vm_compute; reflexivity).
  split; [exact Hev |]. split; [reflexivity |].
  exact (proj1 (failing_step_is_fatal _ _ _ _ _ _ _ _ Hev eq_refl)).
Defined.

(** C4, as stated, fails: when the chmod of the configuration file fails,
    [SetupDir] logs the error and goes on: the run prints its last line
    and ends as a success. *)
Lemma chmod_failure_is_not_fatal :
  ~ (forall pre op e post,
       events (easycert demo_env [SetBool f_new true] []
                 (start demo_fs (replicate 17 false ++ [true])))
       = pre ++ ESys op (Some e) :: post ->
       is_Fatal (result (easycert demo_env [SetBool f_new true] []
                           (start demo_fs (replicate 17 false ++ [true]))))).
Proof.
  intros H.
  assert (Hres : result (easycert demo_env [SetBool f_new true] []
                           (start demo_fs (replicate 17 false ++ [true])))
                 = Val tt) by (vm_compute; reflexivity).
  assert (Hev : exists pre,
    events (easycert demo_env [SetBool f_new true] []
              (start demo_fs (replicate 17 false ++ [true])))
    = pre ++ ESys (Chmod "/home/u/.cert/openssl.cfg" (octal 6 0 0)) (Some EIO) :: []).
  { eexists (removelast (events (easycert demo_env [SetBool f_new true] []
                (start demo_fs (replicate 17 false ++ [true]))))).
    vm_compute. reflexivity. }
  destruct Hev as [pre Hev].
  destruct (H _ _ _ _ Hev) as [msg Hmsg]. congruence.
Qed.

(** ** The lists *)

Lemma printCert_loop_run cert : forall i s,
  printCert_loop (S i) cert s
  = mkRun (Val tt)
      (fold_left (fun st v => add_stdout v st)
         (flat_map (fun v => [tab; filepath.Base v]) cert) s) [].
Proof.
  induction cert as [|v cert IH]; intros i s; [reflexivity |].
  cbn [printCert_loop flat_map app Nat.eqb negb when]. unfold fmt_Print.
  rewrite (bind_run _ _ _ _ _ _ (modify_run _ s)).
  rewrite (bind_run _ _ _ _ _ _ (modify_run _ _)).
  rewrite IH. reflexivity.
Qed.

Lemma stdout_fold_add l : forall s,
  stdout (fold_left (fun st v => add_stdout v st) l s) = stdout s ++ l.
Proof.
  induction l as [|x l IH]; intros s; simpl; [by rewrite app_nil_r |].
  rewrite IH. simpl. by rewrite <- app_assoc.
Qed.

Lemma fs_fold_add l : forall s,
  fs (fold_left (fun st v => add_stdout v st) l s) = fs s.
Proof. induction l as [|x l IH]; intros s; simpl; [done | by rewrite IH]. Qed.

Lemma stderr_fold_add l : forall s,
  stderr (fold_left (fun st v => add_stdout v st) l s) = stderr s.
Proof. induction l as [|x l IH]; intros s; simpl; [done | by rewrite IH]. Qed.

Lemma G_fold_add l : forall s,
  G (fold_left (fun st v => add_stdout v st) l s) = G s.
Proof. induction l as [|x l IH]; intros s; simpl; [done | by rewrite IH]. Qed.

Lemma flat_map_tab_Base cert :
  flat_map (fun v => [tab; filepath.Base v]) cert
  = flat_map (fun x => [tab; x]) (map filepath.Base cert).
Proof. induction cert as [|c cert IH]; [done |]. simpl. by rewrite IH. Qed.

Lemma printCert_eq v cert s :
  printCert (v :: cert) s
  = mkRun (Val tt)
      (add_stdout nl
         (fold_left (fun st x => add_stdout x st)
            (flat_map (fun x => [tab; filepath.Base x]) cert)
            (add_stdout (filepath.Base v) s))) [].
Proof.
  unfold printCert. cbn [printCert_loop Nat.eqb negb when]. unfold fmt_Print.
  rewrite bind_eq.
  rewrite (bind_run _ _ _ _ _ _ (eq_refl : ret tt s = mkRun (Val tt) s [])).
  rewrite (bind_run _ _ _ _ _ _ (modify_run _ s)).
  rewrite printCert_loop_run. reflexivity.
Qed.

Lemma printCert_run cert s :
  result (printCert cert s) = Val tt
  /\ events (printCert cert s) = []
  /\ G (final (printCert cert s)) = G s
  /\ fs (final (printCert cert s)) = fs s
  /\ stderr (final (printCert cert s)) = stderr s
  /\ stdout (final (printCert cert s))
     = stdout s ++ printed (map filepath.Base cert).
Proof.
  destruct cert as [|v cert]; [by rewrite app_nil_r |].
  rewrite printCert_eq. cbn [result final events].
  repeat split.
  - cbn [add_stdout G]. by rewrite G_fold_add.
  - cbn [add_stdout fs]. by rewrite fs_fold_add.
  - cbn [add_stdout stderr]. by rewrite stderr_fold_add.
  - cbn [add_stdout stdout]. rewrite stdout_fold_add.
    cbn [add_stdout stdout map printed].
    rewrite flat_map_tab_Base, <- !app_assoc. reflexivity.
Qed.

(** X1: [printCert] prints the base name of each path, a tab between two
    of them and a newline at the end; for no path it prints nothing, not
    even the newline; it returns, and touches nothing else. *)
Theorem printCert_prints_base_names cert s :
  result (printCert cert s) = Val tt
  /\ events (printCert cert s) = []
  /\ fs (final (printCert cert s)) = fs s
  /\ stderr (final (printCert cert s)) = stderr s
  /\ stdout (final (printCert cert s))
     = stdout s ++ printed (map filepath.Base cert).
Proof.
  destruct (printCert_run cert s) as (H1 & H2 & _ & H3 & H4 & H5). auto.
Qed.

Lemma Readdirnames_valid dir m n :
  n ∈ Readdirnames dir m -> filepath.valid_name (unstr n) = true.
Proof.
  unfold Readdirnames. rewrite merge_sort_Permutation.
  rewrite list_elem_of_omap. intros ((k & v) & _ & Hn). revert Hn.
  unfold entry_name. cbn [fst].
  destruct (strip_prefix _ _) as [n0|]; [| done].
  destruct (filepath.valid_name n0) eqn:Hv; [| done].
  intros [= <-]. by rewrite unstr_str.
Qed.

Lemma valid_name_base_name n :
  filepath.valid_name (unstr n) = true -> is_base_name n.
Proof.
  intros Hv. split; [| by apply valid_name_no_sep].
  intros ->. discriminate.
Qed.

Section Lists.

Variable E : Env.

Lemma glob_names_matches m dir file names : forall matches r ok,
  glob_names E dir file names matches = (r, ok) ->
  (forall n, n ∈ names -> n ∈ Readdirnames dir m) ->
  Forall (glob_match E m file) matches ->
  Forall (glob_match E m file) r.
Proof.
  induction names as [|n names IH]; intros matches r ok; cbn [glob_names].
  - by intros [= <- _].
  - destruct (env_match E file n) as [matched|] eqn:Hm.
    2:{ by intros [= <- _]. }
    intros Hg Hn Hf. eapply IH; [exact Hg | |].
    + intros n' Hn'. apply Hn. by right.
    + destruct matched; [| done].
      apply Forall_app. split; [done |]. constructor; [| constructor].
      exists dir, n. repeat split; [| done]. apply Hn. by left.
Qed.

Lemma glob_matches m dir file matches r ok :
  glob E m dir file matches = (r, ok) ->
  Forall (glob_match E m file) matches ->
  Forall (glob_match E m file) r.
Proof.
  unfold glob. destruct (m !! dir) as [[p|p c]|].
  - intros Hg. eapply glob_names_matches; [exact Hg | done].
  - by intros [= <- _].
  - by intros [= <- _].
Qed.

Lemma glob_dirs_matches m file dirs : forall matches r ok,
  glob_dirs E m file dirs matches = (r, ok) ->
  Forall (glob_match E m file) matches ->
  Forall (glob_match E m file) r.
Proof.
  induction dirs as [|d dirs IH]; intros matches r ok; cbn [glob_dirs].
  - by intros [= <- _].
  - destruct (glob E m d file matches) as [matches' [|]] eqn:Hg.
    + intros Hd Hf. eapply IH; [exact Hd |]. by eapply glob_matches.
    + intros [= <- _] Hf. by eapply glob_matches.
Qed.

(** Every match of [Glob] for a pattern with a metacharacter is an entry
    of a directory, and its name matches the last element of the pattern. *)
Lemma Glob_rec_matches m fuel : forall pattern r ok,
  Glob_rec E fuel m pattern = (r, ok) ->
  hasMeta pattern = true ->
  Forall (glob_match E m (snd (Split pattern))) r.
Proof.
  destruct fuel as [|fuel]; intros pattern r ok; cbn [Glob_rec].
  { by intros [= <- _]. }
  destruct (env_match E pattern "") as [b|]; [| by intros [= <- _]].
  intros Hg Hmeta. rewrite Hmeta in Hg. cbn [negb] in Hg.
  destruct (Split pattern) as [dir0 file]. cbn [snd].
  destruct (negb (hasMeta (cleanGlobPath dir0))).
  { by eapply glob_matches. }
  destruct (String.eqb (cleanGlobPath dir0) pattern).
  { by injection Hg as <- _. }
  destruct (Glob_rec E fuel m (cleanGlobPath dir0)) as [ds [|]].
  - by eapply glob_dirs_matches.
  - by injection Hg as <- _.
Qed.

Lemma Split_Join d n :
  filepath.valid_name (unstr n) = true -> snd (Split (filepath.Join [d; n])) = n.
Proof.
  intros Hn. destruct (Join_name d n Hn) as (pre & -> & Hb).
  unfold Split. rewrite unstr_app, rev_app_distr.
  rewrite span_elem_app_sep;
    [| by apply no_sep_rev, valid_name_no_sep | by apply boundary_rev].
  cbn [snd]. by rewrite rev_involutive, str_unstr.
Qed.

Lemma hasMeta_Join_star d ext :
  filepath.is_ext (unstr ext) = true ->
  hasMeta (filepath.Join [d; "*" +:+ ext]) = true.
Proof.
  intros Hext.
  destruct (Join_ext_suffix d "*" ext Hext) as (p & Hp).
  assert (Hv : filepath.valid_name (unstr ("*" +:+ ext)) = true).
  { rewrite unstr_app. apply valid_name_ext; [done | done]. }
  destruct (Join_name d _ Hv) as (pre & -> & _).
  unfold hasMeta. rewrite !unstr_app, existsb_app.
  apply orb_true_iff. right. reflexivity.
Qed.


Lemma glob_match_listed m file p :
  glob_match E m file p -> listed E m file (filepath.Base p).
Proof.
  intros (d & n & -> & Hn & Hm).
  pose proof (Readdirnames_valid _ _ _ Hn) as Hv.
  rewrite (Base_Join d n Hv).
  split; [by apply valid_name_base_name |]. split; [done |]. by exists d.
Qed.

Lemma faults_fold_add l : forall s,
  faults (fold_left (fun st v => add_stdout v st) l s) = faults s.
Proof. induction l as [|x l IH]; intros s; simpl; [done | by rewrite IH]. Qed.

Lemma faults_printCert cert s : faults (final (printCert cert s)) = faults s.
Proof.
  destruct cert as [|v cert]; [done |]. rewrite printCert_eq.
  cbn [final add_stdout faults]. by rewrite faults_fold_add.
Qed.

(** [Glob] looks at the file system and at the next fault only. *)
Lemma Glob_of_ext pattern s1 s2 :
  fs s1 = fs s2 -> faults s1 = faults s2 ->
  Glob_of E pattern s1 = Glob_of E pattern s2.
Proof.
  intros Hfs Hfl. unfold Glob_of, filepath_Glob, syscall_read.
  cbn [result]. by rewrite Hfs, Hfl.
Qed.

(** The names that a list prints are names of entries that match. *)
Lemma Glob_of_listed pattern s matches :
  hasMeta pattern = true ->
  Glob_of E pattern s = inl matches ->
  Forall (listed E (fs s) (snd (Split pattern))) (map filepath.Base matches).
Proof.
  intros Hmeta. unfold Glob_of, filepath_Glob, syscall_read. cbn [result].
  destruct (hd false (faults s)); [by intros [= <-] |].
  destruct (Glob_rec E (S (String.length pattern)) (fs s) pattern)
    as [ms [|]] eqn:Hg; [| discriminate].
  intros [= <-]. apply Forall_fmap. eapply Forall_impl;
    [eapply Glob_rec_matches; eauto |].
  intros p Hp. by apply glob_match_listed.
Qed.

(** A list: what [Glob] finds is printed by [printCert]; a malformed
    pattern is fatal, with nothing printed. *)
Lemma glob_and_print_run pattern s :
  let r := glob_and_print E pattern s in
  stdout (final r) = stdout s ++ list_output (Glob_of E pattern s)
  /\ fs (final r) = fs s
  /\ faults (final r) = tl (faults s)
  /\ match Glob_of E pattern s with
     | inl matches => result r = Val tt
     | inr _ => is_Fatal (result r)
     end.
Proof.
  cbv zeta. unfold glob_and_print, Glob_of. rewrite bind_eq.
  unfold filepath_Glob, syscall_read. cbn [result final events].
  set (g := if hd false (faults s) then inl []
            else match Glob_rec E (S (String.length pattern)) (fs s) pattern with
                 | (matches, true) => inl matches
                 | (_, false) => inr EINVAL
                 end).
  destruct g as [matches | e]; cbn [fatal_on_error list_output].
  - rewrite (bind_run _ _ _ _ _ _
               (eq_refl : ret matches _ = mkRun (Val matches) _ [])).
    unfold call_main. rewrite bind_eq. cbn [get result final events].
    rewrite bind_eq. cbn [emit result final events].
    destruct (printCert_run matches (set_faults (tl (faults s)) s))
      as (Hr & _ & HG & Hfs & _ & Hout).
    rewrite Hr, Hfs, Hout. cbn [result final set_faults fs stdout].
    rewrite faults_printCert. done.
  - unfold is_Fatal. cbn. rewrite app_nil_r. eauto.
Qed.

(** X2: the lists.  With no argument, -lc prints the certificates and
    then -lr the requests: for each list, exactly the base names of what
    [Glob] answers for the pattern - Dir.Cert joined with *.crt for -lc,
    Dir.Root joined with *.csr for -lr - in the format of [printCert].
    Every name printed is one name (not empty, no separator), the name of
    an entry of a directory of the file system, and matches the last
    element of the pattern.  A malformed pattern ends the run in
    log.Fatal with nothing printed for that list.  After the lists asked
    for the run ends with status 0; the file system is as it was.  With
    no list flag, or with an argument, nothing is done at all and [main]
    goes on. *)
Theorem lists_show_entry_names (f : Flags) (s : St) :
  let p1 := filepath.Join [DirPath.Cert (Dir (G s)); "*" +:+ EXT_CERT] in
  let p2 := filepath.Join [DirPath.Root (Dir (G s)); "*" +:+ EXT_REQUEST] in
  let r := main_list E f [] s in
  let g1 := Glob_of E p1 s in
  let g2 := Glob_of E p2 (if IsCertList f then stepped s else s) in
  (* without a list flag, and with an argument *)
  (IsCertList f = false -> IsReqList f = false -> r = mkRun (Val false) s [])
  /\ (forall a rest, main_list E f (a :: rest) s = mkRun (Val false) s [])
  (* the names *)
  /\ Forall (listed E (fs s) ("*" +:+ EXT_CERT)) (match g1 with
                                                   | inl ms => map filepath.Base ms
                                                   | inr _ => []
                                                   end)
  /\ Forall (listed E (fs s) ("*" +:+ EXT_REQUEST)) (match g2 with
                                                      | inl ms => map filepath.Base ms
                                                      | inr _ => []
                                                      end)
  (* what is printed, and how the run ends *)
  /\ fs (final r) = fs s
  /\ (IsCertList f = true ->
      match g1 with
      | inr _ => is_Fatal (result r) /\ stdout (final r) = stdout s
      | inl _ =>
          if IsReqList f then
            stdout (final r) = stdout s ++ list_output g1 ++ list_output g2
            /\ match g2 with
               | inl _ => result r = Stop (Exit 0)
               | inr _ => is_Fatal (result r)
               end
          else
            stdout (final r) = stdout s ++ list_output g1
            /\ result r = Stop (Exit 0)
      end)
  /\ (IsCertList f = false -> IsReqList f = true ->
      stdout (final r) = stdout s ++ list_output g2
      /\ match g2 with
         | inl _ => result r = Stop (Exit 0)
         | inr _ => is_Fatal (result r)
         end).
Proof.
  intros p1 p2 r g1 g2.
  assert (Hm1 : hasMeta p1 = true) by (by apply hasMeta_Join_star).
  assert (Hm2 : hasMeta p2 = true) by (by apply hasMeta_Join_star).
  assert (Hs1 : snd (Split p1) = "*" +:+ EXT_CERT) by (by apply Split_Join).
  assert (Hs2 : snd (Split p2) = "*" +:+ EXT_REQUEST) by (by apply Split_Join).
  assert (Hn1 : Forall (listed E (fs s) ("*" +:+ EXT_CERT))
                  (match g1 with inl ms => map filepath.Base ms | inr _ => [] end)).
  { destruct g1 as [ms | e] eqn:Hg1; [| constructor].
    rewrite <- Hs1. by apply Glob_of_listed. }
  assert (Hn2 : Forall (listed E (fs s) ("*" +:+ EXT_REQUEST))
                  (match g2 with inl ms => map filepath.Base ms | inr _ => [] end)).
  { destruct g2 as [ms | e] eqn:Hg2; [| constructor].
    rewrite <- Hs2.
    replace (fs s) with (fs (if IsCertList f then stepped s else s))
      by (by destruct (IsCertList f)).
    by apply Glob_of_listed. }
  split; [| split; [| split; [exact Hn1 | split; [exact Hn2 |]]]].
  { intros Hc Hr. subst r. unfold main_list. cbn [length Nat.eqb].
    rewrite Hc, Hr. reflexivity. }
  { intros a rest. reflexivity. }
  clear Hn1 Hn2.
  subst r. unfold main_list. cbn [length Nat.eqb]. rewrite bind_eq.
  cbn [get result final events]. fold p1 p2.
  destruct (IsCertList f) eqn:Hlc.
  - destruct (glob_and_print_run p1 s) as (Hout1 & Hfs1 & Hfl1 & Hres1).
    fold g1 in Hout1, Hres1.
    assert (Hg2 : Glob_of E p2 (final (glob_and_print E p1 s)) = g2).
    { subst g2. apply Glob_of_ext; [exact Hfs1 | exact Hfl1]. }
    destruct (glob_and_print E p1 s) as [res1 s1 ev1] eqn:Hrun1.
    cbn [result final] in *.
    destruct g1 as [m1 | e1].
    + subst res1. rewrite (bind_run _ _ s true s1 ev1).
      2:{ rewrite bind_eq, Hrun1. cbn. by rewrite app_nil_r. }
      destruct (IsReqList f); cbn [when].
      * destruct (glob_and_print_run p2 s1) as (Hout2 & Hfs2 & _ & Hres2).
        rewrite Hg2 in Hout2, Hres2.
        destruct (glob_and_print E p2 s1) as [res2 s2 ev2] eqn:Hrun2.
        cbn [result final] in *.
        rewrite !bind_eq, Hrun2. cbn [result final events].
        destruct g2 as [m2 | e2]; [subst res2 | destruct Hres2 as [msg ->]];
          cbn [result final os_Exit stop];
          (split; [congruence |]); (split; [intros _ | intros [=]]);
          (split; [by rewrite Hout2, Hout1, <- app_assoc |]);
          [done | by exists msg].
      * cbn [result final events os_Exit stop when bind ret].
        split; [done |]. split; [intros _ | intros [=]]. by rewrite Hout1.
    + destruct Hres1 as [msg ->].
      rewrite !bind_eq, Hrun1. cbn [result final events].
      split; [done |]. split; [intros _ | intros [=]].
      split; [by exists msg |]. rewrite Hout1. cbn. by rewrite app_nil_r.
  - rewrite (bind_run _ _ s false s []) by reflexivity.
    destruct (IsReqList f); cbn [when].
    + destruct (glob_and_print_run p2 s) as (Hout2 & Hfs2 & _ & Hres2).
      fold g2 in Hout2, Hres2.
      destruct (glob_and_print E p2 s) as [res2 s2 ev2] eqn:Hrun2.
      cbn [result final] in *.
      rewrite !bind_eq, Hrun2. cbn [result final events].
      destruct g2 as [m2 | e2]; [subst res2 | destruct Hres2 as [msg ->]];
        cbn [result final os_Exit stop];
        (split; [congruence |]); (split; [intros [=] | intros _ _]);
        (split; [done |]); [done | by exists msg].
    + cbn. split; [done |]. split; intros; discriminate.
Qed.

End Lists.

(** ** The layout that [init] sets *)

Section Init.

Variable E : Env.

Lemma init_run cmdPath home s :
  env_openssl E = Some cmdPath -> env_home E = Some home ->
  init E s =
  mkRun (Val tt)
    (set_G (fun g =>
       let root := filepath.Join [home; _DIR_ROOT] in
       {| Dir := {| DirPath.Root := root;
                    DirPath.Cert := filepath.Join [root; "certs"];
                    DirPath.NewCert := filepath.Join [root; "newcerts"];
                    DirPath.Key := filepath.Join [root; "private"];
                    DirPath.Revok := filepath.Join [root; "crl"] |};
          File := {| FilePath.Cmd := cmdPath;
                     FilePath.Config := filepath.Join [root; _FILE_CONFIG];
                     FilePath.Index := filepath.Join [root; "index.txt"];
                     FilePath.Serial := filepath.Join [root; "serial"];
                     FilePath.Cert := ""; FilePath.Key := "";
                     FilePath.Request := "" |};
          Fl := Fl g |}) s)
    [ESys (LookPath "openssl") None; ESys CurrentUser None].
Proof.
  intros Ho Hh. unfold init. rewrite Ho, Hh. reflexivity.
Qed.

(** X3: when openssl and the user are found, [init] returns, leaves the
    file system alone, and sets the layout: the root is HOME joined with
    .cert; the four directories and the three files are entries of the
    root under their fixed names; the nine paths are pairwise distinct;
    [File.Cmd] is the path of openssl and the flags are untouched. *)
Theorem init_sets_layout (cmdPath home : string) (s : St) :
  env_openssl E = Some cmdPath -> env_home E = Some home ->
  let r := init E s in
  let D := Dir (G (final r)) in
  let F := File (G (final r)) in
  let paths := [DirPath.Root D; DirPath.Cert D; DirPath.NewCert D; DirPath.Key D;
                DirPath.Revok D; FilePath.Config F; FilePath.Index F;
                FilePath.Serial F] in
  result r = Val tt
  /\ fs (final r) = fs s /\ Fl (G (final r)) = Fl (G s)
  /\ FilePath.Cmd F = cmdPath
  /\ DirPath.Root D = filepath.Join [home; ".cert"]
  /\ tl paths = map (fun n => filepath.Join [DirPath.Root D; n])
                  ["certs"; "newcerts"; "private"; "crl"; "openssl.cfg";
                   "index.txt"; "serial"]
  /\ map filepath.Base paths
     = [".cert"; "certs"; "newcerts"; "private"; "crl"; "openssl.cfg";
        "index.txt"; "serial"]
  /\ NoDup paths.
Proof.
  intros Ho Hh. cbv zeta. rewrite (init_run _ _ s Ho Hh).
  cbn [result final set_G G fs Dir File Fl DirPath.Root DirPath.Cert
       DirPath.NewCert DirPath.Key DirPath.Revok FilePath.Cmd FilePath.Config
       FilePath.Index FilePath.Serial tl].
  assert (HB : map filepath.Base
     [filepath.Join [home; _DIR_ROOT];
      filepath.Join [filepath.Join [home; _DIR_ROOT]; "certs"];
      filepath.Join [filepath.Join [home; _DIR_ROOT]; "newcerts"];
      filepath.Join [filepath.Join [home; _DIR_ROOT]; "private"];
      filepath.Join [filepath.Join [home; _DIR_ROOT]; "crl"];
      filepath.Join [filepath.Join [home; _DIR_ROOT]; _FILE_CONFIG];
      filepath.Join [filepath.Join [home; _DIR_ROOT]; "index.txt"];
      filepath.Join [filepath.Join [home; _DIR_ROOT]; "serial"]]
     = [".cert"; "certs"; "newcerts"; "private"; "crl"; "openssl.cfg";
        "index.txt"; "serial"]).
  { cbn [map]. by rewrite !Base_Join. }
  repeat split; try done.
  match goal with
  | |- NoDup ?l => apply (NoDup_fmap_1 filepath.Base);
                   change (NoDup (map filepath.Base l))
  end.
  rewrite HB.
  apply (@bool_decide_unpack _ (NoDup_dec _)). vm_compute. exact I.
Qed.

(** X4: [init] returns exactly when openssl is in the PATH and the
    current user is known; otherwise it ends in log.Fatal - with the
    message "OpenSSL is not installed" when openssl is missing, whatever
    the user is - and the layout is not set. *)
Theorem init_fatal_without_openssl_or_user (s : St) :
  (result (init E s) = Val tt
   <-> is_Some (env_openssl E) /\ is_Some (env_home E))
  /\ (env_openssl E = None ->
      result (init E s) = Stop (Fatal "OpenSSL is not installed")
      /\ events (init E s) = [ESys (LookPath "openssl") (Some EIO)])
  /\ (result (init E s) <> Val tt ->
      is_Fatal (result (init E s)) /\ G (final (init E s)) = G s
      /\ fs (final (init E s)) = fs s).
Proof.
  unfold init, is_Fatal.
  destruct (env_openssl E) as [c|], (env_home E) as [h|]; cbn;
    (split; [split; [intros H; try discriminate H; eauto
                    | intros [[? H1] [? H2]]; try discriminate H1;
                      try discriminate H2; reflexivity] |]);
    (split; [intros H; try discriminate H; eauto |]);
    intros H; try (by destruct H); eauto.
Qed.

End Init.

Lemma init_sets_layout_witness :
  let r := init demo_env (start demo_fs []) in
  result r = Val tt
  /\ DirPath.Key (Dir (G (final r))) = "/home/u/.cert/private"
  /\ FilePath.Serial (File (G (final r))) = "/home/u/.cert/serial".
Proof.
  pose proof (init_sets_layout demo_env "/usr/bin/openssl" "/home/u"
                (start demo_fs []) eq_refl eq_refl) as H.
  cbv zeta in H. destruct H as (H1 & _). split; [exact H1 |].
  split; vm_compute; reflexivity.
Defined.

(** ** The queries: -chk, -cat and -i *)

Section Queries.

Variable E : Env.

Lemma call_ext_run from g s :
  call_ext E from g s =
  match env_ext E g (G s) (fs s) with
  | (inl out, m) =>
      mkRun (Val out) (set_fs (fun _ => m) s) [ECall from (Ext g) (G s)]
  | (inr msg, m) =>
      mkRun (Stop (Fatal msg))
        (add_stderr ("FAIL! " +:+ msg +:+ nl) (set_fs (fun _ => m) s))
        [ECall from (Ext g) (G s)]
  end.
Proof.
  unfold call_ext. rewrite (bind_run _ _ _ _ _ _ (get_run s)).
  rewrite bind_eq. cbn [emit result final events app].
  destruct (env_ext E g (G s) (fs s)) as [[out | msg] m]; reflexivity.
Qed.

Lemma print_ext_run g s :
  print_ext E g s =
  match env_ext E g (G s) (fs s) with
  | (inl out, m) =>
      mkRun (Val tt) (add_stdout out (set_fs (fun _ => m) s)) [main_call g s]
  | (inr msg, m) =>
      mkRun (Stop (Fatal msg))
        (add_stderr ("FAIL! " +:+ msg +:+ nl) (set_fs (fun _ => m) s))
        [main_call g s]
  end.
Proof.
  unfold print_ext. rewrite bind_eq, call_ext_run.
  destruct (env_ext E g (G s) (fs s)) as [[out | msg] m]; reflexivity.
Qed.

(** The [default] case of the [switch]: [filename] for a first argument
    that is not empty. *)
Lemma main_paths_query f c a rest s :
  is_query_mode f ->
  exists t,
    main_paths f (String c a :: rest) s = mkRun (Val t) s []
    /\ is_target (Dir (G s)) f c (String c a) t.
Proof.
  intros (H1 & H2 & H3 & H4 & H5). unfold main_paths.
  rewrite (bind_run _ _ _ _ _ _ (get_run s)). rewrite H1, H2, H3, H4, H5.
  cbn [orb index0 byte0].
  rewrite (bind_run _ _ s (String c a) s []) by reflexivity.
  rewrite (bind_run _ _ s c s []) by reflexivity.
  unfold is_target.
  destruct (is_name c); [destruct (IsCert f); [| destruct (IsKey f)] |];
    eexists; (split; [reflexivity |]); repeat split; intros; congruence.
Qed.

(** [main] up to the queries, in the [default] case. *)
Lemma main_body_query nflag f c a rest s :
  (nflag =? 0)%nat = false ->
  is_query_mode f ->
  exists t,
    is_target (Dir (G s)) f c (String c a) t
    /\ main_body E nflag f (String c a :: rest) s =
       (main_check E f t ;;
        main_cat E f t ;;
        main_info E f t ;;
        isExit <- main_request E f false ;;
        main_sign E f isExit ;;
        main_golang E f ;;
        main_new E f ;;
        main_ca E f) s.
Proof.
  intros Hn Hq. destruct (main_paths_query f c a rest s Hq) as (t & Hp & Ht).
  exists t. split; [done |]. unfold main_body. rewrite Hn.
  rewrite (bind_run _ _ _ _ _ _ (when_false _ s)).
  assert (Hl : String c a :: rest = [] ->
               IsCertList f = false /\ IsReqList f = false) by done.
  rewrite (bind_run _ _ _ _ _ _ (main_list_quiet E f _ s Hl)).
  rewrite (bind_run _ _ _ _ _ _ Hp).
  cbn [result final events app]. symmetry. apply run_eta.
Qed.

(** X5: an empty first argument.  In the [default] case of the [switch]
    (none of -req, -sign, -ca, -lang-go, -new) [main] reads the first
    byte of the first argument: for the empty string the run ends in a
    run-time panic, with nothing done and nothing written. *)
Theorem empty_name_panics (nflag : nat) (f : Flags) (rest : list string) (s : St) :
  (nflag =? 0)%nat = false ->
  is_query_mode f ->
  main_body E nflag f ("" :: rest) s
  = mkRun (Stop (Panic "runtime error: index out of range")) s [].
Proof.
  intros Hn (H1 & H2 & H3 & H4 & H5). unfold main_body. rewrite Hn.
  rewrite (bind_run _ _ _ _ _ _ (when_false _ s)).
  assert (Hl : "" :: rest = [] ->
               IsCertList f = false /\ IsReqList f = false) by done.
  rewrite (bind_run _ _ _ _ _ _ (main_list_quiet E f _ s Hl)).
  assert (Hp : main_paths f ("" :: rest) s
               = mkRun (Stop (Panic "runtime error: index out of range")) s []).
  { unfold main_paths. rewrite (bind_run _ _ _ _ _ _ (get_run s)).
    rewrite H1, H2, H3, H4, H5. reflexivity. }
  rewrite (bind_stop _ _ _ _ _ _ Hp). reflexivity.
Qed.

Lemma main_check_run f t s :
  IsCheck f = true ->
  exists o s',
    main_check E f t s
    = mkRun (Stop o) s'
        (if IsCert f then [main_call (CheckCert t) s]
         else if IsKey f then [main_call (CheckKey t) s]
         else [])
    /\ stdout s' = stdout s
    /\ (o = Exit 0 \/ exists msg, o = Fatal msg)
    /\ (IsCert f = false -> IsKey f = false -> o = Exit 0 /\ s' = s).
Proof.
  intros Hchk. unfold main_check. rewrite Hchk. cbn [when].
  destruct (IsCert f); [| destruct (IsKey f)].
  - rewrite !bind_eq, call_ext_run.
    destruct (env_ext E (CheckCert t) (G s) (fs s)) as [[out | msg] m];
      cbn; eexists _, _; repeat split; eauto; discriminate.
  - rewrite !bind_eq, call_ext_run.
    destruct (env_ext E (CheckKey t) (G s) (fs s)) as [[out | msg] m];
      cbn; eexists _, _; repeat split; eauto; discriminate.
  - cbn. eexists _, _; repeat split; eauto.
Qed.

(** X6: -chk.  On a first argument that is not empty, -chk makes at most
    one call: [CheckCert] under -cert (also when -key is given too),
    [CheckKey] under -key alone, and none without them; the file checked
    is the argument itself when it starts with a dot or a slash, else the
    name joined to the directory of the certificates, or of the keys,
    with its extension; nothing is printed; and the run ends there, with
    status 0 unless the check is fatal.  The list flags do nothing, for
    there is an argument. *)
Theorem check_calls_one_checker (nflag : nat) (f : Flags) (c : ascii)
    (a : string) (rest : list string) (s : St) :
  (nflag =? 0)%nat = false ->
  is_query_mode f ->
  IsCheck f = true ->
  let r := main_body E nflag f (String c a :: rest) s in
  exists t,
    is_target (Dir (G s)) f c (String c a) t
    /\ events r = (if IsCert f then [main_call (CheckCert t) s]
                  else if IsKey f then [main_call (CheckKey t) s]
                  else [])
    /\ stdout (final r) = stdout s
    /\ (result r = Stop (Exit 0) \/ is_Fatal (result r))
    /\ (IsCert f = false -> IsKey f = false -> r = mkRun (Stop (Exit 0)) s []).
Proof.
  intros Hn Hq Hchk r. subst r.
  destruct (main_body_query nflag f c a rest s Hn Hq) as (t & Ht & ->).
  exists t. split; [done |].
  destruct (main_check_run f t s Hchk) as (o & s' & Hrun & Hout & Ho & Hnone).
  rewrite (bind_stop _ _ _ _ _ _ Hrun). cbn [result final events].
  repeat split; [done | |].
  - destruct Ho as [-> | [msg ->]]; [by left | right; by exists msg].
  - intros Hc Hk. destruct (Hnone Hc Hk) as [-> ->]. by rewrite Hc, Hk.
Qed.

Lemma main_cat_run f t s :
  IsCat f = true ->
  let g := if IsCert f then InfoCert t else InfoKey t in
  (IsCert f = false -> IsKey f = false ->
   main_cat E f t s = mkRun (Stop (Exit 0)) s [])
  /\ (IsCert f || IsKey f = true ->
      exists o s',
        main_cat E f t s = mkRun (Stop o) s' [main_call g s]
        /\ match env_ext E g (G s) (fs s) with
           | (inl out, m) =>
               o = Exit 0 /\ stdout s' = stdout s ++ [out] /\ fs s' = m
           | (inr msg, m) =>
               o = Fatal msg /\ stdout s' = stdout s /\ fs s' = m
           end).
Proof.
  intros Hcat g. subst g. unfold main_cat. rewrite Hcat. cbn [when]. split.
  - intros -> ->. reflexivity.
  - intros Hck. rewrite bind_eq.
    destruct (IsCert f); [| destruct (IsKey f); [| discriminate]];
      rewrite print_ext_run;
      match goal with
      | |- context [env_ext E ?g (G s) (fs s)] =>
          destruct (env_ext E g (G s) (fs s)) as [[out | msg] m]
      end; cbn; eexists _, _; repeat split; eauto.
Qed.

(** X7: -cat.  On a first argument that is not empty, -cat prints what
    [InfoCert] gives under -cert (also when -key is given too), what
    [InfoKey] gives under -key alone, and nothing without them; the file
    is the argument itself when it starts with a dot or a slash, else the
    name joined to the directory of the certificates, or of the keys,
    with its extension; the run ends there, with status 0, or in
    log.Fatal with nothing printed when the call fails. *)
Theorem cat_prints_one_file (nflag : nat) (f : Flags) (c : ascii)
    (a : string) (rest : list string) (s : St) :
  (nflag =? 0)%nat = false ->
  is_query_mode f ->
  IsCheck f = false -> IsCat f = true ->
  let r := main_body E nflag f (String c a :: rest) s in
  exists t,
    is_target (Dir (G s)) f c (String c a) t
    /\ (IsCert f = false -> IsKey f = false -> r = mkRun (Stop (Exit 0)) s [])
    /\ (IsCert f || IsKey f = true ->
        let g := if IsCert f then InfoCert t else InfoKey t in
        events r = [main_call g s]
        /\ match env_ext E g (G s) (fs s) with
           | (inl out, m) =>
               result r = Stop (Exit 0)
               /\ stdout (final r) = stdout s ++ [out]
           | (inr msg, m) =>
               result r = Stop (Fatal msg) /\ stdout (final r) = stdout s
           end).
Proof.
  intros Hn Hq Hchk Hcat r. subst r.
  destruct (main_body_query nflag f c a rest s Hn Hq) as (t & Ht & ->).
  exists t. split; [done |].
  rewrite (bind_run _ _ _ _ _ _ (main_check_skip E f t s Hchk)).
  destruct (main_cat_run f t s Hcat) as (Hnone & Hone). split.
  - intros Hc Hk. rewrite (bind_stop _ _ _ _ _ _ (Hnone Hc Hk)). reflexivity.
  - intros Hck g. destruct (Hone Hck) as (o & s' & Hrun & Hres).
    rewrite (bind_stop _ _ _ _ _ _ Hrun). cbn [result final events app].
    split; [done |]. subst g.
    destruct (env_ext E _ (G s) (fs s)) as [[out | msg] m];
      destruct Hres as (-> & Hout & _); done.
Qed.

Lemma when_print_ext_run b g s :
  exists res s',
    when b (print_ext E g) s
    = mkRun res s' (if b then [main_call g s] else [])
    /\ G s' = G s
    /\ (res = Val tt
        /\ (exists outs, stdout s' = stdout s ++ outs
                         /\ length outs = if b then 1%nat else 0%nat)
        \/ b = true /\ (exists msg, res = Stop (Fatal msg))
           /\ stdout s' = stdout s).
Proof.
  destruct b; cbn [when].
  - rewrite print_ext_run.
    destruct (env_ext E g (G s) (fs s)) as [[out | msg] m];
      eexists _, _; (split; [reflexivity |]); (split; [reflexivity |]).
    + left. split; [done |]. by exists [out].
    + right. eauto.
  - eexists _, _. split; [reflexivity |]. split; [reflexivity |].
    left. split; [done |]. exists []. by rewrite app_nil_r.
Qed.

Lemma calls_of_G l s s' : G s' = G s -> calls_of l s' = calls_of l s.
Proof. intros H. unfold calls_of, main_call. by rewrite H. Qed.

Lemma print_then_run l : forall s,
  exists o s' ev outs,
    print_then E l (os_Exit 0) s = mkRun (Stop o) s' ev
    /\ stdout s' = stdout s ++ outs
    /\ (o = Exit 0 /\ ev = calls_of l s /\ length outs = length ev
        \/ (exists msg, o = Fatal msg) /\ ev `prefix_of` calls_of l s
           /\ S (length outs) = length ev).
Proof.
  induction l as [|[b g] l IH]; intros s; cbn [print_then].
  - exists (Exit 0), s, [], []. rewrite app_nil_r. split; [done |].
    split; [done |]. by left.
  - destruct (when_print_ext_run b g s)
      as (res & s1 & Hrun & HG & [(-> & outs & Hout & Hlen) | (-> & (msg & ->) & Hout)]).
    + rewrite (bind_run _ _ _ _ _ _ Hrun).
      destruct (IH s1) as (o & s' & ev & outs' & Hrest & Hout' & Hcase).
      rewrite Hrest. cbn [result final events].
      exists o, s', ((if b then [main_call g s] else []) ++ ev), (outs ++ outs').
      split; [done |]. split; [by rewrite Hout', Hout, app_assoc |].
      rewrite (calls_of_G l s s1 HG) in Hcase.
      cbn [calls_of flat_map fst snd]. fold (calls_of l s).
      rewrite !length_app, Hlen.
      destruct Hcase as [(-> & -> & Hl) | (Hm & Hpre & Hl)].
      * left. repeat split. destruct b; simpl; lia.
      * right. split; [done |]. split; [by apply prefix_app |].
        destruct b; simpl; lia.
    + rewrite (bind_stop _ _ _ _ _ _ Hrun).
      exists (Fatal msg), s1, [main_call g s], []. rewrite app_nil_r.
      split; [done |]. split; [done |]. right. split; [by exists msg |].
      split; [| done]. cbn [calls_of flat_map fst snd].
      by apply prefix_app_r.
Qed.

(** X8: -i.  On a first argument that is not empty, -i -full prints what
    [InfoFull] gives and nothing else, whatever other flags of -i are
    given; without -full it makes the calls for -end-date, -hash, -issuer
    and -name, those given, in that order whatever the order on the
    command line, all on the same file, and prints one output for each;
    the first call that fails is fatal and the last one made; otherwise
    the run ends with status 0 after them. *)
Theorem info_queries_in_order (nflag : nat) (f : Flags) (c : ascii)
    (a : string) (rest : list string) (s : St) :
  (nflag =? 0)%nat = false ->
  is_query_mode f ->
  IsCheck f = false -> IsCat f = false -> IsInfo f = true ->
  let r := main_body E nflag f (String c a :: rest) s in
  exists t outs,
    is_target (Dir (G s)) f c (String c a) t
    /\ stdout (final r) = stdout s ++ outs
    /\ let expected := if IsFullInfo f then [main_call (InfoFull t) s]
                       else calls_of (info_queries f t) s in
       (result r = Stop (Exit 0) /\ events r = expected
        /\ length outs = length (events r)
        \/ is_Fatal (result r) /\ events r `prefix_of` expected
           /\ S (length outs) = length (events r)).
Proof.
  intros Hn Hq Hchk Hcat Hinfo r. subst r.
  destruct (main_body_query nflag f c a rest s Hn Hq) as (t & Ht & ->).
  exists t.
  rewrite (bind_run _ _ _ _ _ _ (main_check_skip E f t s Hchk)).
  rewrite (bind_run _ _ _ _ _ _ (main_cat_skip E f t s Hcat)).
  cbn [app]. unfold is_Fatal.
  assert (Hrun : exists o s' ev outs,
    main_info E f t s = mkRun (Stop o) s' ev
    /\ stdout s' = stdout s ++ outs
    /\ let expected := if IsFullInfo f then [main_call (InfoFull t) s]
                       else calls_of (info_queries f t) s in
       (o = Exit 0 /\ ev = expected /\ length outs = length ev
        \/ (exists msg, o = Fatal msg) /\ ev `prefix_of` expected
           /\ S (length outs) = length ev)).
  { unfold main_info. rewrite Hinfo. cbn [when].
    destruct (IsFullInfo f); cbn [when].
    - rewrite !bind_eq, print_ext_run.
      destruct (env_ext E (InfoFull t) (G s) (fs s)) as [[out | msg] m]; cbn.
      + exists (Exit 0), (add_stdout out (set_fs (fun _ => m) s)),
          [main_call (InfoFull t) s], [out]. eauto 10.
      + eexists (Fatal msg), _, [main_call (InfoFull t) s], [].
        rewrite app_nil_r. split; [reflexivity |]. split; [reflexivity |].
        right. eauto.
    - rewrite (bind_run _ _ s tt s []) by reflexivity.
      cbn [app]. rewrite <- run_eta.
      exact (print_then_run (info_queries f t) s). }
  destruct Hrun as (o & s' & ev & outs & Hrun & Hout & Hcase).
  exists outs. split; [done |].
  rewrite (bind_stop _ _ _ _ _ _ Hrun). cbn [result final events].
  split; [done |]. cbv zeta in *.
  destruct Hcase as [(-> & -> & Hl) | ((msg & ->) & Hpre & Hl)];
    [left | right]; eauto.
Qed.

End Queries.

Lemma empty_name_panics_witness :
  result (main_body demo_env 1 (set_bool f_chk true default_flags) [""]
            (demo_state demo_fs []))
  = Stop (Panic "runtime error: index out of range").
Proof.
  rewrite (empty_name_panics demo_env 1 (set_bool f_chk true default_flags) []
             (demo_state demo_fs []) eq_refl); [reflexivity |].
  repeat split.
Defined.

Lemma check_calls_one_checker_witness :
  exists t,
    is_target (Dir (G (demo_state demo_fs_ca [])))
      (set_bool f_cert true (set_bool f_chk true default_flags)) "w" "www" t
    /\ events (main_body demo_env 1
                 (set_bool f_cert true (set_bool f_chk true default_flags))
                 ["www"] (demo_state demo_fs_ca []))
       = [main_call (CheckCert t) (demo_state demo_fs_ca [])].
Proof.
  destruct (check_calls_one_checker demo_env 1
              (set_bool f_cert true (set_bool f_chk true default_flags))
              "w" "ww" [] (demo_state demo_fs_ca []) eq_refl)
    as (t & Ht & Hev & _); [repeat split | reflexivity |].
  exists t. split; [exact Ht | exact Hev].
Defined.

Lemma cat_prints_one_file_witness :
  exists t,
    is_target (Dir (G (demo_state demo_fs_ca [])))
      (set_bool f_key true (set_bool f_cat true default_flags)) "w" "www" t
    /\ (main_body demo_env 1
          (set_bool f_key true (set_bool f_cat true default_flags))
          ["www"] (demo_state demo_fs_ca [])
        = mkRun (Stop (Exit 0)) (demo_state demo_fs_ca []) [] -> False).
Proof.
  destruct (cat_prints_one_file demo_env 1
              (set_bool f_key true (set_bool f_cat true default_flags))
              "w" "ww" [] (demo_state demo_fs_ca []) eq_refl)
    as (t & Ht & _ & Hone); [repeat split | reflexivity | reflexivity |].
  exists t. split; [exact Ht |].
  destruct (Hone eq_refl) as (Hev & _). intros Hrun.
  rewrite Hrun in Hev. discriminate Hev.
Defined.

Lemma info_queries_in_order_witness :
  exists t outs,
    is_target (Dir (G (demo_state demo_fs_ca [])))
      (set_bool f_hash true (set_bool f_i true default_flags)) "." "./www.crt" t
    /\ stdout (final (main_body demo_env 1
                        (set_bool f_hash true (set_bool f_i true default_flags))
                        ["./www.crt"] (demo_state demo_fs_ca [])))
       = outs.
Proof.
  destruct (info_queries_in_order demo_env 1
              (set_bool f_hash true (set_bool f_i true default_flags))
              "." "/www.crt" [] (demo_state demo_fs_ca []) eq_refl)
    as (t & outs & Ht & Hout & _);
    [repeat split | reflexivity | reflexivity | reflexivity |].
  exists t, (stdout (demo_state demo_fs_ca []) ++ outs).
  split; [exact Ht | exact Hout].
Defined.

(** ** No flag, and the parameters of -lang-go *)

Section Modes.

Variable E : Env.

(** X9: without any flag on the command line, whatever the arguments
    are, [main] writes one line to standard error and ends with status 2:
    no call is made, no file is touched and nothing goes to standard
    output. *)
Theorem no_flag_exits_2 (cmd : list FlagArg) (args : list string) (s : St) :
  flag_NFlag cmd = 0%nat ->
  let r := main E cmd args s in
  result r = Stop (Exit 2)
  /\ events r = []
  /\ fs (final r) = fs s
  /\ stdout (final r) = stdout s
  /\ stderr (final r) = stderr s ++ ["Generate and handle certificates" +:+ nl].
Proof.
  intros H0. apply flag_NFlag_zero in H0. subst cmd. done.
Qed.

Lemma main_paths_golang_missing f args s :
  IsRequest f = false -> IsSignReq f = false -> IsCA f = false ->
  IsGoLang f = true ->
  CACert f = "" \/ ServerCert f = "" ->
  main_paths f args s
  = mkRun (Stop (Fatal "Missing required parameter in `-ca-cert` or `-server-cert` flag"))
      (add_stderr ("FAIL! " +:+
         "Missing required parameter in `-ca-cert` or `-server-cert` flag" +:+ nl) s)
      [].
Proof.
  intros H1 H2 H3 H4 Hm. unfold main_paths.
  rewrite (bind_run _ _ _ _ _ _ (get_run s)). rewrite H1, H2, H3, H4.
  cbn [orb].
  assert (Hb : String.eqb (CACert f) "" || String.eqb (ServerCert f) "" = true).
  { destruct Hm as [-> | ->]; [done | by rewrite orb_true_r]. }
  rewrite Hb. reflexivity.
Qed.

(** X10: -lang-go needs both certificates.  With -lang-go (and none of
    -req, -sign, -ca), an empty -ca-cert or -server-cert - the latter is
    empty unless it is given - ends the run in log.Fatal with the message
    of line 265, before any query, check of a file or call: no event, and
    the file system and the globals as they were. *)
Theorem lang_go_missing_parameter (nflag : nat) (f : Flags) (args : list string)
    (s : St) :
  (nflag =? 0)%nat = false ->
  (args = [] -> IsCertList f = false /\ IsReqList f = false) ->
  IsRequest f = false -> IsSignReq f = false -> IsCA f = false ->
  IsGoLang f = true ->
  CACert f = "" \/ ServerCert f = "" ->
  let r := main_body E nflag f args s in
  result r
  = Stop (Fatal "Missing required parameter in `-ca-cert` or `-server-cert` flag")
  /\ events r = []
  /\ fs (final r) = fs s /\ G (final r) = G s /\ stdout (final r) = stdout s.
Proof.
  intros Hn Hl H1 H2 H3 H4 Hm r. subst r. unfold main_body. rewrite Hn.
  rewrite (bind_run _ _ _ _ _ _ (when_false _ s)).
  rewrite (bind_run _ _ _ _ _ _ (main_list_quiet E f args s Hl)).
  rewrite (bind_stop _ _ _ _ _ _
             (main_paths_golang_missing f args s H1 H2 H3 H4 Hm)).
  done.
Qed.

(** X11: the paths of -lang-go.  With both parameters given, the
    [switch] sets the certificate and the key of the server from
    -server-cert, always taken as a name: joined to the directory of the
    certificates with .crt, and to that of the keys with .key, also when
    it starts with a dot or a slash; -ca-cert is taken as a name the same
    way unless it starts with a dot or a slash, when it is left as given.
    Nothing else changes and no step is made. *)
Theorem lang_go_paths (f : Flags) (args : list string) (c : ascii)
    (ca : string) (s : St) :
  IsRequest f = false -> IsSignReq f = false -> IsCA f = false ->
  IsGoLang f = true ->
  CACert f = String c ca -> ServerCert f <> "" ->
  let r := main_paths f args s in
  let D := Dir (G s) in
  result r = Val ""
  /\ events r = []
  /\ fs (final r) = fs s /\ Dir (G (final r)) = D
  /\ FilePath.Cert (File (G (final r)))
     = filepath.Join [DirPath.Cert D; ServerCert f +:+ EXT_CERT]
  /\ FilePath.Key (File (G (final r)))
     = filepath.Join [DirPath.Key D; ServerCert f +:+ EXT_KEY]
  /\ FilePath.Request (File (G (final r))) = FilePath.Request (File (G s))
  /\ ServerCert (Fl (G (final r))) = ServerCert (Fl (G s))
  /\ CACert (Fl (G (final r)))
     = if is_name c
       then filepath.Join [DirPath.Cert D; String c ca +:+ EXT_CERT]
       else CACert (Fl (G s)).
Proof.
  intros H1 H2 H3 H4 Hca Hsrv r D. subst r D. unfold main_paths.
  rewrite (bind_run _ _ _ _ _ _ (get_run s)). rewrite H1, H2, H3, H4.
  cbn [orb]. rewrite Hca.
  assert (Hb : String.eqb (String c ca) "" || String.eqb (ServerCert f) "" = false).
  { cbn [String.eqb orb]. by apply String.eqb_neq. }
  rewrite Hb. cbn [when byte0].
  rewrite (bind_run _ _ s tt s []) by reflexivity.
  rewrite (bind_run _ _ s c s []) by reflexivity.
  destruct (is_name c); cbn; repeat split; done.
Qed.

Lemma fatal_if_exists_fresh msg path s :
  fs s !! path = None -> hd false (faults s) = false ->
  fatal_if_exists msg path s
  = mkRun (Val tt) (stepped s) [ESys (Stat path) (Some ENOENT)].
Proof.
  intros Hp Hf. rewrite fatal_if_exists_run. cbv zeta. by rewrite Hf, Hp.
Qed.

(** X12: -req -sign NAME in one run.  When neither the request nor the
    certificate of NAME exists, and [NewRequest] and [SignReq] come back,
    the run is: the check of the request file, [NewRequest], the check of
    the certificate file, [SignReq], in that order and with the paths
    resolved for NAME; the banner of the signature is printed between
    the two; and the run ends with status 0. *)
Theorem request_then_sign (nflag : nat) (f : Flags) (name : string)
    (rest : list string) (s : St) (out1 out2 : string) (m1 m2 : gmap string Node) :
  (nflag =? 0)%nat = false ->
  IsRequest f = true -> IsSignReq f = true -> IsCA f = false ->
  IsCheck f = false -> IsCat f = false -> IsInfo f = false ->
  let s1 := resolved name s in
  let request := filepath.Join [DirPath.Root (Dir (G s)); name +:+ EXT_REQUEST] in
  let cert := filepath.Join [DirPath.Cert (Dir (G s)); name +:+ EXT_CERT] in
  fs s !! request = None -> hd false (faults s) = false ->
  env_ext E NewRequest (G s1) (fs s) = (inl out1, m1) ->
  m1 !! cert = None -> hd false (tl (faults s)) = false ->
  env_ext E SignReq (G s1) m1 = (inl out2, m2) ->
  let r := main_body E nflag f (name :: rest) s in
  result r = Stop (Exit 0)
  /\ events r = [ESys (Stat request) (Some ENOENT); main_call NewRequest s1;
                 ESys (Stat cert) (Some ENOENT); main_call SignReq s1]
  /\ fs (final r) = m2
  /\ stdout (final r) = stdout s ++ [nl +:+ "== Sign" +:+ nl +:+ nl].
Proof.
  intros Hn Hreq Hsign Hca Hchk Hcat Hinfo s1 request cert
         Hfresh1 Hf1 Hnew Hfresh2 Hf2 Hsig r. subst r.
  assert (Hpaths : main_paths f (name :: rest) s = mkRun (Val name) s1 []).
  { apply main_paths_named; [by rewrite Hreq | by rewrite Hca]. }
  rewrite (main_body_past_queries E nflag f (name :: rest) s name s1 Hn
             ltac:(repeat split; done) Hpaths).
  assert (Hrun1 : main_request E f false s1
                  = mkRun (Val true) (set_fs (fun _ => m1) (stepped s1))
                      [ESys (Stat request) (Some ENOENT); main_call NewRequest s1]).
  { unfold main_request. rewrite Hreq.
    rewrite (bind_run _ _ _ _ _ _ (get_run s1)).
    rewrite (bind_run _ _ _ _ _ _
               (fatal_if_exists_fresh _ _ s1 Hfresh1 Hf1)).
    rewrite bind_eq, call_ext_run. cbn [stepped set_faults G fs].
    change (fs s1) with (fs s). rewrite Hnew. reflexivity. }
  rewrite (bind_run _ _ _ _ _ _ Hrun1).
  assert (Hrun2 : main_sign E f true (set_fs (fun _ => m1) (stepped s1))
                  = mkRun (Stop (Exit 0))
                      (set_fs (fun _ => m2)
                         (add_stdout (nl +:+ "== Sign" +:+ nl +:+ nl)
                            (stepped (set_fs (fun _ => m1) (stepped s1)))))
                      [ESys (Stat cert) (Some ENOENT); main_call SignReq s1]).
  { unfold main_sign. rewrite Hsign. cbn [when]. rewrite bind_eq.
    rewrite (bind_run _ _ _ _ _ _ (get_run _)).
    rewrite (bind_run _ _ _ _ _ _
               (fatal_if_exists_fresh _ _ (set_fs (fun _ => m1) (stepped s1))
                  Hfresh2 Hf2)).
    unfold fmt_Print. rewrite (bind_run _ _ _ _ _ _ (modify_run _ _)).
    rewrite bind_eq, call_ext_run.
    cbn [stepped set_faults set_fs add_stdout G fs]. rewrite Hsig. reflexivity. }
  rewrite (bind_stop _ _ _ _ _ _ Hrun2). done.
Qed.

End Modes.

Lemma no_flag_exits_2_witness :
  result (main demo_env [] ["www"] (demo_state demo_fs [])) = Stop (Exit 2).
Proof.
  destruct (no_flag_exits_2 demo_env [] ["www"] (demo_state demo_fs []) eq_refl)
    as (H & _).
  exact H.
Defined.

Lemma lang_go_missing_parameter_witness :
  result (main_body demo_env 1 (set_bool f_lang_go true default_flags) []
            (demo_state demo_fs []))
  = Stop (Fatal "Missing required parameter in `-ca-cert` or `-server-cert` flag").
Proof.
  destruct (lang_go_missing_parameter demo_env 1
              (set_bool f_lang_go true default_flags) []
              (demo_state demo_fs []) eq_refl (fun _ => conj eq_refl eq_refl)
              eq_refl eq_refl eq_refl eq_refl (or_intror eq_refl)) as (H & _).
  exact H.
Defined.

Lemma lang_go_paths_witness :
  FilePath.Key (File (G (final
    (main_paths (set_ServerCert "www" (set_bool f_lang_go true default_flags))
       [] (demo_state demo_fs [])))))
  = "/home/u/.cert/private/www.key".
Proof.
  destruct (lang_go_paths
              (set_ServerCert "www" (set_bool f_lang_go true default_flags))
              [] "c" "a" (demo_state demo_fs [])
              eq_refl eq_refl eq_refl eq_refl eq_refl)
    as (_ & _ & _ & _ & _ & H & _); [discriminate |].
  rewrite H. vm_compute. reflexivity.
Defined.

Lemma request_then_sign_witness :
  result (main_body demo_env 2
            (set_bool f_sign true (set_bool f_req true default_flags))
            ["www"] (demo_state demo_fs []))
  = Stop (Exit 0).
Proof.
  destruct (request_then_sign demo_env 2
              (set_bool f_sign true (set_bool f_req true default_flags))
              "www" [] (demo_state demo_fs []) "" "" demo_fs demo_fs
              eq_refl eq_refl eq_refl eq_refl eq_refl eq_refl eq_refl)
    as (H & _); [by vm_compute | reflexivity | reflexivity | by vm_compute
                | reflexivity | reflexivity |].
  exact H.
Defined.

(** ** Runs that come to their end: a Hoare logic on states *)

Lemma hoare_bind {A B} P (m : M A) (k : A -> M B) Q R :
  hoare P m Q -> (forall a, hoare (Q a) (k a) R) -> hoare P (bind m k) R.
Proof.
  intros Hm Hk s b HP. rewrite bind_eq.
  destruct (result (m s)) as [a | o] eqn:Hr; cbn [result final]; [| done].
  intros Hb. apply (Hk a (final (m s)) b); [by apply Hm | done].
Qed.

Lemma hoare_weaken {A} (P P' : St -> Prop) (m : M A) (Q Q' : A -> St -> Prop) :
  hoare P' m Q' -> (forall s, P s -> P' s) -> (forall a s, Q' a s -> Q a s) ->
  hoare P m Q.
Proof. intros H HP HQ s a Hs Hr. apply HQ, H; auto. Qed.

Lemma hoare_never {A} P (m : M A) Q : never_returns m -> hoare P m Q.
Proof. intros H s a _ Hr. destruct (H s) as [o Ho]. congruence. Qed.

Lemma hoare_ret {A} P (a : A) : hoare P (ret a) (fun b s => b = a /\ P s).
Proof. intros s b HP [= <-]. done. Qed.

Lemma hoare_fatal_on_error {A} P op path (r : A + Errno) :
  hoare P (fatal_on_error op path r) (fun a s => r = inl a /\ P s).
Proof.
  destruct r as [a | e]; [| apply hoare_never, never_returns_log_Fatal].
  intros s a' HP [= <-]. done.
Qed.

Lemma hoare_pure {A} (phi : Prop) (P : St -> Prop) (m : M A) Q :
  (phi -> hoare P m Q) -> hoare (fun s => phi /\ P s) m Q.
Proof. intros H s a [Hphi HP]. by apply H. Qed.

Lemma hoare_pure_r {A} (phi : Prop) (P : St -> Prop) (m : M A) Q :
  (phi -> hoare P m Q) -> hoare (fun s => P s /\ phi) m Q.
Proof. intros H s a [HP Hphi]. by apply H. Qed.

Lemma hoare_exists {A X} (P : X -> St -> Prop) (m : M A) Q :
  (forall x, hoare (P x) m Q) -> hoare (fun s => exists x, P x s) m Q.
Proof. intros H s a [x HP]. by apply (H x). Qed.

(** A checked step: [r <- step ;; x <- fatal_on_error r ;; k x]. *)
Lemma hoare_checked {A B} P (step : M (A + Errno)) op path (k : A -> M B) Q R :
  hoare P step (fun r s => forall a, r = inl a -> Q a s) ->
  (forall a, hoare (Q a) (k a) R) ->
  hoare P (r <- step ;; x <- fatal_on_error op path r ;; k x) R.
Proof.
  intros Hs Hk.
  apply (hoare_bind _ _ _ (fun r s => forall a, r = inl a -> Q a s)); [done |].
  intros r. apply (hoare_bind _ _ _ Q); [| done].
  destruct r as [a | e]; [| apply hoare_never, never_returns_log_Fatal].
  intros s a' HQ [= <-]. by apply HQ.
Qed.

(** A step that reads: the state stays, up to the faults left. *)
Lemma hoare_read {A} s0 m op (f : gmap string Node -> A + Errno) dflt :
  hoare (at_fs s0 m) (syscall_read op f dflt)
    (fun r s => at_fs s0 m s /\ (r = dflt \/ r = f m)).
Proof.
  intros s r (Hq & HG & Hfs). unfold syscall_read. cbn [result final].
  intros [= <-]. split; [done |]. rewrite Hfs.
  destruct (hd false (faults s)); auto.
Qed.

(** A step that writes: the fault, or what [f] does. *)
Lemma hoare_write {A} s0 m op
    (f : gmap string Node -> (A + Errno) * gmap string Node) :
  hoare (at_fs s0 m) (syscall op f)
    (fun r s => r = inr EIO /\ at_fs s0 m s
                \/ r = fst (f m) /\ at_fs s0 (snd (f m)) s).
Proof.
  intros s r (Hq & HG & Hfs). unfold syscall. cbv zeta. rewrite Hfs.
  destruct (hd false (faults s)); cbn [result final]; intros [= <-];
    [left | right]; done.
Qed.

Lemma hoare_ReadFile s0 m path :
  hoare (at_fs s0 m) (ioutil_ReadFile path)
    (fun r s => forall c, r = inl c -> file_has path c m /\ at_fs s0 m s).
Proof.
  eapply hoare_weaken; [apply hoare_read | done |].
  intros r s [Hs [-> | ->]] c; [done |]. cbv beta.
  destruct (m !! path) as [[v | p c'] |] eqn:Hp; try done.
  intros [= <-]. split; [by exists p | done].
Qed.

Lemma hoare_Close s0 m file :
  hoare (at_fs s0 m) (file_Close file) (fun _ s => at_fs s0 m s).
Proof.
  eapply hoare_weaken; [apply hoare_read | done |]. by intros r s [Hs _].
Qed.

Lemma hoare_Stat s0 m path :
  hoare (at_fs s0 m) (os_Stat path) (fun _ s => at_fs s0 m s).
Proof.
  eapply hoare_weaken; [apply hoare_read | done |]. by intros r s [Hs _].
Qed.

Lemma hoare_Create s0 m umask path :
  hoare (at_fs s0 m) (os_Create umask path)
    (fun r s => forall a, r = inl a ->
       a = path /\ exists p, at_fs s0 (<[path := NFile p ""]> m) s).
Proof.
  eapply hoare_weaken; [apply hoare_write | done |]. cbv beta.
  intros r s [[-> Hs] | [-> Hs]] a; [done |].
  destruct (m !! path) as [[v | p c'] |] eqn:Hp; cbn [fst snd] in *;
    try done; intros [= <-]; eauto.
Qed.

Lemma hoare_Create_as s0 m umask path :
  hoare (at_fs s0 m) (os_Create umask path)
    (fun r s => forall a, r = inl a ->
       a = path /\ at_fs s0 (created umask path m) s).
Proof.
  eapply hoare_weaken; [apply hoare_write | done |]. cbv beta.
  intros r s [[-> Hs] | [-> Hs]] a; [done |]. unfold created.
  destruct (m !! path) as [[v | p c'] |] eqn:Hp; cbn [fst snd] in *;
    try done; intros [= <-]; eauto.
Qed.

(** A write to an open file appends; when it fails, the file system is
    still one where the file, if it was one, has some content. *)
Lemma hoare_append s0 m op file data (ok : bool) :
  hoare (at_fs s0 m)
    (syscall op (fun m0 =>
       match m0 !! file with
       | Some (NFile p c) =>
           (if ok then inl tt else inr EINVAL, <[file := NFile p (c +:+ data)]> m0)
       | _ => (inr EIO, m0)
       end))
    (fun r s => exists m', at_fs s0 m' s
       /\ (forall q, q <> file -> m' !! q = m !! q)
       /\ (forall c, file_has file c m -> exists c', file_has file c' m')
       /\ (forall a, r = inl a ->
           ok = true /\ forall c, file_has file c m -> file_has file (c +:+ data) m')).
Proof.
  eapply hoare_weaken; [apply hoare_write | done |]. cbv beta.
  intros r s [[-> Hs] | [-> Hs]].
  - exists m. split; [done |]. split; [done |]. split; [eauto | done].
  - destruct (m !! file) as [[v | p c'] |] eqn:Hp; cbn [fst snd] in *.
    + exists m. split; [done |]. split; [done |]. split; [eauto | done].
    + eexists. split; [exact Hs |]. split.
      { intros q Hq. by rewrite lookup_insert_ne. }
      split.
      { intros _ _. eexists _, p. apply lookup_insert_eq. }
      intros a Ha. destruct ok; [| done]. split; [done |].
      intros c [p' Hc]. rewrite Hp in Hc. injection Hc as <- <-.
      exists p. apply lookup_insert_eq.
    + exists m. split; [done |]. split; [done |]. split; [eauto | done].
Qed.

Lemma hoare_get_at s0 m :
  hoare (at_fs s0 m) get (fun a s => G a = G s0 /\ at_fs s0 m s).
Proof. intros s a Hs [= <-]. split; [apply Hs | done]. Qed.

Lemma hoare_envcall_at {A} s0 m op (v : option A) :
  hoare (at_fs s0 m) (envcall op v)
    (fun r s => forall a, r = inl a -> v = Some a /\ at_fs s0 m s).
Proof.
  intros s r Hs. unfold envcall. destruct v as [a |]; cbn; intros [= <-].
  - by intros ? [= <-].
  - discriminate.
Qed.

Section Written.

Variable E : Env.

Lemma hoare_call_ext_at s0 m from g :
  hoare (at_fs s0 m) (call_ext E from g)
    (fun out s => fst (env_ext E g (G s0) m) = inl out
                  /\ at_fs s0 (snd (env_ext E g (G s0) m)) s).
Proof.
  intros s out (Hq & HG & Hfs). rewrite call_ext_run, HG, Hfs.
  destruct (env_ext E g (G s0) m) as [[o | msg] m'] eqn:He; cbn;
    [| discriminate].
  intros [= <-]. done.
Qed.

(** Rendering a template into an open file, closing it, and the check. *)
Lemma hoare_emit_go s0 m name server data :
  hoare (at_fs s0 m) (emit_go E name server data)
    (fun _ s => exists m', at_fs s0 m' s
       /\ (forall q, q <> name -> m' !! q = m !! q)
       /\ (forall c, file_has name c m ->
           file_has name (c +:+ fst (env_TMPL_GO E server data)) m')).
Proof.
  unfold emit_go.
  eapply hoare_bind; [apply hoare_append |]. intros x. cbv beta.
  apply hoare_exists. intros m'.
  apply hoare_pure_r. intros (Hq & Hc & Hok).
  eapply hoare_bind; [apply hoare_Close |]. intros ?.
  eapply hoare_weaken; [apply hoare_fatal_on_error | done |].
  intros [] s [-> Hs]. exists m'. split; [done |]. split; [done |].
  intros c Hf. by apply (Hok tt eq_refl).
Qed.


(** X13: what [Cert2Lang] writes.  When [Cert2Lang] comes to its end (and
    [InfoEndDate] only reads), the three inputs were regular files and
    "openssl version" has run; the server file and the client file each
    hold what their template renders from the same data: the system, the
    date, the version without its final newlines, the Go blocks of the CA
    certificate, the certificate and the key as they were read before
    anything was written, and for the end date what [InfoEndDate] has
    returned for the certificate, asked once the server file was opened,
    without its final newlines; no other path has changed, and nothing
    was printed. *)
Theorem Cert2Lang_writes_both_files (s : St) :
  InfoEndDate_reads E ->
  result (Cert2Lang E s) = Val tt ->
  exists ca cert key version endDate,
    file_has (CACert (Fl (G s))) ca (fs s)
    /\ file_has (FilePath.Cert (File (G s))) cert (fs s)
    /\ file_has (FilePath.Key (File (G s))) key (fs s)
    /\ env_version E = Some version
    /\ fst (env_ext E (InfoEndDate (FilePath.Cert (File (G s)))) (G s)
              (created (env_umask E) _FILE_SERVER_GO (fs s)))
       = inl endDate
    /\ file_has _FILE_SERVER_GO
         (fst (env_TMPL_GO E true (go_data E ca cert key version endDate)))
         (fs (final (Cert2Lang E s)))
    /\ file_has _FILE_CLIENT_GO
         (fst (env_TMPL_GO E false (go_data E ca cert key version endDate)))
         (fs (final (Cert2Lang E s)))
    /\ (forall q, q <> _FILE_SERVER_GO -> q <> _FILE_CLIENT_GO ->
        fs (final (Cert2Lang E s)) !! q = fs s !! q)
    /\ quiet_since s (final (Cert2Lang E s)).
Proof.
  intros Hreads Hres.
  assert (H : hoare (at_fs s (fs s)) (Cert2Lang E) (fun _ s' =>
    exists ca cert key version endDate,
      file_has (CACert (Fl (G s))) ca (fs s)
      /\ file_has (FilePath.Cert (File (G s))) cert (fs s)
      /\ file_has (FilePath.Key (File (G s))) key (fs s)
      /\ env_version E = Some version
      /\ fst (env_ext E (InfoEndDate (FilePath.Cert (File (G s)))) (G s)
                (created (env_umask E) _FILE_SERVER_GO (fs s)))
         = inl endDate
      /\ file_has _FILE_SERVER_GO
           (fst (env_TMPL_GO E true (go_data E ca cert key version endDate)))
           (fs s')
      /\ file_has _FILE_CLIENT_GO
           (fst (env_TMPL_GO E false (go_data E ca cert key version endDate)))
           (fs s')
      /\ (forall q, q <> _FILE_SERVER_GO -> q <> _FILE_CLIENT_GO ->
          fs s' !! q = fs s !! q)
      /\ quiet_since s s')).
  2:{ apply (H s tt); [done | exact Hres]. }
  clear Hres. unfold Cert2Lang.
  eapply hoare_bind; [apply hoare_get_at |]. intros s1. cbv beta zeta.
  apply hoare_pure. intros ->.
  eapply hoare_checked; [apply hoare_ReadFile |]. intros ca. cbv beta.
  apply hoare_pure. intros Hca.
  eapply hoare_checked; [apply hoare_ReadFile |]. intros cert. cbv beta.
  apply hoare_pure. intros Hcert.
  eapply hoare_checked; [apply hoare_ReadFile |]. intros key. cbv beta.
  apply hoare_pure. intros Hkey.
  eapply hoare_checked; [apply hoare_envcall_at |]. intros version. cbv beta.
  apply hoare_pure. intros Hversion.
  eapply hoare_checked; [apply hoare_Create_as |]. intros file. cbv beta.
  apply hoare_pure. intros ->.
  eapply hoare_bind; [apply hoare_call_ext_at |]. intros endDate. cbv beta.
  rewrite Hreads. apply hoare_pure. intros HendDate.
  fold (go_data E ca cert key version endDate).
  eapply hoare_bind; [apply hoare_emit_go |]. intros ?. cbv beta.
  apply hoare_exists. intros m2. apply hoare_pure_r. intros [Hq2 Hc2].
  eapply hoare_checked; [apply hoare_Create |]. intros file. cbv beta.
  apply hoare_pure. intros ->. apply hoare_exists. intros p2.
  eapply hoare_weaken; [apply hoare_emit_go | done |]. cbv beta.
  intros ? s' (m3 & (Hquiet & _ & Hfs) & Hq3 & Hc3).
  exists ca, cert, key, version, endDate. rewrite Hfs.
  repeat split; try done; try apply Hquiet.
  - destruct (Hc2 "") as [p Hp];
      [eexists; unfold created; apply lookup_insert_eq |].
    exists p. rewrite Hq3 by done. rewrite lookup_insert_ne by done. exact Hp.
  - apply (Hc3 ""). exists p2. apply lookup_insert_eq.
  - intros q Hs Hc. rewrite Hq3 by done. rewrite lookup_insert_ne by done.
    rewrite Hq2 by done. unfold created. by rewrite lookup_insert_ne.
Qed.

Lemma checked_fail {A B} (step : M (A + Errno)) op path (k : A -> M B) s e s' ev :
  step s = mkRun (Val (inr e)) s' ev ->
  (r <- step ;; x <- fatal_on_error op path r ;; k x) s
  = mkRun (Stop (Fatal (PathError op path e)))
      (add_stderr ("FAIL! " +:+ PathError op path e +:+ nl) s') ev.
Proof.
  intros H. rewrite (bind_run _ _ _ _ _ _ H). cbn [fatal_on_error].
  rewrite bind_eq. cbn. by rewrite app_nil_r.
Qed.

Lemma checked_ok {A B} (step : M (A + Errno)) op path (k : A -> M B) s a s' ev :
  step s = mkRun (Val (inl a)) s' ev ->
  (r <- step ;; x <- fatal_on_error op path r ;; k x) s
  = mkRun (result (k a s')) (final (k a s')) (ev ++ events (k a s')).
Proof.
  intros H. rewrite (bind_run _ _ _ _ _ _ H). cbn [fatal_on_error].
  rewrite (bind_run _ _ s' a s' []) by reflexivity. reflexivity.
Qed.

Lemma ReadFile_cases path s :
  (exists c, file_has path c (fs s)
             /\ ioutil_ReadFile path s
                = mkRun (Val (inl c)) (stepped s) [ESys (ReadFile path) None])
  \/ (exists e, ioutil_ReadFile path s
                = mkRun (Val (inr e)) (stepped s) [ESys (ReadFile path) (Some e)]
                /\ (hd false (faults s) = false -> forall c, ~ file_has path c (fs s))).
Proof.
  unfold ioutil_ReadFile, syscall_read, file_has.
  destruct (hd false (faults s)); [right; exists EIO; split; done |].
  destruct (fs s !! path) as [[v | p c] |] eqn:Hp.
  - right. exists EISDIR. split; [done |]. intros _ c [p [=]].
  - left. exists c. eauto.
  - right. exists ENOENT. split; [done |]. intros _ c [p [=]].
Qed.

Lemma fault_free_S n l :
  fault_free (S n) l -> hd false l = false /\ fault_free n (tl l).
Proof.
  intros H. split.
  - specialize (H 0%nat ltac:(lia)). by destruct l.
  - intros i Hi. specialize (H (S i) ltac:(lia)). destruct l; [by destruct i | done].
Qed.

Ltac fatal_end :=
  cbn [result final events app]; repeat split; eauto;
  intros ? ? Hin; rewrite ?elem_of_cons in Hin;
  repeat (destruct Hin as [Hin | Hin]; [discriminate Hin |]);
  by apply elem_of_nil in Hin.

(** X14: [Cert2Lang] reads before it writes.  Unless the CA certificate,
    the certificate and the key are regular files and "openssl version"
    runs, [Cert2Lang] ends in log.Fatal having made no file: the file
    system, the globals and standard output are as they were. *)
Theorem Cert2Lang_reads_before_writing (s : St) :
  ~ (exists ca cert key version,
       file_has (CACert (Fl (G s))) ca (fs s)
       /\ file_has (FilePath.Cert (File (G s))) cert (fs s)
       /\ file_has (FilePath.Key (File (G s))) key (fs s)
       /\ env_version E = Some version) ->
  let r := Cert2Lang E s in
  is_Fatal (result r)
  /\ no_Create (events r)
  /\ fs (final r) = fs s /\ G (final r) = G s /\ stdout (final r) = stdout s.
Proof.
  intros Hno r. subst r. unfold Cert2Lang, is_Fatal, no_Create.
  rewrite (bind_run _ _ _ _ _ _ (get_run s)). cbv zeta.
  destruct (ReadFile_cases (CACert (Fl (G s))) s)
    as [(ca & Hca & Hrun) | (e & Hrun & _)];
    [rewrite (checked_ok _ _ _ _ _ _ _ _ Hrun)
    | rewrite (checked_fail _ _ _ _ _ _ _ _ Hrun); fatal_end].
  destruct (ReadFile_cases (FilePath.Cert (File (G s))) (stepped s))
    as [(cert & Hcert & Hrun2) | (e & Hrun2 & _)];
    [rewrite (checked_ok _ _ _ _ _ _ _ _ Hrun2)
    | rewrite (checked_fail _ _ _ _ _ _ _ _ Hrun2); fatal_end].
  destruct (ReadFile_cases (FilePath.Key (File (G s))) (stepped (stepped s)))
    as [(key & Hkey & Hrun3) | (e & Hrun3 & _)];
    [rewrite (checked_ok _ _ _ _ _ _ _ _ Hrun3)
    | rewrite (checked_fail _ _ _ _ _ _ _ _ Hrun3); fatal_end].
  destruct (env_version E) as [version |] eqn:Hv.
  { destruct Hno. exists ca, cert, key, version. done. }
  rewrite (checked_fail _ _ _ _ _ _ _ _
             (eq_refl : envcall _ None _ = mkRun (Val (inr EIO)) _ _)).
  fatal_end.
Qed.

Lemma ReadFile_ok path c s :
  file_has path c (fs s) -> hd false (faults s) = false ->
  ioutil_ReadFile path s
  = mkRun (Val (inl c)) (stepped s) [ESys (ReadFile path) None].
Proof.
  intros [p Hp] Hf. unfold ioutil_ReadFile, syscall_read. by rewrite Hf, Hp.
Qed.

(** X15: a failed -lang-go leaves the server file behind.  [Cert2Lang]
    opens the server file before it asks for the end date of the
    certificate: when the inputs are read and [InfoEndDate] then fails,
    the run ends in log.Fatal with the empty server file made and the
    client file not; and the next -lang-go ends at its guard, with "File
    already exists", for as long as that file is there. *)
Theorem failed_end_date_leaves_server_file (s : St)
    (ca cert key version msg : string) :
  file_has (CACert (Fl (G s))) ca (fs s) ->
  file_has (FilePath.Cert (File (G s))) cert (fs s) ->
  file_has (FilePath.Key (File (G s))) key (fs s) ->
  env_version E = Some version ->
  fault_free 4 (faults s) ->
  fs s !! _FILE_SERVER_GO = None ->
  let m1 := <[_FILE_SERVER_GO := NFile (Z.ldiff (octal 6 6 6) (env_umask E)) ""]>
              (fs s) in
  env_ext E (InfoEndDate (FilePath.Cert (File (G s)))) (G s) m1 = (inr msg, m1) ->
  let r := Cert2Lang E s in
  result r = Stop (Fatal msg)
  /\ fs (final r) = m1
  /\ (forall f s2, IsGoLang f = true -> fs s2 = fs (final r) ->
      result (main_golang E f s2)
      = Stop (Fatal ("File already exists: " +:+ fmt_q _FILE_SERVER_GO))
      /\ fs (final (main_golang E f s2)) = fs s2).
Proof.
  intros Hca Hcert Hkey Hv Hff Hfresh m1 Hend r.
  apply fault_free_S in Hff as [Hf1 Hff]. apply fault_free_S in Hff as [Hf2 Hff].
  apply fault_free_S in Hff as [Hf3 Hff]. apply fault_free_S in Hff as [Hf4 _].
  assert (Hrun : Cert2Lang E s
                 = mkRun (Stop (Fatal msg))
                     (add_stderr ("FAIL! " +:+ msg +:+ nl)
                        (set_fs (fun _ => m1)
                           (stepped (stepped (stepped (stepped s))))))
                     [ESys (ReadFile (CACert (Fl (G s)))) None;
                      ESys (ReadFile (FilePath.Cert (File (G s)))) None;
                      ESys (ReadFile (FilePath.Key (File (G s)))) None;
                      ESys (Command (FilePath.Cmd (File (G s))) "version") None;
                      ESys (Create _FILE_SERVER_GO) None;
                      ECall in_Cert2Lang
                        (Ext (InfoEndDate (FilePath.Cert (File (G s))))) (G s)]).
  { unfold Cert2Lang. rewrite (bind_run _ _ _ _ _ _ (get_run s)). cbv zeta.
    rewrite (checked_ok _ _ _ _ _ _ _ _ (ReadFile_ok _ _ s Hca Hf1)).
    rewrite (checked_ok _ _ _ _ _ _ _ _ (ReadFile_ok _ _ (stepped s) Hcert Hf2)).
    rewrite (checked_ok _ _ _ _ _ _ _ _
               (ReadFile_ok _ _ (stepped (stepped s)) Hkey Hf3)).
    rewrite Hv.
    rewrite (checked_ok _ _ _ _ _ _ _ _
               (eq_refl : envcall _ (Some version) _ = mkRun (Val (inl version)) _ _)).
    assert (Hcreate : os_Create (env_umask E) _FILE_SERVER_GO
                        (stepped (stepped (stepped s)))
                      = mkRun (Val (inl _FILE_SERVER_GO))
                          (set_fs (fun _ => m1)
                             (stepped (stepped (stepped (stepped s)))))
                          [ESys (Create _FILE_SERVER_GO) None]).
    { unfold os_Create, syscall. cbv zeta.
      change (hd false (faults (stepped (stepped (stepped s)))))
        with (hd false (tl (tl (tl (faults s))))).
      rewrite Hf4. change (fs (stepped (stepped (stepped s)))) with (fs s).
      rewrite Hfresh. reflexivity. }
    rewrite (checked_ok _ _ _ _ _ _ _ _ Hcreate).
    rewrite bind_eq, call_ext_run.
    change (env_ext E (InfoEndDate (FilePath.Cert (File (G s)))) (G s) m1
            = (inr msg, m1)) in Hend.
    cbn [set_fs stepped set_faults G fs]. rewrite Hend. reflexivity. }
  subst r. rewrite Hrun. cbn [result final add_stderr set_fs fs].
  split; [done |]. split; [done |].
  intros f s2 Hgo Hfs. unfold main_golang. rewrite Hgo. cbn [when].
  destruct (fatal_if_exists_found "File already exists: " _FILE_SERVER_GO s2)
    as (err & Hstat & _).
  { rewrite Hfs. subst m1. rewrite lookup_insert_eq. eauto. }
  rewrite (bind_stop _ _ _ _ _ _ Hstat). done.
Qed.

End Written.

Lemma Cert2Lang_writes_both_files_witness :
  exists version endDate,
    env_version demo_env = Some version
    /\ fst (env_ext demo_env (InfoEndDate "/home/u/.cert/certs/www.crt")
              (G (golang_state demo_env demo_fs_www))
              (created (env_umask demo_env) _FILE_SERVER_GO demo_fs_www))
       = inl endDate
    /\ file_has _FILE_CLIENT_GO
         (fst (env_TMPL_GO demo_env false
                 (go_data demo_env "CERT" "CERT" "KEY" version endDate)))
         (fs (final (Cert2Lang demo_env (golang_state demo_env demo_fs_www)))).
Proof.
  destruct (Cert2Lang_writes_both_files demo_env
              (golang_state demo_env demo_fs_www))
    as (ca & cert & key & version & endDate
        & [p1 Hca] & [p2 Hcert] & [p3 Hkey] & Hv & Hend & _ & Hcl & _).
  - intros t g m. reflexivity.
  - vm_compute. reflexivity.
  - vm_compute in Hca, Hcert, Hkey.
    injection Hca as _ <-. injection Hcert as _ <-. injection Hkey as _ <-.
    exists version, endDate. split; [exact Hv |]. split; [exact Hend | exact Hcl].
Defined.

Lemma Cert2Lang_reads_before_writing_witness :
  is_Fatal (result (Cert2Lang demo_env (resolved "www" (demo_state demo_fs_ca [])))).
Proof.
  destruct (Cert2Lang_reads_before_writing demo_env
              (resolved "www" (demo_state demo_fs_ca []))) as (H & _).
  - intros (ca & cert & key & version & _ & _ & [p Hkey] & _).
    vm_compute in Hkey. discriminate Hkey.
  - exact H.
Defined.

Lemma failed_end_date_leaves_server_file_witness :
  result (Cert2Lang bad_cert_env (golang_state bad_cert_env demo_fs_www))
  = Stop (Fatal "unable to load certificate")
  /\ is_Some (fs (final (Cert2Lang bad_cert_env
                           (golang_state bad_cert_env demo_fs_www)))
              !! _FILE_SERVER_GO).
Proof.
  destruct (failed_end_date_leaves_server_file bad_cert_env
              (golang_state bad_cert_env demo_fs_www)
              "CERT" "CERT" "KEY" "OpenSSL 1.0" "unable to load certificate")
    as (Hres & Hfs & _).
  - exists (octal 6 4 4). vm_compute. reflexivity.
  - exists (octal 6 4 4). vm_compute. reflexivity.
  - exists (octal 6 0 0). vm_compute. reflexivity.
  - reflexivity.
  - intros i Hi. vm_compute. by destruct i.
  - vm_compute. reflexivity.
  - reflexivity.
  - split; [exact Hres |]. rewrite Hfs. rewrite lookup_insert_eq. eauto.
Defined.

(** ** The files that [SetupDir] seeds *)

Lemma hoare_inl {A B C} (x : A) (Q : A -> St -> Prop) (m : M B) R :
  hoare (Q x) m R ->
  hoare (fun s => forall a, @inl A C x = inl a -> Q a s) m R.
Proof. intros H s b HP. apply H. by apply HP. Qed.

Section Seeds.

Variable E : Env.

Lemma no_new_content_refl m : no_new_content m m.
Proof. by intros q c. Qed.

Lemma no_new_content_trans m1 m2 m3 :
  no_new_content m1 m2 -> no_new_content m2 m3 -> no_new_content m1 m3.
Proof. intros H12 H23 q c H. by apply H12, H23. Qed.

(** A new directory, and a change of mode, bring no file content. *)
Lemma no_new_content_mkdir m d v :
  m !! d = None -> no_new_content m (<[d := NDir v]> m).
Proof.
  intros Hd q c [p Hq]. destruct (decide (d = q)) as [-> |].
  - rewrite lookup_insert_eq in Hq. discriminate.
  - rewrite lookup_insert_ne in Hq by done. by exists p.
Qed.

Lemma hoare_mkdir_all s0 dirs : forall m,
  hoare (at_fs s0 m) (mkdir_all E dirs)
    (fun _ s => exists m', at_fs s0 m' s /\ no_new_content m m').
Proof.
  induction dirs as [|v dirs IH]; intros m.
  { intros s a Hs [= <-]. exists m. split; [done | apply no_new_content_refl]. }
  cbn [mkdir_all].
  eapply hoare_bind; [apply hoare_write |]. intros r.
  eapply hoare_bind; [apply hoare_fatal_on_error |]. intros [].
  intros s a [Hr [[_ Hs] | [Hr' Hs]]] Hres.
  - apply (IH m s a Hs Hres).
  - destruct (m !! v) as [n |] eqn:Hv; cbn [fst snd] in *.
    { subst r. discriminate. }
    destruct (IH _ s a Hs Hres) as (m' & Hm' & Hback).
    exists m'. split; [done |].
    eapply no_new_content_trans; [| exact Hback].
    by apply no_new_content_mkdir.
Qed.

Lemma hoare_Chmod_any s0 m path perm :
  hoare (at_fs s0 m) (os_Chmod path perm)
    (fun r s => forall a, r = inl a ->
       exists m', at_fs s0 m' s /\ no_new_content m m').
Proof.
  eapply hoare_weaken; [apply hoare_write | done |]. cbv beta.
  intros r s [[-> Hs] | [-> Hs]] a; [done |]. intros _.
  eexists. split; [exact Hs |].
  destruct (m !! path) as [[v | p c] |] eqn:Hp; cbn [snd];
    [| | apply no_new_content_refl]; intros q c' [p' Hq];
    (destruct (decide (path = q)) as [-> |];
     [rewrite lookup_insert_eq in Hq | rewrite lookup_insert_ne in Hq by done;
                                       by exists p']).
  - discriminate.
  - injection Hq as _ <-. by exists p.
Qed.

Lemma hoare_ParseFiles s0 m path :
  hoare (at_fs s0 m) (template_ParseFiles E path)
    (fun r s => at_fs s0 m s
       /\ forall t, r = inl t ->
          exists c, file_has path c m /\ env_template E c = Some t).
Proof.
  eapply hoare_weaken; [apply hoare_read | done |]. cbv beta.
  intros r s [Hs [-> | ->]]; (split; [done |]); intros t; [done |].
  destruct (m !! path) as [[v | p c] |] eqn:Hp; try done.
  destruct (env_template E c) as [t' |] eqn:Ht; [| done].
  intros [= <-]. exists c. split; [by exists p | done].
Qed.

(** X16: what [SetupDir] leaves in its files.  When [SetupDir] comes to
    its end, the index, the serial and the configuration are three
    different paths, and the template of the package is neither the index
    nor the serial: the index is an empty file; the serial holds "01" and
    a newline; the configuration holds what the template - the text of
    the file openssl.cfg.tmpl in the directory of the package, as it was
    before the run - renders for the root directory, the host name and
    the alternative name "IP.1 = 127.0.0.1"; one line has been printed,
    with the root directory; and the configuration has mode 0600 unless
    the failure of that chmod has been logged. *)
Theorem SetupDir_seeds_files (s : St) :
  let D := Dir (G s) in
  let F := File (G s) in
  NoDup [FilePath.Index F; FilePath.Serial F; FilePath.Config F] ->
  (forall pkgDir, env_import E = Some pkgDir ->
     filepath.Join [pkgDir; _FILE_CONFIG +:+ ".tmpl"] <> FilePath.Index F
     /\ filepath.Join [pkgDir; _FILE_CONFIG +:+ ".tmpl"] <> FilePath.Serial F) ->
  result (SetupDir E s) = Val tt ->
  let s' := final (SetupDir E s) in
  exists host pkgDir c tmpl,
    env_hostname E = Some host
    /\ env_import E = Some pkgDir
    /\ file_has (filepath.Join [pkgDir; _FILE_CONFIG +:+ ".tmpl"]) c (fs s)
    /\ env_template E c = Some tmpl
    /\ file_has (FilePath.Index F) "" (fs s')
    /\ file_has (FilePath.Serial F) ("01" +:+ nl) (fs s')
    /\ file_has (FilePath.Config F)
         (fst (tmpl (DirPath.Root D) host "IP.1 = 127.0.0.1")) (fs s')
    /\ stdout s'
       = stdout s ++ ["* Directory structure created in "
                      +:+ fmt_q (DirPath.Root D) +:+ nl]
    /\ (stderr s' = stderr s ->
        fs s' !! FilePath.Config F
        = Some (NFile (octal 6 0 0)
                  (fst (tmpl (DirPath.Root D) host "IP.1 = 127.0.0.1")))).
Proof.
  intros D F Hnd Htpl Hres s'. subst s'.
  assert (Hi1 : FilePath.Index F <> FilePath.Serial F
                /\ FilePath.Index F <> FilePath.Config F
                /\ FilePath.Serial F <> FilePath.Config F).
  { rewrite !list.NoDup_cons, !not_elem_of_cons in Hnd. tauto. }
  destruct Hi1 as (Hi1 & Hi2 & Hs1).
  assert (H : hoare (at_fs s (fs s)) (SetupDir E) (fun _ s' =>
    exists host pkgDir c tmpl,
      env_hostname E = Some host
      /\ env_import E = Some pkgDir
      /\ file_has (filepath.Join [pkgDir; _FILE_CONFIG +:+ ".tmpl"]) c (fs s)
      /\ env_template E c = Some tmpl
      /\ file_has (FilePath.Index F) "" (fs s')
      /\ file_has (FilePath.Serial F) ("01" +:+ nl) (fs s')
      /\ file_has (FilePath.Config F)
           (fst (tmpl (DirPath.Root D) host "IP.1 = 127.0.0.1")) (fs s')
      /\ stdout s'
         = stdout s ++ ["* Directory structure created in "
                        +:+ fmt_q (DirPath.Root D) +:+ nl]
      /\ (stderr s' = stderr s ->
          fs s' !! FilePath.Config F
          = Some (NFile (octal 6 0 0)
                    (fst (tmpl (DirPath.Root D) host "IP.1 = 127.0.0.1")))))).
  2:{ apply (H s tt); [done | exact Hres]. }
  clear Hres. unfold SetupDir.
  eapply hoare_bind; [apply hoare_get_at |]. intros s1. cbv beta zeta.
  apply hoare_pure. intros ->. fold D F.
  eapply hoare_bind; [apply hoare_mkdir_all |]. intros ?. cbv beta.
  apply hoare_exists. intros m0. apply hoare_pure_r. intros Hback0.
  eapply hoare_checked; [apply hoare_Chmod_any |]. intros ?. cbv beta.
  apply hoare_exists. intros m0'. apply hoare_pure_r. intros Hback0'.
  eapply hoare_checked; [apply hoare_Create |]. intros file. cbv beta.
  apply hoare_pure. intros ->. apply hoare_exists. intros p1.
  eapply hoare_bind; [apply hoare_Close |]. intros ?. cbv beta.
  eapply hoare_checked; [apply hoare_Create |]. intros file. cbv beta.
  apply hoare_pure. intros ->. apply hoare_exists. intros p2.
  eapply hoare_bind; [apply (hoare_append _ _ _ _ _ true) |]. intros w. cbv beta.
  apply hoare_exists. intros m3. apply hoare_pure_r. intros (Hq3 & _ & Hok3).
  eapply hoare_bind; [apply hoare_Close |]. intros ?. cbv beta.
  eapply hoare_bind; [apply hoare_fatal_on_error |]. intros []. cbv beta.
  apply hoare_pure. intros ->.
  destruct (Hok3 tt eq_refl) as [_ Hserial]. clear Hok3.
  specialize (Hserial "" ltac:(exists p2; apply lookup_insert_eq)).
  eapply hoare_bind; [apply hoare_envcall_at |]. intros h. cbv beta.
  destruct h as [host | e];
    [| apply hoare_never, never_returns_bind_l, never_returns_log_Fatal].
  apply hoare_inl. apply hoare_pure. intros Hhost.
  eapply hoare_bind; [apply hoare_ret |]. intros ?. cbv beta.
  apply hoare_pure. intros ->.
  eapply hoare_bind; [apply hoare_envcall_at |]. intros i. cbv beta.
  destruct i as [pkgDir | e];
    [| apply hoare_never, never_returns_bind_l, never_returns_log_Fatal].
  apply hoare_inl. apply hoare_pure. intros Himport.
  destruct (Htpl pkgDir Himport) as [Htpl1 Htpl2].
  eapply hoare_bind; [apply hoare_ret |]. intros ?. cbv beta.
  apply hoare_pure. intros ->.
  eapply hoare_bind; [apply hoare_Stat |]. intros st. cbv beta.
  destruct (os_IsNotExist (err_of st)); cbn [when];
    [apply hoare_never, never_returns_bind_l, never_returns_log_Fatal |].
  eapply hoare_bind; [apply hoare_ret |]. intros ?. cbv beta.
  apply hoare_pure. intros _.
  eapply hoare_bind; [apply hoare_ParseFiles |]. intros t. cbv beta.
  apply hoare_pure_r. intros Ht.
  destruct t as [tmpl | e];
    [| apply hoare_never, never_returns_bind_l, never_returns_log_Fatal].
  destruct (Ht tmpl eq_refl) as (c & [pt Hfile] & Htmpl). clear Ht.
  assert (Hsource : file_has (filepath.Join [pkgDir; _FILE_CONFIG +:+ ".tmpl"])
                      c (fs s)).
  { apply Hback0, Hback0'. exists pt.
    rewrite Hq3 in Hfile by done.
    by rewrite !lookup_insert_ne in Hfile by done. }
  eapply hoare_bind; [apply hoare_ret |]. intros ?. cbv beta.
  apply hoare_pure. intros ->.
  eapply hoare_checked; [apply hoare_Create |]. intros file. cbv beta.
  apply hoare_pure. intros ->. apply hoare_exists. intros p4.
  eapply hoare_bind; [apply hoare_append |]. intros x. cbv beta.
  apply hoare_exists. intros m5. apply hoare_pure_r. intros (Hq5 & _ & Hok5).
  eapply hoare_bind; [apply hoare_Close |]. intros ?. cbv beta.
  eapply hoare_bind; [apply hoare_fatal_on_error |]. intros []. cbv beta.
  apply hoare_pure. intros ->.
  destruct (Hok5 tt eq_refl) as [_ Hconfig]. clear Hok5.
  specialize (Hconfig "" ltac:(exists p4; apply lookup_insert_eq)).
  cbn [append] in Hconfig.
  set (text := fst (tmpl (DirPath.Root D) host "IP.1 = 127.0.0.1")) in *.
  destruct Hconfig as [p5 Hconfig].
  assert (Hindex5 : file_has (FilePath.Index F) "" m5).
  { exists p1. rewrite Hq5 by done. rewrite lookup_insert_ne by done.
    rewrite Hq3 by done. rewrite lookup_insert_ne by done.
    apply lookup_insert_eq. }
  assert (Hserial5 : file_has (FilePath.Serial F) ("01" +:+ nl) m5).
  { destruct Hserial as [q Hq]. exists q. rewrite Hq5 by done.
    rewrite lookup_insert_ne by done. exact Hq. }
  eapply hoare_bind; [apply hoare_write |]. intros r. cbv beta.
  rewrite Hconfig. cbn [fst snd].
  intros s2 [] [[-> Hs2] | [-> Hs2]] _;
    destruct Hs2 as ((Hout & Herr) & _ & Hfs);
    exists host, pkgDir, c, tmpl; cbn; rewrite Hfs, Hout, ?Herr.
  - repeat split; try done; [by exists p5 |].
    intros Habs. apply (f_equal length) in Habs.
    rewrite length_app in Habs. simpl in Habs. lia.
  - repeat split; try done.
    + destruct Hindex5 as [q Hq]. exists q. by rewrite lookup_insert_ne.
    + destruct Hserial5 as [q Hq]. exists q. by rewrite lookup_insert_ne.
    + eexists. apply lookup_insert_eq.
    + intros _. apply lookup_insert_eq.
Qed.

End Seeds.

Lemma SetupDir_seeds_files_witness :
  exists c tmpl,
    file_has "/go/src/github.com/kless/easycert/data/openssl.cfg.tmpl" c demo_fs
    /\ env_template demo_env c = Some tmpl
    /\ file_has "/home/u/.cert/serial" ("01" +:+ nl)
         (fs (final (SetupDir demo_env (demo_state demo_fs []))))
    /\ file_has "/home/u/.cert/openssl.cfg"
         (fst (tmpl "/home/u/.cert" "host" "IP.1 = 127.0.0.1"))
         (fs (final (SetupDir demo_env (demo_state demo_fs [])))).
Proof.
  destruct (SetupDir_seeds_files demo_env (demo_state demo_fs []))
    as (host & pkgDir & c & tmpl & Hhost & Himport & Hsrc & Htmpl & _
        & Hserial & Hconfig & _).
  - apply (@bool_decide_unpack _ (NoDup_dec _)). vm_compute. exact I.
  - intros pkgDir [= <-]. split; vm_compute; discriminate.
  - vm_compute. reflexivity.
  - injection Hhost as <-. injection Himport as <-.
    exists c, tmpl. split; [exact Hsrc |]. split; [exact Htmpl |].
    split; [exact Hserial | exact Hconfig].
Defined.

(** ** No rollback *)

Lemma keeps_bind {A B} (m : M A) (k : A -> M B) :
  keeps m -> (forall a, keeps (k a)) -> keeps (bind m k).
Proof.
  intros Hm Hk s. rewrite bind_eq. destruct (Hm s) as [Hn Hmade].
  destruct (result (m s)) as [a | o]; cbn [result final events]; [| done].
  destruct (Hk a (final (m s))) as [Hn' Hmade']. split.
  - intros p Hp. by apply Hn', Hn.
  - intros op p Hin Hop. apply elem_of_app in Hin as [Hin | Hin].
    + apply Hn'. by eapply Hmade.
    + by eapply Hmade'.
Qed.

Lemma keeps_quiet {A} (m : M A) :
  (forall s, fs (final (m s)) = fs s /\ events (m s) = []) -> keeps m.
Proof.
  intros H s. destruct (H s) as [-> ->]. split; [by intros ? ? |].
  intros op p Hin. by apply elem_of_nil in Hin.
Qed.

Lemma keeps_fatal_on_error {A} op path (r : A + Errno) :
  keeps (fatal_on_error op path r).
Proof. apply keeps_quiet. intros s. by destruct r. Qed.

Lemma keeps_read {A} op (f : gmap string Node -> A + Errno) dflt :
  makes op = None -> keeps (syscall_read op f dflt).
Proof.
  intros Hop s. split; [by intros ? ? |]. intros op' p Hin.
  apply list_elem_of_singleton in Hin. inversion Hin; subst. by rewrite Hop.
Qed.

Lemma keeps_envcall {A} op (v : option A) :
  makes op = None -> keeps (envcall op v).
Proof.
  intros Hop s. unfold envcall. destruct v; (split; [by intros ? ? |]);
    intros op' p Hin; apply list_elem_of_singleton in Hin;
    inversion Hin; subst; by rewrite Hop.
Qed.

(** A step that writes keeps what is there when [f] does, and leaves
    what it makes when [f] does and answers without an error. *)
Lemma keeps_syscall {A} op
    (f : gmap string Node -> (A + Errno) * gmap string Node) :
  (forall m, nothing_removed m (snd (f m))) ->
  (forall m p, makes op = Some p -> err_of (fst (f m)) = None ->
               is_Some (snd (f m) !! p)) ->
  keeps (syscall op f).
Proof.
  intros Hkeep Hmake s. unfold syscall. cbv zeta.
  destruct (hd false (faults s)); cbn [result final events fs set_fs set_faults].
  - split; [by intros ? ? |]. intros op' p Hin.
    apply list_elem_of_singleton in Hin. discriminate.
  - split; [apply Hkeep |]. intros op' p Hin Hop.
    apply list_elem_of_singleton in Hin. inversion Hin as [[Hop' Herr]].
    subst op'. by apply Hmake.
Qed.

Lemma nothing_removed_insert m p n : nothing_removed m (<[p := n]> m).
Proof.
  intros q Hq. destruct (decide (p = q)) as [-> |].
  - rewrite lookup_insert_eq. eauto.
  - by rewrite lookup_insert_ne.
Qed.

Section NoRollback.

Variable E : Env.

Lemma keeps_Mkdir path perm : keeps (os_Mkdir (env_umask E) path perm).
Proof.
  apply keeps_syscall.
  - intros m. destruct (m !! path); cbn [snd];
      [by intros ? ? | apply nothing_removed_insert].
  - intros m p [= <-]. destruct (m !! path); cbn [fst snd err_of];
      [done |]. intros _. rewrite lookup_insert_eq. eauto.
Qed.

Lemma keeps_Chmod path perm : keeps (os_Chmod path perm).
Proof.
  apply keeps_syscall; [| done].
  intros m. destruct (m !! path) as [[v | p c] |]; cbn [snd];
    [apply nothing_removed_insert .. | by intros ? ?].
Qed.

Lemma keeps_Create path : keeps (os_Create (env_umask E) path).
Proof.
  apply keeps_syscall.
  - intros m. destruct (m !! path) as [[v | p c] |]; cbn [snd];
      [by intros ? ? | apply nothing_removed_insert ..].
  - intros m p [= <-]. destruct (m !! path) as [[v | q c] |];
      cbn [fst snd err_of]; [done | |]; intros _;
      rewrite lookup_insert_eq; eauto.
Qed.

Lemma keeps_Write file data : keeps (file_Write file data).
Proof.
  apply keeps_syscall; [| done].
  intros m. destruct (m !! file) as [[v | p c] |]; cbn [snd];
    [by intros ? ? | apply nothing_removed_insert | by intros ? ?].
Qed.

Lemma keeps_Execute file out : keeps (tmpl_Execute file out).
Proof.
  apply keeps_syscall; [| done].
  intros m. destruct (m !! file) as [[v | p c] |]; cbn [snd];
    [by intros ? ? | apply nothing_removed_insert | by intros ? ?].
Qed.

Lemma keeps_log_Fatal {A} msg : keeps (@log_Fatal A msg).
Proof. by apply keeps_quiet. Qed.

Lemma keeps_mkdir_all dirs : keeps (mkdir_all E dirs).
Proof.
  induction dirs as [|v dirs IH]; [by apply keeps_quiet |].
  cbn [mkdir_all].
  apply keeps_bind; [apply keeps_Mkdir |]. intros r.
  apply keeps_bind; [apply keeps_fatal_on_error | done].
Qed.

Ltac keeps_step :=
  cbv zeta;
  lazymatch goal with
  | |- keeps (bind _ _) => apply keeps_bind; [| intros ?]
  | |- keeps (mkdir_all _ _) => apply keeps_mkdir_all
  | |- keeps (os_Mkdir _ _ _) => apply keeps_Mkdir
  | |- keeps (os_Chmod _ _) => apply keeps_Chmod
  | |- keeps (os_Create _ _) => apply keeps_Create
  | |- keeps (file_Write _ _) => apply keeps_Write
  | |- keeps (tmpl_Execute _ _) => apply keeps_Execute
  | |- keeps (file_Close _) => by apply keeps_read
  | |- keeps (os_Stat _) => by apply keeps_read
  | |- keeps (template_ParseFiles _ _) => by apply keeps_read
  | |- keeps (envcall _ _) => by apply keeps_envcall
  | |- keeps (fatal_on_error _ _ _) => apply keeps_fatal_on_error
  | |- keeps (log_Fatal _) => apply keeps_log_Fatal
  | |- keeps (match ?x with _ => _ end) => destruct x
  | |- keeps (when ?b _) => destruct b; cbn [when]
  | |- keeps _ => by apply keeps_quiet
  end.

(** X17: [SetupDir] has no rollback.  In every run of [SetupDir],
    however it ends - at its end, or in log.Fatal after a step that
    failed - every path that was in the file system is still there, and
    so is every directory and every file that a step of the run has
    made: what is done before a failure stays. *)
Theorem SetupDir_has_no_rollback (s : St) :
  nothing_removed (fs s) (fs (final (SetupDir E s)))
  /\ made_in (events (SetupDir E s)) (fs (final (SetupDir E s))).
Proof.
  revert s. change (keeps (SetupDir E)). unfold SetupDir.
  repeat keeps_step.
Qed.

End NoRollback.

(** ** The size of the key, printed and read back *)

Example Itoa_ex1 : strconv_Itoa 2048 = "2048". Proof. reflexivity. Qed.
Example Itoa_ex2 : strconv_Itoa (-7) = "-7". Proof. reflexivity. Qed.
Example Itoa_ex3 : strconv_Itoa 0 = "0". Proof. reflexivity. Qed.
Example Itoa_ex4 : strconv_Itoa strconv.minInt = "-9223372036854775808".
Proof. reflexivity. Qed.

Lemma digit_digit_byte d :
  0 <= d < 10 -> strconv.digit (digit_byte d) = Some d.
Proof.
  intros Hd.
  assert (H : d = 0 \/ d = 1 \/ d = 2 \/ d = 3 \/ d = 4 \/ d = 5 \/ d = 6
              \/ d = 7 \/ d = 8 \/ d = 9) by lia.
  repeat (destruct H as [-> | H]; [reflexivity |]). by subst.
Qed.

Lemma digit_byte_no_sign d :
  0 <= d < 10 ->
  Ascii.eqb (digit_byte d) "-" = false /\ Ascii.eqb (digit_byte d) "+" = false.
Proof.
  intros Hd.
  assert (H : d = 0 \/ d = 1 \/ d = 2 \/ d = 3 \/ d = 4 \/ d = 5 \/ d = 6
              \/ d = 7 \/ d = 8 \/ d = 9) by lia.
  repeat (destruct H as [-> | H]; [by split |]). by subst.
Qed.

(** Reading back what [utoa] has written gives the number. *)
Lemma digits_utoa fuel : forall u acc n,
  0 <= u < 10 ^ Z.of_nat fuel ->
  exists k, 0 <= k
            /\ strconv.digits (utoa fuel u acc) n = strconv.digits acc (n * 10 ^ k + u).
Proof.
  induction fuel as [|fuel IH]; intros u acc n Hu.
  { exists 0. split; [done |]. cbn [utoa]. simpl in Hu. f_equal; lia. }
  cbn [utoa]. cbv zeta. destruct (u <? 10) eqn:Hlt.
  - apply Z.ltb_lt in Hlt. exists 1. split; [done |].
    cbn [strconv.digits]. rewrite Z.mod_small by lia.
    rewrite digit_digit_byte by lia. f_equal; lia.
  - apply Z.ltb_ge in Hlt.
    destruct (IH (u / 10) (digit_byte (u mod 10) :: acc) n) as (k & Hk & ->).
    { split; [apply Z.div_pos; lia |].
      apply Z.div_lt_upper_bound; [lia |].
      rewrite Nat2Z.inj_succ, Z.pow_succ_r in Hu by lia. lia. }
    exists (k + 1). split; [lia |]. cbn [strconv.digits].
    rewrite digit_digit_byte by (apply Z.mod_pos_bound; lia). f_equal.
    rewrite Z.pow_add_r by lia.
    pose proof (Z.div_mod u 10 ltac:(lia)). lia.
Qed.

(** What [utoa] writes starts with a digit. *)
Lemma utoa_head fuel : forall u acc,
  0 <= u ->
  exists d rest, 0 <= d < 10 /\ utoa (S fuel) u acc = digit_byte d :: rest.
Proof.
  induction fuel as [|fuel IH]; intros u acc Hu.
  - cbn [utoa]. cbv zeta. exists (u mod 10). destruct (u <? 10); eexists;
      (split; [apply Z.mod_pos_bound; lia | reflexivity]).
  - change (utoa (S (S fuel)) u acc)
      with (if u <? 10 then digit_byte (u mod 10) :: acc
            else utoa (S fuel) (u / 10) (digit_byte (u mod 10) :: acc)).
    destruct (u <? 10).
    + exists (u mod 10). eexists. split; [apply Z.mod_pos_bound; lia | done].
    + apply IH. apply Z.div_pos; lia.
Qed.

Lemma unsigned_utoa fuel u :
  0 <= u < 10 ^ Z.of_nat (S fuel) ->
  strconv.unsigned (utoa (S fuel) u []) = Some u.
Proof.
  intros Hu. destruct (utoa_head fuel u [] ltac:(lia)) as (d & rest & Hd & He).
  unfold strconv.unsigned. rewrite He, <- He.
  destruct (digits_utoa (S fuel) u [] 0 Hu) as (k & _ & ->).
  cbn [strconv.digits]. f_equal; lia.
Qed.

(** [Atoi] reads back what [Itoa] prints, for every value of the type. *)
Lemma Atoi_Itoa i :
  strconv.minInt <= i <= strconv.maxInt -> strconv.Atoi (strconv_Itoa i) = inl i.
Proof.
  intros Hi. unfold strconv.Atoi, strconv_Itoa. rewrite unstr_str.
  assert (Hmax : strconv.maxInt = 9223372036854775807) by reflexivity.
  assert (Hmin : strconv.minInt = -9223372036854775808) by reflexivity.
  assert (Hpow : 10 ^ Z.of_nat 20 = 100000000000000000000) by reflexivity.
  assert (Hrange : (strconv.minInt <=? i) && (i <=? strconv.maxInt) = true).
  { apply andb_true_iff. split; apply Z.leb_le; lia. }
  destruct (i <? 0) eqn:Hneg.
  - apply Z.ltb_lt in Hneg. unfold strconv.atoi.
    change (Ascii.eqb "-" "-") with true. cbv iota beta.
    rewrite (unsigned_utoa 19 (- i)) by lia.
    rewrite Z.opp_involutive, Hrange. reflexivity.
  - apply Z.ltb_ge in Hneg.
    destruct (utoa_head 19 i [] Hneg) as (d & rest & Hd & He).
    destruct (digit_byte_no_sign d Hd) as [Hm Hp].
    unfold strconv.atoi. rewrite He, Hm, Hp, <- He.
    rewrite (unsigned_utoa 19 i) by lia. rewrite Hrange. reflexivity.
Qed.

(** X18: the size printed and read back.  For every size of the type,
    [Set] on what [String] prints succeeds exactly when the size is at
    least 2048 and a multiple of 1024, and then stores that size again,
    whatever was stored before: a size that [Set] has accepted comes back
    unchanged through [String] and [Set]. *)
Theorem rsaSize_String_Set_round_trip (s0 s : rsaSizeT) :
  strconv.minInt <= s <= strconv.maxInt ->
  (fst (rsaSizeT_Set s0 (rsaSizeT_String s)) = None <-> 2048 <= s /\ (1024 | s))
  /\ (2048 <= s -> (1024 | s) -> rsaSizeT_Set s0 (rsaSizeT_String s) = (None, s))
  /\ (forall value, rsaSizeT_Set s0 value = (None, s) ->
      rsaSizeT_Set s0 (rsaSizeT_String s) = (None, s)).
Proof.
  intros Hs. unfold rsaSizeT_Set, rsaSizeT_String. rewrite (Atoi_Itoa s Hs).
  cbv beta iota.
  assert (Hok : 2048 <= s -> (1024 | s) ->
                (s <? 2048) = false /\ negb (Z.rem s 1024 =? 0) = false).
  { intros Hmin Hdiv. split; [apply Z.ltb_ge; lia |].
    apply Z.rem_divide in Hdiv; [| done]. by rewrite Hdiv. }
  split; [| split].
  - split.
    + destruct (s <? 2048) eqn:Hlt; [discriminate |].
      destruct (Z.rem s 1024 =? 0) eqn:Hrem; [| discriminate].
      intros _. apply Z.ltb_ge in Hlt. apply Z.eqb_eq in Hrem.
      split; [done |]. by apply Z.rem_divide.
    + intros [Hmin Hdiv]. destruct (Hok Hmin Hdiv) as [-> ->]. reflexivity.
  - intros Hmin Hdiv. destruct (Hok Hmin Hdiv) as [-> ->]. reflexivity.
  - intros value. destruct (strconv.Atoi value) as [i | e]; [| discriminate].
    destruct (i <? 2048) eqn:Hlt; [discriminate |].
    destruct (Z.rem i 1024 =? 0) eqn:Hrem; [| discriminate].
    cbn [negb]. intros [= ->]. by rewrite Hlt, Hrem.
Qed.

Lemma rsaSize_String_Set_round_trip_witness :
  rsaSizeT_Set 2048 (rsaSizeT_String 4096) = (None, 4096).
Proof.
  destruct (rsaSize_String_Set_round_trip 2048 4096) as (_ & H & _).
  - split; vm_compute; discriminate.
  - apply H; [lia | by exists 4].
Defined.

(** ** -new, once more *)

Section Again.

Variable E : Env.

(** X21: a root that cannot be examined counts as one that exists.  The
    guard of -new takes every answer of [Stat] but "no such file" for the
    presence of the root: when [Stat] fails for another reason, the run
    ends in log.Fatal with "The directory structure exists" although
    there is no such directory, and [SetupDir] is not called. *)
Theorem unreadable_root_reads_as_existing (nflag : nat) (f : Flags)
    (args : list string) (s : St) :
  (nflag =? 0)%nat = false ->
  IsNew f = true ->
  is_setup_mode f args ->
  fs s !! DirPath.Root (Dir (G s)) = None ->
  hd false (faults s) = true ->
  let r := main_body E nflag f args s in
  let root := DirPath.Root (Dir (G s)) in
  result r = Stop (Fatal ("The directory structure exists: " +:+ fmt_q root))
  /\ events r = [ESys (Stat root) (Some EIO)]
  /\ fs (final r) = fs s.
Proof.
  intros Hn Hnew Hmode Hroot Hfault r root. subst r root.
  destruct Hmode as (Hq & Hreq & Hsign & Hgo).
  destruct (main_paths_setup f args s Hreq Hsign Hgo (or_introl Hnew))
    as (filename & Hpaths).
  rewrite (main_body_setup E _ _ _ _ _ _ Hn
             (conj Hq (conj Hreq (conj Hsign Hgo))) Hpaths).
  set (s1 := if IsCA f then resolved _NAME_CA s else s).
  assert (Hs1 : Dir (G s1) = Dir (G s) /\ fs s1 = fs s /\ faults s1 = faults s).
  { subst s1. by destruct (IsCA f). }
  destruct Hs1 as (HD & Hfs & Hfl).
  assert (Hrun : main_new E f s1
                 = mkRun (Stop (Fatal ("The directory structure exists: " +:+
                                       fmt_q (DirPath.Root (Dir (G s))))))
                     (add_stderr ("FAIL! " +:+ ("The directory structure exists: " +:+
                                    fmt_q (DirPath.Root (Dir (G s)))) +:+ nl)
                        (stepped s1))
                     [ESys (Stat (DirPath.Root (Dir (G s)))) (Some EIO)]).
  { unfold main_new. rewrite Hnew. cbn [when].
    rewrite (bind_run _ _ _ _ _ _ (get_run s1)). rewrite HD.
    assert (Hstat : fatal_if_exists "The directory structure exists: "
                      (DirPath.Root (Dir (G s))) s1
                    = mkRun (Stop (Fatal ("The directory structure exists: " +:+
                                          fmt_q (DirPath.Root (Dir (G s))))))
                        (add_stderr ("FAIL! " +:+
                           ("The directory structure exists: " +:+
                            fmt_q (DirPath.Root (Dir (G s)))) +:+ nl) (stepped s1))
                        [ESys (Stat (DirPath.Root (Dir (G s)))) (Some EIO)]).
    { rewrite fatal_if_exists_run. cbv zeta. by rewrite Hfl, Hfault. }
    rewrite (bind_stop _ _ _ _ _ _ Hstat). reflexivity. }
  rewrite (bind_stop _ _ _ _ _ _ Hrun). cbn [result final events].
  repeat split. cbn. exact Hfs.
Qed.

Lemma init_Val_inv s :
  result (init E s) = Val tt ->
  exists cmdPath home, env_openssl E = Some cmdPath /\ env_home E = Some home.
Proof.
  unfold init. destruct (env_openssl E) as [c |], (env_home E) as [h |];
    cbn; try discriminate. eauto.
Qed.

(** X22: -new works once.  After a run of "easycert -new" that has come
    to its end, the same command on the file system it has left - with
    the same environment, whatever the faults - ends in log.Fatal with
    "The directory structure exists", and changes nothing. *)
Theorem new_works_once (args1 args2 : list string) (s1 s2 : St) :
  Fl (G s1) = default_flags -> Fl (G s2) = default_flags ->
  result (easycert E [SetBool f_new true] args1 s1) = Val tt ->
  fs s2 = fs (final (easycert E [SetBool f_new true] args1 s1)) ->
  let r := easycert E [SetBool f_new true] args2 s2 in
  (exists root,
     result r = Stop (Fatal ("The directory structure exists: " +:+ fmt_q root)))
  /\ fs (final r) = fs s2.
Proof.
  intros Hfl1 Hfl2 Hres Hfs r. subst r.
  set (f := set_bool f_new true default_flags).
  assert (Hmode : forall args, is_setup_mode f args) by (intros; repeat split; done).
  assert (Hbody : forall args s,
    Fl (G s) = default_flags ->
    main E [SetBool f_new true] args s
    = (main_new E f ;; main_ca E f) (set_G (set_Fl (fun _ => f)) s)).
  { intros args s Hfl.
    rewrite (main_parsed E [SetBool f_new true] args f s)
      by (by rewrite Hfl).
    apply (main_body_setup E _ f args _ ""); [done | apply Hmode |].
    by apply main_paths_new. }
  unfold easycert in *.
  apply result_bind_Val in Hres as ([] & Hinit & Hmain & _).
  destruct (init_Val_inv s1 Hinit) as (cmdPath & home & Ho & Hh).
  rewrite (bind_run _ _ _ _ _ _ (init_run E cmdPath home s1 Ho Hh)) in Hfs.
  rewrite (init_run E cmdPath home s1 Ho Hh) in Hmain.
  rewrite (bind_run _ _ _ _ _ _ (init_run E cmdPath home s2 Ho Hh)).
  cbn [result final events app] in *.
  rewrite Hbody in Hmain, Hfs by done. rewrite Hbody by done.
  match type of Hmain with
  | result ((_ ;; _) ?st) = _ => set (t1 := st) in *
  end.
  match goal with
  | |- context [(main_new E f ;; main_ca E f) ?st] => set (t2 := st)
  end.
  set (root := filepath.Join [home; _DIR_ROOT]).
  assert (Hroot1 : DirPath.Root (Dir (G t1)) = root) by reflexivity.
  assert (Hroot2 : DirPath.Root (Dir (G t2)) = root) by reflexivity.
  (* the first run has made the root *)
  assert (Hmade : is_Some (fs t2 !! root)).
  { change (fs t2) with (fs s2). rewrite Hfs.
    apply result_bind_Val in Hmain as ([] & Hnew & Hca & _).
    rewrite bind_eq, Hnew. cbn [result final].
    rewrite (main_ca_skip E f _ eq_refl). cbn [final].
    unfold main_new in Hnew |- *. cbn [f set_bool IsNew when] in Hnew |- *.
    rewrite (bind_run _ _ _ _ _ _ (get_run t1)) in Hnew |- *.
    cbn [result final] in Hnew |- *.
    apply result_bind_Val in Hnew as ([] & Hstat & Hsetup & _).
    rewrite bind_eq, Hstat. cbn [result final].
    unfold call_main in Hsetup |- *.
    rewrite (bind_run _ _ _ _ _ _ (get_run _)) in Hsetup |- *.
    cbn [result final] in Hsetup |- *.
    rewrite bind_eq in Hsetup |- *. cbn [emit result final events] in Hsetup |- *.
    pose proof (ensures_SetupDir E _ Hsetup) as Hdirs.
    assert (HD : Dir (G (final (fatal_if_exists "The directory structure exists: "
                                  (DirPath.Root (Dir (G t1))) t1))) = Dir (G t1)).
    { rewrite fatal_if_exists_run. cbv zeta.
      by destruct (os_IsNotExist _). }
    rewrite HD, Hroot1 in Hdirs.
    eexists. apply Hdirs. rewrite !elem_of_cons. right. left. reflexivity. }
  rewrite <- Hroot2 in Hmade.
  destruct (main_new_found E f t2 eq_refl Hmade) as (err & Hrun & _).
  rewrite (bind_stop _ _ _ _ _ _ Hrun). cbn [result final events].
  split; [eauto | reflexivity].
Qed.

End Again.

Lemma unreadable_root_reads_as_existing_witness :
  result (main_body demo_env 1 (set_bool f_new true default_flags) []
            (demo_state demo_fs [true]))
  = Stop (Fatal ("The directory structure exists: " +:+ fmt_q "/home/u/.cert")).
Proof.
  destruct (unreadable_root_reads_as_existing demo_env 1
              (set_bool f_new true default_flags) []
              (demo_state demo_fs [true]) eq_refl eq_refl) as (H & _).
  - repeat split; done.
  - vm_compute. reflexivity.
  - reflexivity.
  - exact H.
Defined.

Lemma new_works_once_witness :
  exists root,
    result (easycert demo_env [SetBool f_new true] []
              (start (fs (final (easycert demo_env [SetBool f_new true] []
                                   (start demo_fs [])))) []))
    = Stop (Fatal ("The directory structure exists: " +:+ fmt_q root)).
Proof.
  assert (Hany : forall m,
    m = fs (final (easycert demo_env [SetBool f_new true] [] (start demo_fs []))) ->
    exists root,
      result (easycert demo_env [SetBool f_new true] [] (start m []))
      = Stop (Fatal ("The directory structure exists: " +:+ fmt_q root))).
  { intros m Hm.
    destruct (new_works_once demo_env [] [] (start demo_fs []) (start m [])
                eq_refl eq_refl) as (H & _).
    - vm_compute. reflexivity.
    - exact Hm.
    - exact H. }
  exact (Hany _ eq_refl).
Defined.

(** ** -ca, the name and the years *)

Section CA.

Variable E : Env.



End CA.



